(** * GST invoice engine: a shallow embedding and its verified properties

    The development follows the Python sources

    - [voice_invoice/models/company.py], [models/customer.py]
    - [voice_invoice/models/invoice.py]     ([InvoiceItem], [Invoice])
    - [voice_invoice/services/gst_calculator.py]   ([GSTCalculator])
    - [src/services/hsn_validator.py]       ([HSNValidator])

    Part I holds the definitions, Part II the lemmas and theorems.

    Conventions of the embedding.

    - A Python [str] is a [string]; the characters are read as ASCII code
      points, and [upper], [lower], [strip], [isdigit], [isalpha] are the
      ASCII restrictions of the Python methods.
    - A raised exception is the left injection of [result]; the exception
      classes that the modelled code can raise are the constructors of
      [exn].
    - [decimal.Decimal] is modelled by module [Dec]: finite numbers with an
      integer coefficient and an exponent, under the default context
      (28 significant digits, ROUND_HALF_EVEN, Emax = 999999,
      Emin = -999999, traps on InvalidOperation, DivisionByZero and
      Overflow).  NaN and the infinities are outside the model. *)

From Stdlib Require Import ZArith QArith Qround Qabs Lia Lqa Bool List Sorted.
From Stdlib Require Import Ascii String.
Import ListNotations.

Local Open Scope string_scope.
Local Open Scope Z_scope.

(* ===================================================================== *)
(** * Part I: definitions                                                *)
(* ===================================================================== *)

(** ** Exceptions *)

Inductive exn : Type :=
| ValueError (msg : string)
| IndexError
| AttributeError
| InvalidOperation
| DivisionByZero
| Overflow.

Definition result (A : Type) : Type := (exn + A)%type.

Definition ret {A : Type} (a : A) : result A := inr a.
Definition raise {A : Type} (e : exn) : result A := inl e.

Definition bind {A B : Type} (m : result A) (f : A -> result B) : result B :=
  match m with
  | inl e => inl e
  | inr a => f a
  end.

Declare Scope result_scope.
Delimit Scope result_scope with result.
Notation "x <- m ;; k" := (bind m (fun x => k))
  (at level 61, m at next level, right associativity) : result_scope.
Local Open Scope result_scope.

(** ** Python strings *)

Module PyStr.

Definition code (c : ascii) : Z := Z.of_N (N_of_ascii c).

Definition chr (z : Z) : ascii := ascii_of_N (Z.to_N z).

(** ASCII white space as [str.strip] and [str.isspace] see it. *)
Definition is_space (c : ascii) : bool :=
  let n := code c in
  ((9 <=? n) && (n <=? 13)) || ((28 <=? n) && (n <=? 32)).

Definition is_digit (c : ascii) : bool :=
  let n := code c in (48 <=? n) && (n <=? 57).

Definition is_upper (c : ascii) : bool :=
  let n := code c in (65 <=? n) && (n <=? 90).

Definition is_lower (c : ascii) : bool :=
  let n := code c in (97 <=? n) && (n <=? 122).


Definition upper_char (c : ascii) : ascii :=
  if is_lower c then chr (code c - 32) else c.

Definition lower_char (c : ascii) : ascii :=
  if is_upper c then chr (code c + 32) else c.

Fixpoint map (f : ascii -> ascii) (s : string) : string :=
  match s with
  | EmptyString => EmptyString
  | String c s' => String (f c) (map f s')
  end.

(** [s.upper()], [s.lower()] *)
Definition upper : string -> string := map upper_char.
Definition lower : string -> string := map lower_char.

Fixpoint forallb (p : ascii -> bool) (s : string) : bool :=
  match s with
  | EmptyString => true
  | String c s' => p c && forallb p s'
  end.

Definition is_empty (s : string) : bool :=
  match s with EmptyString => true | _ => false end.

(** [s.isdigit()], [s.isalpha()]: false on the empty string. *)
Definition isdigit (s : string) : bool := negb (is_empty s) && forallb is_digit s.

(** [s.lstrip()], [s.rstrip()], [s.strip()] *)
Fixpoint lstrip (s : string) : string :=
  match s with
  | EmptyString => EmptyString
  | String c s' => if is_space c then lstrip s' else s
  end.

Fixpoint rstrip (s : string) : string :=
  match s with
  | EmptyString => EmptyString
  | String c s' =>
      match rstrip s' with
      | EmptyString => if is_space c then EmptyString else String c EmptyString
      | r => String c r
      end
  end.

Definition strip (s : string) : string := rstrip (lstrip s).


Definition len (s : string) : Z := Z.of_nat (String.length s).

(** Slices [s[:n]] and [s[i:j]] for non-negative literal bounds; like
    Python's they stop at the end of the string. *)
Definition slice_to (n : nat) (s : string) : string := substring 0 n s.

(** [s[i]] for a non-negative index. *)
Definition index (i : nat) (s : string) : result ascii :=
  match String.get i s with
  | Some c => ret c
  | None => raise IndexError
  end.

(** [s.startswith(k)] *)
Definition startswith (s k : string) : bool := prefix k s.

(** [k in s] *)
Fixpoint contains (k s : string) : bool :=
  prefix k s ||
  match s with
  | EmptyString => false
  | String _ s' => contains k s'
  end.


(** Truth value of an [Optional[str]]: [None] and [""] are false. *)
Definition truthy (o : option string) : bool :=
  match o with
  | Some s => negb (is_empty s)
  | None => false
  end.

(** [d.get(k, default)] on a dict literal, kept as its list of items. *)
Fixpoint dict_get (d : list (string * string)) (k default : string) : string :=
  match d with
  | [] => default
  | (k', v) :: d' => if String.eqb k k' then v else dict_get d' k default
  end.

End PyStr.

(** ** Parties: [Company] and [Customer] *)

Record Company : Type := mkCompany {
  company_name : string;
  company_address : string;
  company_city : string;
  company_state : string;
  company_pincode : string;
  company_country : string;
  company_gstin : option string
}.

Record Customer : Type := mkCustomer {
  customer_name : string;
  customer_address : string;
  customer_city : string;
  customer_state : string;
  customer_pincode : string;
  customer_country : string;
  customer_gstin : option string
}.

(** [Company.__post_init__] *)
Definition new_company (name address city state pincode : string)
    (gstin : option string) : result Company :=
  if PyStr.is_empty name then raise (ValueError "Company name is required")
  else if PyStr.is_empty address then raise (ValueError "Company address is required")
  else ret (mkCompany name address city state pincode "India" gstin).

(** [Customer.__post_init__] *)
Definition new_customer (name address city state pincode : string)
    (gstin : option string) : result Customer :=
  if PyStr.is_empty name then raise (ValueError "Customer name is required")
  else if PyStr.is_empty address then raise (ValueError "Customer address is required")
  else ret (mkCustomer name address city state pincode "India" gstin).

(** [is_gst_registered]: [gstin is not None and len(gstin) == 15] *)
Definition gstin_registered (g : option string) : bool :=
  match g with
  | Some s => PyStr.len s =? 15
  | None => false
  end.

Definition company_is_gst_registered (c : Company) : bool :=
  gstin_registered (company_gstin c).

Definition customer_is_gst_registered (c : Customer) : bool :=
  gstin_registered (customer_gstin c).

(** ** [decimal.Decimal] under the default context

    The operations follow the reference implementation of the standard
    library ([_pydecimal.py]): a finite number is a coefficient and an
    exponent; every arithmetic result passes through [_fix], which rounds
    to [prec] significant digits (half-even) and raises [Overflow] above
    [Emax].  Slicing of the digit string becomes a division by a power of
    ten.  The sign is kept on the coefficient, so [-0] and [0] coincide
    (they compare equal in Python). *)

Module Dec.

Record Decimal : Type := mk { coef : Z; exp : Z }.

Definition prec : Z := 28.
Definition Emax : Z := 999999.
Definition Emin : Z := -999999.
Definition Etiny : Z := Emin - prec + 1.
Definition Etop : Z := Emax - prec + 1.

(** [Decimal(n)] for a Python [int] *)
Definition of_int (n : Z) : Decimal := mk n 0.

Fixpoint ndigits_aux (fuel : nat) (n : Z) : Z :=
  match fuel with
  | O => 1
  | S f => if n <? 10 then 1 else 1 + ndigits_aux f (n / 10)
  end.

(** [len(str(n))] for [n >= 0]; [len(d._int)] is [ndigits (Z.abs (coef d))]. *)
Definition ndigits (n : Z) : Z := ndigits_aux (Z.to_nat (Z.log2 n)) n.

Definition len_int (d : Decimal) : Z := ndigits (Z.abs (coef d)).

(** [d.adjusted()] *)
Definition adjusted (d : Decimal) : Z := len_int d + exp d - 1.

Definition is_zero (d : Decimal) : bool := coef d =? 0.

(** Dropping the last [k] digits of [n >= 0]: the kept digits, and whether
    the rounding function asks to round up ([changed > 0]). *)
Definition kept (n k : Z) : Z := n / 10 ^ k.
Definition dropped (n k : Z) : Z := n mod 10 ^ k.

(** [_round_half_up] *)
Definition round_half_up_changed (n k : Z) : bool :=
  10 ^ k <=? 2 * dropped n k.

(** [_round_half_even] *)
Definition round_half_even_changed (n k : Z) : bool :=
  if (2 * dropped n k =? 10 ^ k) && Z.even (kept n k) then false
  else round_half_up_changed n k.

Inductive rounding : Type := ROUND_HALF_UP | ROUND_HALF_EVEN.

Definition changed (r : rounding) (n k : Z) : bool :=
  match r with
  | ROUND_HALF_UP => round_half_up_changed n k
  | ROUND_HALF_EVEN => round_half_even_changed n k
  end.

(** [_rescale(exp, rounding)] *)
Definition _rescale (d : Decimal) (e : Z) (r : rounding) : Decimal :=
  if is_zero d then mk 0 e
  else if e <=? exp d then mk (coef d * 10 ^ (exp d - e)) e
  else
    let n := Z.abs (coef d) in
    let k := e - exp d in
    let q := if changed r n k then kept n k + 1 else kept n k in
    mk (Z.sgn (coef d) * q) e.

(** [_fix(context)] with [clamp = 0] *)
Definition _fix (d : Decimal) : result Decimal :=
  if is_zero d then
    ret (mk 0 (Z.min (Z.max (exp d) Etiny) Emax))
  else
    let exp_min := len_int d + exp d - prec in
    if Etop <? exp_min then raise Overflow
    else
      let exp_min := Z.max exp_min Etiny in
      if exp d <? exp_min then
        let n := Z.abs (coef d) in
        let k := exp_min - exp d in
        let '(q, exp_min) :=
          if round_half_even_changed n k then
            let q1 := kept n k + 1 in
            if prec <? ndigits q1 then (q1 / 10, exp_min + 1) else (q1, exp_min)
          else (kept n k, exp_min) in
        if Etop <? exp_min then raise Overflow
        else ret (mk (Z.sgn (coef d) * q) exp_min)
      else ret d.

(** [a * b] *)
Definition mul (a b : Decimal) : result Decimal :=
  _fix (mk (coef a * coef b) (exp a + exp b)).

(** [_normalize(op1, op2, prec)] on the absolute coefficients; returns the
    two operands brought to a common exponent. *)
Definition _normalize (op1 op2 : Decimal) : Decimal * Decimal :=
  let swap := exp op1 <? exp op2 in
  let tmp := if swap then op2 else op1 in
  let other := if swap then op1 else op2 in
  let tmp_len := len_int tmp in
  let other_len := len_int other in
  let e := exp tmp + Z.min (-1) (tmp_len - prec - 2) in
  let other := if other_len + exp other - 1 <? e
               then mk (Z.sgn (coef other)) e else other in
  let tmp := mk (coef tmp * 10 ^ (exp tmp - exp other)) (exp other) in
  if swap then (other, tmp) else (tmp, other).

(** [a + b] *)
Definition add (a b : Decimal) : result Decimal :=
  let e := Z.min (exp a) (exp b) in
  if is_zero a && is_zero b then _fix (mk 0 e)
  else if is_zero a then
    _fix (_rescale b (Z.max e (exp b - prec - 1)) ROUND_HALF_EVEN)
  else if is_zero b then
    _fix (_rescale a (Z.max e (exp a - prec - 1)) ROUND_HALF_EVEN)
  else
    let '(op1, op2) := _normalize a b in
    if coef op1 + coef op2 =? 0 then _fix (mk 0 e)
    else _fix (mk (coef op1 + coef op2) (exp op1)).

Definition neg (a : Decimal) : Decimal := mk (- coef a) (exp a).

(** [a - b] *)
Definition sub (a b : Decimal) : result Decimal := add a (neg b).

(** The loop of [__truediv__] that brings an exact quotient towards the
    ideal exponent. *)
Fixpoint strip_zeros (fuel : nat) (c e ideal : Z) : Z * Z :=
  match fuel with
  | O => (c, e)
  | S f =>
      if (e <? ideal) && (c mod 10 =? 0) then strip_zeros f (c / 10) (e + 1) ideal
      else (c, e)
  end.

(** [a / b] *)
Definition div (a b : Decimal) : result Decimal :=
  if is_zero b then
    if is_zero a then raise InvalidOperation else raise DivisionByZero
  else if is_zero a then _fix (mk 0 (exp a - exp b))
  else
    let shift := len_int b - len_int a + prec + 1 in
    let e := exp a - exp b - shift in
    let n1 := Z.abs (coef a) in
    let n2 := Z.abs (coef b) in
    let num := if 0 <=? shift then n1 * 10 ^ shift else n1 in
    let den := if 0 <=? shift then n2 else n2 * 10 ^ (- shift) in
    let q := num / den in
    let r := num mod den in
    let '(q, e) :=
      if r =? 0 then
        strip_zeros (Z.to_nat (exp a - exp b - e)) q e (exp a - exp b)
      else if q mod 5 =? 0 then (q + 1, e) else (q, e) in
    _fix (mk (Z.sgn (coef a) * Z.sgn (coef b) * q) e).

(** [d.quantize(Decimal(1).scaleb(e), rounding=r)]; the source only
    quantizes to [Decimal('0.01')], exponent [-2]. *)
Definition quantize (d : Decimal) (e : Z) (r : rounding) : result Decimal :=
  if negb ((Etiny <=? e) && (e <=? Emax)) then raise InvalidOperation
  else if is_zero d then _fix (mk 0 e)
  else if Emax <? adjusted d then raise InvalidOperation
  else if prec <? adjusted d - e + 1 then raise InvalidOperation
  else
    let ans := _rescale d e r in
    if Emax <? adjusted ans then raise InvalidOperation
    else if prec <? len_int ans then raise InvalidOperation
    else _fix ans.

(** Numeric comparison ([_cmp]): both sides at the smaller exponent. *)
Definition cmp (a b : Decimal) : comparison :=
  let e := Z.min (exp a) (exp b) in
  Z.compare (coef a * 10 ^ (exp a - e)) (coef b * 10 ^ (exp b - e)).

Definition eqb (a b : Decimal) : bool :=
  match cmp a b with Eq => true | _ => false end.
Definition ltb (a b : Decimal) : bool :=
  match cmp a b with Lt => true | _ => false end.
Definition leb (a b : Decimal) : bool :=
  match cmp a b with Gt => false | _ => true end.

(** [int(d)]: truncation towards zero *)
Definition to_int (d : Decimal) : Z :=
  if 0 <=? exp d then coef d * 10 ^ exp d
  else Z.quot (coef d) (10 ^ (- exp d)).

(** The rational number a decimal denotes. *)
Definition pow10 (e : Z) : Q :=
  if 0 <=? e then inject_Z (10 ^ e) else / inject_Z (10 ^ (- e)).

Definition val (d : Decimal) : Q := inject_Z (coef d) * pow10 (exp d).

End Dec.

Abbreviation Decimal := Dec.Decimal.

(** The literal [Decimal('0.01')] passed to every [quantize] of the source. *)
Definition quantize2 (d : Decimal) : result Decimal :=
  Dec.quantize d (-2) Dec.ROUND_HALF_UP.

(** Python lists: [l[i]] with the wrap-around of negative indices. *)
Definition list_index {A : Type} (l : list A) (i : Z) : result A :=
  let n := Z.of_nat (List.length l) in
  let j := if i <? 0 then i + n else i in
  if (j <? 0) || (n <=? j) then raise IndexError
  else match nth_error l (Z.to_nat j) with
       | Some a => ret a
       | None => raise IndexError
       end.

(** ** [GSTCalculator] *)

Module GSTCalculator.

Inductive GSTType : Type := CGST_SGST | IGST.

(** The dictionary returned by [calculate_gst_breakdown]. *)
Record breakdown : Type := mkBreakdown {
  taxable_amount : Decimal;
  gst_rate : Decimal;
  cgst_rate : Decimal;
  sgst_rate : Decimal;
  igst_rate : Decimal;
  cgst_amount : Decimal;
  sgst_amount : Decimal;
  igst_amount : Decimal;
  total_tax : Decimal;
  total_amount : Decimal;
  gst_type : GSTType
}.

Definition zero : Decimal := Dec.of_int 0.

Definition calculate_gst_breakdown (taxable gst_rate : Decimal)
    (is_interstate : bool) : result breakdown :=
  if Dec.ltb taxable (Dec.of_int 0) then
    raise (ValueError "Taxable amount cannot be negative")
  else if Dec.ltb gst_rate (Dec.of_int 0) || Dec.ltb (Dec.of_int 100) gst_rate then
    raise (ValueError "GST rate must be between 0 and 100")
  else if is_interstate then
    p <- Dec.mul taxable gst_rate ;;
    q <- Dec.div p (Dec.of_int 100) ;;
    igst <- quantize2 q ;;
    total <- Dec.add taxable igst ;;
    total <- quantize2 total ;;
    ret (mkBreakdown taxable gst_rate zero zero gst_rate
           zero zero igst igst total IGST)
  else
    half_rate <- Dec.div gst_rate (Dec.of_int 2) ;;
    p <- Dec.mul taxable half_rate ;;
    q <- Dec.div p (Dec.of_int 100) ;;
    cgst <- quantize2 q ;;
    p' <- Dec.mul taxable half_rate ;;
    q' <- Dec.div p' (Dec.of_int 100) ;;
    sgst <- quantize2 q' ;;
    tax <- Dec.add cgst sgst ;;
    total <- Dec.add taxable tax ;;
    total <- quantize2 total ;;
    ret (mkBreakdown taxable gst_rate half_rate half_rate zero
           cgst sgst zero tax total CGST_SGST).

(** [calculate_reverse_gst].  In [1 + (gst_rate / 100)] the left operand is
    an [int]: the sum is the decimal's [__radd__], which is its [__add__]
    applied to [Decimal(1)]. *)
Definition calculate_reverse_gst (total_amount gst_rate : Decimal)
    (is_interstate : bool) : result breakdown :=
  if Dec.ltb total_amount (Dec.of_int 0) then
    raise (ValueError "Total amount cannot be negative")
  else
    r <- Dec.div gst_rate (Dec.of_int 100) ;;
    divisor <- Dec.add r (Dec.of_int 1) ;;
    q <- Dec.div total_amount divisor ;;
    taxable <- quantize2 q ;;
    calculate_gst_breakdown taxable gst_rate is_interstate.


(** [STANDARD_GST_RATES] and [GST_SLABS] *)
Definition STANDARD_GST_RATES : list Z := [0; 3; 5; 12; 18; 28].

Definition GST_SLABS : list (Z * string) :=
  [ (0, "Exempt/Zero rated");
    (3, "Gold, silver, cut and polished diamonds");
    (5, "Essential items (sugar, tea, coffee, etc.)");
    (12, "Computers, processed food, etc.");
    (18, "Most goods and services");
    (28, "Luxury items, automobiles, etc.") ].

(** [x in l] on a list of numbers *)
Definition mem (x : Z) (l : list Z) : bool := existsb (Z.eqb x) l.

(** [validate_gst_rate], [get_gst_slab_info] and [suggest_nearest_gst_rate]
    are modelled on integral rates: the comparisons, the subtraction and the
    absolute value are then exact. *)
Definition validate_gst_rate (gst_rate : Z) : bool :=
  mem gst_rate STANDARD_GST_RATES || ((0 <=? gst_rate) && (gst_rate <=? 100)).

(** [d.get(k)] on a dict with numbers as keys *)
Fixpoint slab_get (d : list (Z * string)) (k : Z) : option string :=
  match d with
  | [] => None
  | (k', v) :: d' => if k =? k' then Some v else slab_get d' k
  end.

Definition get_gst_slab_info (gst_rate : Z) : option string :=
  slab_get GST_SLABS gst_rate.

(** [min(l, key=key)]: the first element whose key is the least; on an
    empty list [min] raises ValueError. *)
Definition min_by (key : Z -> Z) (l : list Z) : result Z :=
  match l with
  | [] => raise (ValueError "min() arg is an empty sequence")
  | x :: l' =>
      ret (fold_left (fun best y => if key y <? key best then y else best) l' x)
  end.

Definition suggest_nearest_gst_rate (rate : Z) : result Z :=
  if mem rate STANDARD_GST_RATES then ret rate
  else min_by (fun x => Z.abs (x - rate)) STANDARD_GST_RATES.

(** The dictionary returned by [calculate_discount_with_gst]: the breakdown
    and the four entries that [update] adds. *)
Record discounted : Type := mkDiscounted {
  gst_breakdown : breakdown;
  base_amount : Decimal;
  discount_percentage : Decimal;
  discount_amount : Decimal;
  amount_after_discount : Decimal
}.

Definition calculate_discount_with_gst
    (base_amount discount_percentage gst_rate : Decimal) (is_interstate : bool)
    : result discounted :=
  p <- Dec.mul base_amount discount_percentage ;;
  q <- Dec.div p (Dec.of_int 100) ;;
  discount_amount <- quantize2 q ;;
  taxable_amount <- Dec.sub base_amount discount_amount ;;
  gst_breakdown <- calculate_gst_breakdown taxable_amount gst_rate is_interstate ;;
  ret (mkDiscounted gst_breakdown base_amount discount_percentage
         discount_amount taxable_amount).

(** The dict literal [state_codes] of [get_state_from_gstin]. *)
Definition state_codes : list (string * string) :=
  [ ("01", "Jammu and Kashmir"); ("02", "Himachal Pradesh"); ("03", "Punjab");
    ("04", "Chandigarh"); ("05", "Uttarakhand"); ("06", "Haryana");
    ("07", "Delhi"); ("08", "Rajasthan"); ("09", "Uttar Pradesh");
    ("10", "Bihar"); ("11", "Sikkim"); ("12", "Arunachal Pradesh");
    ("13", "Nagaland"); ("14", "Manipur"); ("15", "Mizoram");
    ("16", "Tripura"); ("17", "Meghalaya"); ("18", "Assam");
    ("19", "West Bengal"); ("20", "Jharkhand"); ("21", "Odisha");
    ("22", "Chhattisgarh"); ("23", "Madhya Pradesh"); ("24", "Gujarat");
    ("25", "Daman and Diu"); ("26", "Dadra and Nagar Haveli");
    ("27", "Maharashtra"); ("28", "Andhra Pradesh"); ("29", "Karnataka");
    ("30", "Goa"); ("31", "Lakshadweep"); ("32", "Kerala");
    ("33", "Tamil Nadu"); ("34", "Puducherry");
    ("35", "Andaman and Nicobar Islands");
    ("36", "Telangana"); ("37", "Andhra Pradesh") ].

(** [d.get(k)] on a dict with strings as keys *)
Fixpoint dict_find (d : list (string * string)) (k : string) : option string :=
  match d with
  | [] => None
  | (k', v) :: d' => if String.eqb k k' then Some v else dict_find d' k
  end.

Definition get_state_from_gstin (gstin : string) : option string :=
  if PyStr.is_empty gstin || (PyStr.len gstin <? 2) then None
  else dict_find state_codes (PyStr.slice_to 2 gstin).

End GSTCalculator.

(** ** [InvoiceItem] *)

Record InvoiceItem : Type := mkItem {
  description : string;
  hsn_code : string;
  quantity : Decimal;
  unit_price : Decimal;
  unit : string;
  gst_rate : Decimal;
  discount_percentage : Decimal;
  discount_amount : Decimal
}.

Module Item.

(** The dataclass constructor followed by [__post_init__]. *)
Definition new (description hsn_code : string) (quantity unit_price : Decimal)
    (unit : string) (gst_rate discount_percentage discount_amount : Decimal)
    : result InvoiceItem :=
  if Dec.leb quantity (Dec.of_int 0) then
    raise (ValueError "Quantity must be greater than 0")
  else if Dec.ltb unit_price (Dec.of_int 0) then
    raise (ValueError "Unit price cannot be negative")
  else if Dec.ltb gst_rate (Dec.of_int 0) || Dec.ltb (Dec.of_int 100) gst_rate then
    raise (ValueError "GST rate must be between 0 and 100")
  else ret (mkItem description hsn_code quantity unit_price unit gst_rate
              discount_percentage discount_amount).

Definition gross_amount (it : InvoiceItem) : result Decimal :=
  p <- Dec.mul (quantity it) (unit_price it) ;;
  quantize2 p.

Definition total_discount (it : InvoiceItem) : result Decimal :=
  g <- gross_amount it ;;
  p <- Dec.mul g (discount_percentage it) ;;
  q <- Dec.div p (Dec.of_int 100) ;;
  percentage_discount <- quantize2 q ;;
  s <- Dec.add percentage_discount (discount_amount it) ;;
  quantize2 s.

Definition taxable_amount (it : InvoiceItem) : result Decimal :=
  g <- gross_amount it ;;
  d <- total_discount it ;;
  s <- Dec.sub g d ;;
  quantize2 s.

Definition cgst_amount (it : InvoiceItem) : result Decimal :=
  cgst_rate <- Dec.div (gst_rate it) (Dec.of_int 2) ;;
  t <- taxable_amount it ;;
  p <- Dec.mul t cgst_rate ;;
  q <- Dec.div p (Dec.of_int 100) ;;
  quantize2 q.

Definition sgst_amount (it : InvoiceItem) : result Decimal :=
  sgst_rate <- Dec.div (gst_rate it) (Dec.of_int 2) ;;
  t <- taxable_amount it ;;
  p <- Dec.mul t sgst_rate ;;
  q <- Dec.div p (Dec.of_int 100) ;;
  quantize2 q.

Definition igst_amount (it : InvoiceItem) : result Decimal :=
  t <- taxable_amount it ;;
  p <- Dec.mul t (gst_rate it) ;;
  q <- Dec.div p (Dec.of_int 100) ;;
  quantize2 q.

Definition total_tax_amount (it : InvoiceItem) : result Decimal :=
  c <- cgst_amount it ;;
  s <- sgst_amount it ;;
  x <- Dec.add c s ;;
  quantize2 x.

Definition total_amount (it : InvoiceItem) : result Decimal :=
  t <- taxable_amount it ;;
  x <- total_tax_amount it ;;
  s <- Dec.add t x ;;
  quantize2 s.

End Item.

(** ** [Invoice] *)

Record Invoice : Type := mkInvoice {
  company : Company;
  customer : Customer;
  items : list InvoiceItem;
  invoice_number : string;
  place_of_supply : string;
  reverse_charge : bool;
  notes : string;
  terms_and_conditions : string
}.

(** What [sum(...)] and the totals built from it can be: the [int] that
    [sum] starts from, or a [Decimal]. *)
Inductive num : Type :=
| NInt (n : Z)
| NDec (d : Decimal).

Module Inv.

Definition state_mapping : list (string * string) :=
  [ ("ODISHA", "ODISHA");
    ("ORISSA", "ODISHA");
    ("WEST BENGAL", "WESTBENGAL");
    ("WESTBENGAL", "WESTBENGAL");
    ("TAMIL NADU", "TAMILNADU");
    ("TAMILNADU", "TAMILNADU");
    ("UTTAR PRADESH", "UTTARPRADESH");
    ("UTTARPRADESH", "UTTARPRADESH");
    ("MADHYA PRADESH", "MADHYAPRADESH");
    ("MADHYAPRADESH", "MADHYAPRADESH");
    ("HIMACHAL PRADESH", "HIMACHALPRADESH");
    ("HIMACHALPRADESH", "HIMACHALPRADESH");
    ("ANDHRA PRADESH", "ANDHRAPRADESH");
    ("ANDHRAPRADESH", "ANDHRAPRADESH");
    ("JAMMU AND KASHMIR", "JAMMUKASHMIR");
    ("JAMMUKASHMIR", "JAMMUKASHMIR");
    ("J&K", "JAMMUKASHMIR") ].

(** [state.strip().upper()] passed through [state_mapping.get(s, s)] *)
Definition normalize_state (state : string) : string :=
  let s := PyStr.upper (PyStr.strip state) in
  PyStr.dict_get state_mapping s s.

Definition unwrap (o : option string) : string :=
  match o with Some s => s | None => "" end.

Definition is_interstate (inv : Invoice) : bool :=
  if PyStr.truthy (company_gstin (company inv))
     && PyStr.truthy (customer_gstin (customer inv)) then
    let company_state_code := PyStr.slice_to 2 (unwrap (company_gstin (company inv))) in
    let customer_state_code := PyStr.slice_to 2 (unwrap (customer_gstin (customer inv))) in
    negb (String.eqb company_state_code customer_state_code)
  else
    negb (String.eqb (normalize_state (company_state (company inv)))
                     (normalize_state (customer_state (customer inv)))).

(** [a + b] where either side may still be the [int] that [sum] starts
    from. *)
Definition num_add (a b : num) : result num :=
  match a, b with
  | NInt x, NInt y => ret (NInt (x + y))
  | NInt x, NDec d => r <- Dec.add d (Dec.of_int x) ;; ret (NDec r)
  | NDec d, NInt y => r <- Dec.add d (Dec.of_int y) ;; ret (NDec r)
  | NDec d, NDec d' => r <- Dec.add d d' ;; ret (NDec r)
  end.

(** [sum(f(item) for item in items)] continued from the accumulator. *)
Fixpoint sum_from (acc : num) (f : InvoiceItem -> result Decimal)
    (l : list InvoiceItem) : result num :=
  match l with
  | [] => ret acc
  | it :: l' =>
      v <- f it ;;
      acc' <- num_add acc (NDec v) ;;
      sum_from acc' f l'
  end.

Definition sum (f : InvoiceItem -> result Decimal) (l : list InvoiceItem)
    : result num := sum_from (NInt 0) f l.

Definition total_gross_amount (inv : Invoice) : result num :=
  sum Item.gross_amount (items inv).

Definition total_discount_amount (inv : Invoice) : result num :=
  sum Item.total_discount (items inv).

Definition total_taxable_amount (inv : Invoice) : result num :=
  sum Item.taxable_amount (items inv).

Definition total_cgst_amount (inv : Invoice) : result num :=
  if is_interstate inv then ret (NDec (Dec.of_int 0))
  else sum Item.cgst_amount (items inv).

Definition total_sgst_amount (inv : Invoice) : result num :=
  if is_interstate inv then ret (NDec (Dec.of_int 0))
  else sum Item.sgst_amount (items inv).

Definition total_igst_amount (inv : Invoice) : result num :=
  if negb (is_interstate inv) then ret (NDec (Dec.of_int 0))
  else sum Item.igst_amount (items inv).

Definition total_tax_amount (inv : Invoice) : result num :=
  if is_interstate inv then total_igst_amount inv
  else
    c <- total_cgst_amount inv ;;
    s <- total_sgst_amount inv ;;
    num_add c s.

(** [.quantize] exists on a [Decimal] only: on the [int] that an empty
    [sum] returns the attribute lookup fails. *)
Definition total_invoice_amount (inv : Invoice) : result Decimal :=
  t <- total_taxable_amount inv ;;
  x <- total_tax_amount inv ;;
  s <- num_add t x ;;
  match s with
  | NInt _ => raise AttributeError
  | NDec d => quantize2 d
  end.

Definition ones : list string :=
  [""; "One"; "Two"; "Three"; "Four"; "Five"; "Six"; "Seven"; "Eight"; "Nine"].
Definition teens : list string :=
  ["Ten"; "Eleven"; "Twelve"; "Thirteen"; "Fourteen"; "Fifteen"; "Sixteen";
   "Seventeen"; "Eighteen"; "Nineteen"].
Definition tens : list string :=
  [""; ""; "Twenty"; "Thirty"; "Forty"; "Fifty"; "Sixty"; "Seventy"; "Eighty";
   "Ninety"].

(** [convert_hundreds]: the local function of [_amount_to_words], with
    its two mutable locals [result] and [num] threaded through. *)
Definition convert_hundreds (num : Z) : result string :=
  st <- (if 100 <=? num then
           w <- list_index ones (num / 100) ;;
           ret ("" ++ w ++ " Hundred ", num mod 100)
         else ret ("", num)) ;;
  let '(text, num) := st in
  if 20 <=? num then
    w <- list_index tens (num / 10) ;;
    let text := text ++ w ++ " " in
    let num := num mod 10 in
    if 0 <? num then
      w' <- list_index ones num ;;
      ret (text ++ w' ++ " ")
    else ret text
  else if 10 <=? num then
    w <- list_index teens (num - 10) ;;
    ret (text ++ w ++ " ")
  else if 0 <? num then
    w <- list_index ones num ;;
    ret (text ++ w ++ " ")
  else ret text.

(** One [if rupees >= unit:] block of [_amount_to_words]; returns the
    extended text and the remaining rupees. *)
Definition group (unit : Z) (name : string) (st : string * Z)
    : result (string * Z) :=
  let '(text, rupees) := st in
  if unit <=? rupees then
    w <- convert_hundreds (rupees / unit) ;;
    ret (text ++ w ++ name, rupees mod unit)
  else ret st.

Definition _amount_to_words (amount : Decimal) : result string :=
  if Dec.eqb amount (Dec.of_int 0) then ret "Zero Rupees Only"
  else
    let rupees := Dec.to_int amount in
    frac <- Dec.sub amount (Dec.of_int rupees) ;;
    scaled <- Dec.mul frac (Dec.of_int 100) ;;
    let paise := Dec.to_int scaled in
    st <- group 10000000 "Crore " ("", rupees) ;;
    st <- group 100000 "Lakh " st ;;
    st <- group 1000 "Thousand " st ;;
    let '(text, rupees) := st in
    text <- (if 0 <? rupees then
               w <- convert_hundreds rupees ;; ret (text ++ w)
             else ret text) ;;
    let text := text ++ "Rupees" in
    text <- (if 0 <? paise then
               w <- convert_hundreds paise ;; ret (text ++ " and " ++ w ++ "Paise")
             else ret text) ;;
    ret (PyStr.strip text ++ " Only").

Definition total_amount_in_words (inv : Invoice) : result string :=
  a <- total_invoice_amount inv ;;
  _amount_to_words a.

(** The invoice with another list of items: [add_item] and [remove_item]
    change [self.items] in place. *)
Definition set_items (inv : Invoice) (l : list InvoiceItem) : Invoice :=
  mkInvoice (company inv) (customer inv) l (invoice_number inv)
    (place_of_supply inv) (reverse_charge inv) (notes inv)
    (terms_and_conditions inv).

(** [add_item]: [self.items.append(item)] *)
Definition add_item (inv : Invoice) (item : InvoiceItem) : Invoice :=
  set_items inv (items inv ++ [item]).

(** [del l[i]] for an index within the list *)
Fixpoint del_at (i : nat) (l : list InvoiceItem) : list InvoiceItem :=
  match l, i with
  | [], _ => []
  | _ :: l', O => l'
  | x :: l', S i' => x :: del_at i' l'
  end.

(** [remove_item]: the index is tested before the deletion. *)
Definition remove_item (inv : Invoice) (index : Z) : Invoice :=
  if (0 <=? index) && (index <? Z.of_nat (List.length (items inv))) then
    set_items inv (del_at (Z.to_nat index) (items inv))
  else inv.

End Inv.

(** ** [HSNValidator] *)

Module HSNValidator.

Record entry : Type := mkEntry {
  code : string;
  info_description : string;
  typical_gst : Z;
  keywords : list string
}.

(** [HSN_DATABASE] in the iteration order of the dict literal.  The key
    "0713" is written twice: it keeps the position of its first
    occurrence and the value of its second. *)
Definition HSN_DATABASE : list entry :=
  [ mkEntry "1001" "Wheat and meslin" 0 ["wheat"; "meslin"; "grain"];
    mkEntry "1006" "Rice" 5 ["rice"; "basmati"; "paddy"];
    mkEntry "1701" "Cane or beet sugar" 5 ["sugar"; "cane"; "beet"; "sweetener"];
    mkEntry "1704" "Sugar confectionery" 18 ["candy"; "chocolate"; "confectionery"; "sweet"];
    mkEntry "0713" "Dried leguminous vegetables" 0 ["pulse"; "dal"; "lentil"; "chickpea"; "gram"];
    mkEntry "0901" "Coffee" 5 ["coffee"; "beans"; "instant coffee"];
    mkEntry "0902" "Tea" 5 ["tea"; "chai"; "green tea"; "black tea"];
    mkEntry "5208" "Woven fabrics of cotton" 5 ["cotton"; "fabric"; "cloth"; "textile"];
    mkEntry "6109" "T-shirts, singlets and other vests" 12
      ["tshirt"; "t-shirt"; "shirt"; "vest"; "singlet"; "top"; "blouse"];
    mkEntry "6203" "Men's or boys' suits, ensembles" 12
      ["suit"; "blazer"; "jacket"; "trouser"; "pant"; "formal wear"];
    mkEntry "6204" "Women's or girls' suits, ensembles" 12
      ["dress"; "skirt"; "kurti"; "saree"; "ladies wear"; "women wear"];
    mkEntry "6115" "Pantyhose, tights, stockings, socks" 12
      ["socks"; "stocking"; "pantyhose"; "hosiery"];
    mkEntry "6402" "Footwear with outer soles" 18
      ["shoes"; "sandal"; "footwear"; "boot"; "slipper"; "chappal"];
    mkEntry "8471" "Automatic data processing machines" 18
      ["computer"; "laptop"; "desktop"; "pc"; "processor"; "cpu"];
    mkEntry "8517" "Telephone sets, mobile phones" 18
      ["mobile"; "phone"; "smartphone"; "telephone"; "cell phone"];
    mkEntry "8528" "Monitors and projectors" 18
      ["monitor"; "screen"; "display"; "projector"; "tv"; "television"];
    mkEntry "8504" "Electrical transformers" 18
      ["transformer"; "electrical"; "power supply"; "adapter"];
    mkEntry "8519" "Sound recording apparatus" 18
      ["speaker"; "audio"; "sound"; "music system"; "headphone"];
    mkEntry "8473" "Parts of machines of heading 8471" 18
      ["keyboard"; "mouse"; "computer parts"; "accessories"];
    mkEntry "8703" "Motor cars and other motor vehicles" 28
      ["car"; "automobile"; "vehicle"; "sedan"; "hatchback"];
    mkEntry "8711" "Motorcycles" 28 ["motorcycle"; "bike"; "scooter"; "two wheeler"];
    mkEntry "8708" "Parts and accessories of motor vehicles" 28
      ["auto parts"; "spare parts"; "car parts"; "vehicle parts"];
    mkEntry "2915" "Saturated acyclic monocarboxylic acids" 18
      ["chemical"; "acid"; "industrial chemical"];
    mkEntry "3004" "Medicaments" 12
      ["medicine"; "drug"; "pharmaceutical"; "tablet"; "capsule"; "syrup"];
    mkEntry "3307" "Perfumes and cosmetics" 18
      ["perfume"; "cosmetic"; "makeup"; "beauty"; "cream"; "lotion"];
    mkEntry "3401" "Soap; organic surface-active products" 18
      ["soap"; "detergent"; "shampoo"; "cleaning"];
    mkEntry "9401" "Seats" 18 ["chair"; "seat"; "sofa"; "bench"; "stool"];
    mkEntry "9403" "Other furniture" 18
      ["furniture"; "table"; "desk"; "cabinet"; "wardrobe"; "bed"];
    mkEntry "7013" "Glassware" 18 ["glass"; "glassware"; "tumbler"; "bottle"; "jar"];
    mkEntry "6912" "Ceramic tableware" 18 ["ceramic"; "plate"; "cup"; "bowl"; "pottery"];
    mkEntry "4901" "Printed books, brochures" 5
      ["book"; "novel"; "textbook"; "magazine"; "publication"];
    mkEntry "4802" "Uncoated paper" 12 ["paper"; "sheet"; "notebook"; "copy"];
    mkEntry "9608" "Ball point pens" 18 ["pen"; "pencil"; "marker"; "stationery"];
    mkEntry "998341" "Information technology software services" 18
      ["software"; "development"; "programming"; "app"; "website"];
    mkEntry "998342" "Information technology consulting services" 18
      ["consulting"; "it service"; "technical"; "support"];
    mkEntry "998343" "Information technology support services" 18
      ["support"; "maintenance"; "repair"; "troubleshooting"];
    mkEntry "997213" "Legal services" 18 ["legal"; "lawyer"; "attorney"; "court"; "law"];
    mkEntry "997212" "Accounting and auditing services" 18
      ["accounting"; "audit"; "tax"; "financial"; "bookkeeping"];
    mkEntry "996511" "Transportation of goods by road" 5
      ["transport"; "delivery"; "shipping"; "logistics"; "courier"];
    mkEntry "997311" "Architectural services" 18
      ["architecture"; "design"; "planning"; "construction design"];
    mkEntry "998313" "Market research and public opinion polling" 18
      ["research"; "survey"; "marketing"; "analysis"];
    mkEntry "7113" "Articles of jewelry" 3
      ["jewelry"; "gold"; "silver"; "ornament"; "jewellery"];
    mkEntry "7108" "Gold" 3 ["gold"; "precious metal"];
    mkEntry "9503" "Toys" 18 ["toy"; "game"; "doll"; "puzzle"; "plaything"];
    mkEntry "1207" "Oil seeds" 5 ["seeds"; "oil seeds"; "mustard"; "sesame"];
    mkEntry "9999" "General/Other items" 18 ["other"; "general"; "miscellaneous"] ].

(** The body of [for keyword in keywords:] in [auto_suggest_hsn]: the
    amount added to [score] for one keyword. *)
Definition keyword_score (description_lower keyword : string) : Z :=
  if PyStr.contains keyword description_lower then
    (if String.eqb keyword description_lower then 10
     else if PyStr.contains keyword description_lower then 5
     else 0)
    + (if PyStr.contains (" " ++ keyword ++ " ") (" " ++ description_lower ++ " ")
       then 3 else 0)
    + (if PyStr.startswith description_lower keyword then 2 else 0)
  else 0.

Definition score (description_lower : string) (e : entry) : Z :=
  fold_left (fun acc k => acc + keyword_score description_lower k) (keywords e) 0.

(** An element of [suggestions]. *)
Record suggestion : Type := mkSuggestion {
  s_hsn_code : string;
  s_description : string;
  s_typical_gst : Z;
  s_score : Z
}.

Fixpoint collect (description_lower : string) (db : list entry) : list suggestion :=
  match db with
  | [] => []
  | e :: db' =>
      let sc := score description_lower e in
      if 0 <? sc then
        mkSuggestion (code e) (info_description e) (typical_gst e) sc
          :: collect description_lower db'
      else collect description_lower db'
  end.

(** [suggestions.sort(key=lambda x: x['score'], reverse=True)]: a stable
    sort, elements of equal score keep their order. *)
Fixpoint insert_desc (x : suggestion) (l : list suggestion) : list suggestion :=
  match l with
  | [] => [x]
  | y :: l' => if s_score y <=? s_score x then x :: l else y :: insert_desc x l'
  end.

Definition sort_desc (l : list suggestion) : list suggestion :=
  fold_right insert_desc [] l.

(** The dictionary returned by [auto_suggest_hsn]. *)
Record best : Type := mkBest {
  b_hsn_code : string;
  b_description : string;
  b_typical_gst : Z;
  b_confidence : Z
}.

Definition auto_suggest_hsn_in (db : list entry) (item_description : string)
    : option best :=
  if PyStr.is_empty item_description then None
  else
    let description_lower := PyStr.strip (PyStr.lower item_description) in
    match sort_desc (collect description_lower db) with
    | best_match :: _ =>
        Some (mkBest (s_hsn_code best_match) (s_description best_match)
                (s_typical_gst best_match) (Z.min (s_score best_match * 10) 100))
    | [] => None
    end.


(** [re.sub(r'[^0-9]', '', s)] *)
Fixpoint digits_only (s : string) : string :=
  match s with
  | EmptyString => EmptyString
  | String c s' =>
      if PyStr.is_digit c then String c (digits_only s') else digits_only s'
  end.

(** [validate_hsn_format] *)
Definition validate_hsn_format (hsn_code : string) : bool :=
  if PyStr.is_empty hsn_code then false
  else
    let clean_code := digits_only hsn_code in
    existsb (Z.eqb (PyStr.len clean_code)) [4; 6; 8] && PyStr.isdigit clean_code.

(** A value of [HSN_DATABASE]. *)
Record info : Type := mkInfo {
  i_description : string;
  i_typical_gst : Z;
  i_keywords : list string
}.

Definition info_of (e : entry) : info :=
  mkInfo (info_description e) (typical_gst e) (keywords e).

(** [db[k]] guarded by [k in db] *)
Fixpoint lookup (db : list entry) (k : string) : option entry :=
  match db with
  | [] => None
  | e :: db' => if String.eqb k (code e) then Some e else lookup db' k
  end.

(** [get_hsn_info] *)
Definition get_hsn_info_in (db : list entry) (hsn_code : string) : option info :=
  let clean_code := digits_only hsn_code in
  if negb (validate_hsn_format clean_code) then None
  else
    match lookup db clean_code with
    | Some e => Some (info_of e)
    | None =>
        if 4 <? PyStr.len clean_code then
          match lookup db (PyStr.slice_to 4 clean_code) with
          | Some e =>
              Some (mkInfo (info_description e ++ " (sub-category)")
                      (typical_gst e) (keywords e))
          | None => None
          end
        else None
    end.

Definition get_hsn_info : string -> option info := get_hsn_info_in HSN_DATABASE.

(** [suggest_gst_rate] *)
Definition suggest_gst_rate (hsn_code : string) : option Z :=
  match get_hsn_info hsn_code with
  | Some i => Some (i_typical_gst i)
  | None => None
  end.




(** The body of [for keyword in keywords:] in [get_multiple_suggestions]. *)
Definition multi_keyword_score (description_lower keyword : string) : Z :=
  if PyStr.contains keyword description_lower then
    (if String.eqb keyword description_lower then 10 else 3)
    + (if PyStr.contains (" " ++ keyword ++ " ") (" " ++ description_lower ++ " ")
       then 2 else 0)
    + (if PyStr.startswith description_lower keyword then 1 else 0)
  else 0.

Definition multi_score (description_lower : string) (e : entry) : Z :=
  fold_left (fun acc k => acc + multi_keyword_score description_lower k)
    (keywords e) 0.

(** An element of the list that [get_multiple_suggestions] returns. *)
Record multi : Type := mkMulti {
  m_hsn_code : string;
  m_description : string;
  m_typical_gst : Z;
  m_confidence : Z;
  m_match_keywords : list string
}.

Fixpoint multi_collect (description_lower : string) (db : list entry) : list multi :=
  match db with
  | [] => []
  | e :: db' =>
      let sc := multi_score description_lower e in
      if 0 <? sc then
        mkMulti (code e) (info_description e) (typical_gst e)
          (Z.min (sc * 8) 100)
          (filter (fun kw => PyStr.contains kw description_lower) (keywords e))
          :: multi_collect description_lower db'
      else multi_collect description_lower db'
  end.

(** [suggestions.sort(key=lambda x: x['confidence'], reverse=True)] *)
Fixpoint multi_insert (x : multi) (l : list multi) : list multi :=
  match l with
  | [] => [x]
  | y :: l' =>
      if m_confidence y <=? m_confidence x then x :: l else y :: multi_insert x l'
  end.

Definition multi_sort (l : list multi) : list multi :=
  fold_right multi_insert [] l.

(** [l[:limit]]: a negative limit counts from the end. *)
Definition slice_limit {A : Type} (limit : Z) (l : list A) : list A :=
  if 0 <=? limit then firstn (Z.to_nat limit) l
  else firstn (Z.to_nat (Z.of_nat (List.length l) + limit)) l.

Definition get_multiple_suggestions_in (db : list entry)
    (item_description : string) (limit : Z) : list multi :=
  if PyStr.is_empty item_description then []
  else
    let description_lower := PyStr.strip (PyStr.lower item_description) in
    slice_limit limit (multi_sort (multi_collect description_lower db)).

Definition get_multiple_suggestions : string -> Z -> list multi :=
  get_multiple_suggestions_in HSN_DATABASE.

(** [is_service_code] *)
Definition is_service_code (hsn_code : string) : bool :=
  let clean_code := digits_only hsn_code in
  (PyStr.len clean_code =? 6) && PyStr.startswith clean_code "99".

End HSNValidator.

(** ** The classification as the specification words it

    "If both seller and buyer have a valid-length (15-character) ID, compare
    the first two characters; otherwise compare the normalized states."
    This is the reading that [Inv.is_interstate] is compared with. *)

Definition is_interstate_spec (inv : Invoice) : bool :=
  if company_is_gst_registered (company inv)
     && customer_is_gst_registered (customer inv) then
    negb (String.eqb
            (PyStr.slice_to 2 (Inv.unwrap (company_gstin (company inv))))
            (PyStr.slice_to 2 (Inv.unwrap (customer_gstin (customer inv)))))
  else
    negb (String.eqb (Inv.normalize_state (company_state (company inv)))
                     (Inv.normalize_state (customer_state (customer inv)))).

(** Both parties carry a non-empty ID: the test of [is_interstate]. *)
Definition both_have_gstin (inv : Invoice) : bool :=
  PyStr.truthy (company_gstin (company inv))
  && PyStr.truthy (customer_gstin (customer inv)).



(** ** The line item of the specification's example scenario *)

Definition laptop_item (description hsn_code unit : string) : InvoiceItem :=
  mkItem description hsn_code (Dec.of_int 1) (Dec.of_int 65000) unit
    (Dec.of_int 18) (Dec.of_int 5) (Dec.of_int 0).

(** A two-decimal amount given in hundredths. *)
Definition cents (n : Z) : Decimal := Dec.mk n (-2).

(** ** The shape of a tax ID in the words of the specification

    Fifteen characters; positions 0-1 digits forming a number in [01,37];
    positions 2-11 five letters, four digits, one letter; position 12 and
    position 13 alphanumeric; position 14 the letter Z. *)

Module GstinSpec.

Definition char_ok (p : ascii -> bool) (i : nat) (s : string) : bool :=
  match String.get i s with
  | Some c => p c
  | None => false
  end.

Definition digit_at (i : nat) (s : string) : Z :=
  match String.get i s with
  | Some c => PyStr.code c - 48
  | None => 0
  end.



Definition state_code_ok (s : string) : bool :=
  char_ok PyStr.is_digit 0 s && char_ok PyStr.is_digit 1 s
  && (1 <=? 10 * digit_at 0 s + digit_at 1 s)
  && (10 * digit_at 0 s + digit_at 1 s <=? 37).





End GstinSpec.

(** ** The scoring of the best-match suggestion in the words of the
    specification

    For a keyword [k] and the lower-cased, trimmed description [d]: 10 if
    [k] equals [d], else 5 if [k] is a substring of [d]; plus 3 if [k] occurs
    as a whole word of [d] padded with boundary spaces; plus 2 if [d] starts
    with [k].  The score of a code is the sum over its keywords. *)

Module HsnSpec.



End HsnSpec.



(** ** Vocabulary for the statements about amounts *)

(** Exponents between [Etiny] and [Etop] and coefficients of at most 28
    digits are left alone by the context. *)
Definition in_context (c e : Z) : Prop :=
  Z.abs c < 10 ^ 28 /\ Dec.Etiny <= e <= Dec.Etop.

(** Rounding a rational number of rupees to hundredths, half away from zero
    (ROUND_HALF_UP): the number of hundredths. *)
Definition half_up_cents (x : Q) : Z :=
  if Qle_bool 0 x then Qfloor (x * 100 + (1 # 2))%Q
  else - Qfloor (- x * 100 + (1 # 2))%Q.

(** [round2 x]: [x] rounded to two decimals, as a rational number. *)
Definition round2 (x : Q) : Q := (inject_Z (half_up_cents x) / 100)%Q.

(** Amounts and rates on which the decimal context leaves the tax
    arithmetic exact: amounts below 10^20 with at most six decimals, rates
    with at most six decimals. *)
Definition amount_ok (t : Decimal) : Prop :=
  0 <= Dec.coef t < 10 ^ 18 /\ -6 <= Dec.exp t <= 2.

Definition rate_ok (r : Decimal) : Prop :=
  0 <= Dec.coef r < 10 ^ 9 /\ -6 <= Dec.exp r <= 2.

(** The rate lies in [0, 100]: the test of [calculate_gst_breakdown] and of
    the constructor of [InvoiceItem]. *)
Definition rate_in_range (r : Decimal) : bool :=
  negb (Dec.ltb r (Dec.of_int 0) || Dec.ltb (Dec.of_int 100) r).

(** The exceptions that the decimal module itself raises. *)
Definition arith_error (e : exn) : Prop :=
  e = InvalidOperation \/ e = DivisionByZero \/ e = Overflow.

(** The decimal with two places nearest to the rational [x], ties away from
    zero: what the specification writes [round2(x)]. *)
Definition rounded2 (x : Q) : Decimal := cents (half_up_cents x).

(** An amount that the decimal context cannot split: 10^27. *)
Definition huge_amount : Decimal := Dec.mk 1 27.

(** One entry of the dictionary that a breakdown call returns. *)
Definition breakdown_field (f : GSTCalculator.breakdown -> Decimal)
    (res : result GSTCalculator.breakdown) : result Decimal :=
  b <- res ;; ret (f b).

(** The exact sum and difference of two two-decimal amounts: defined when
    the result has at most the 28 digits of the context. *)
Definition exact_sum (a b : Decimal) : result Decimal :=
  if Z.abs (Dec.coef a + Dec.coef b) <? 10 ^ 28
  then inr (cents (Dec.coef a + Dec.coef b))
  else inl InvalidOperation.

Definition exact_diff (a b : Decimal) : result Decimal :=
  if Z.abs (Dec.coef a - Dec.coef b) <? 10 ^ 28
  then inr (cents (Dec.coef a - Dec.coef b))
  else inl InvalidOperation.

(** A line item whose fixed discount (150) exceeds its gross amount (100). *)
Definition over_discounted_item : InvoiceItem :=
  mkItem "Widget" "8471" (Dec.of_int 1) (Dec.of_int 100) "Nos" (Dec.of_int 18)
    (Dec.of_int 0) (Dec.of_int 150).

(** An interstate invoice with one line: one pen at 1.00 and 1 percent. *)
Definition pen_item : InvoiceItem :=
  mkItem "Pen" "9608" (Dec.of_int 1) (Dec.of_int 1) "Nos" (Dec.of_int 1)
    (Dec.of_int 0) (Dec.of_int 0).

Definition pen_invoice : Invoice :=
  mkInvoice
    (mkCompany "Seller" "1 Main Road" "Pune" "Maharashtra" "411001" "India"
       (Some "27AABCS1234C1ZS"))
    (mkCustomer "Buyer" "2 Side Road" "Delhi" "Delhi" "110001" "India"
       (Some "07AABCC1234D1ZF"))
    [pen_item] "INV-2" "Delhi" false "" "".

(** ** The amount in words as the specification describes it

    The words of the rupee part in Indian numbering: the last three digits
    (hundreds, then tens and ones or a teen), before them two digits of
    thousands, two digits of lakhs, and the crores; then "Rupees"; for a
    non-zero paise part "and", its words and "Paise"; then "Only".  The words
    are joined by single spaces. *)

Module WordsSpec.

Definition ones_word (n : Z) : string := nth (Z.to_nat n) Inv.ones "".
Definition teens_word (n : Z) : string := nth (Z.to_nat n) Inv.teens "".
Definition tens_word (n : Z) : string := nth (Z.to_nat n) Inv.tens "".

Definition below_hundred (n : Z) : list string :=
  if 20 <=? n then
    tens_word (n / 10) :: (if 0 <? n mod 10 then [ones_word (n mod 10)] else [])
  else if 10 <=? n then [teens_word (n - 10)]
  else if 0 <? n then [ones_word n]
  else [].

Definition below_thousand (n : Z) : list string :=
  (if 0 <? n / 100 then [ones_word (n / 100); "Hundred"] else [])
  ++ below_hundred (n mod 100).

Definition group_words (n : Z) (name : string) : list string :=
  if 0 <? n then below_thousand n ++ [name] else [].

Definition rupee_words (rupees : Z) : list string :=
  group_words (rupees / 10000000) "Crore"
  ++ group_words ((rupees / 100000) mod 100) "Lakh"
  ++ group_words ((rupees / 1000) mod 100) "Thousand"
  ++ below_thousand (rupees mod 1000).

Definition paise_words (paise : Z) : list string :=
  if 0 <? paise then "and" :: below_thousand paise ++ ["Paise"] else [].

(** The words of an amount given in hundredths. *)
Definition amount_words (hundredths : Z) : list string :=
  if hundredths =? 0 then ["Zero"; "Rupees"; "Only"]
  else rupee_words (hundredths / 100) ++ ["Rupees"]
       ++ paise_words (hundredths mod 100) ++ ["Only"].

Definition render (hundredths : Z) : string :=
  String.concat " " (amount_words hundredths).

(** Every word followed by a space: the way the source accumulates them. *)
Fixpoint spaced (ws : list string) : string :=
  match ws with
  | [] => ""
  | w :: ws' => w ++ " " ++ spaced ws'
  end.

(** A word that starts with a character other than white space. *)
Definition word_ok (w : string) : bool :=
  match w with
  | EmptyString => false
  | String c _ => negb (PyStr.is_space c)
  end.

End WordsSpec.

(** An intrastate invoice whose only line carries a fixed discount (150.50)
    above its gross amount (100). *)
Definition credit_item : InvoiceItem :=
  mkItem "Widget" "8471" (Dec.of_int 1) (Dec.of_int 100) "Nos" (Dec.of_int 18)
    (Dec.of_int 0) (Dec.mk 15050 (-2)).

Definition credit_invoice : Invoice :=
  mkInvoice
    (mkCompany "Seller" "1 Main Road" "Pune" "Maharashtra" "411001" "India"
       (Some "27AABCS1234C1ZS"))
    (mkCustomer "Buyer" "2 Side Road" "Mumbai" "Maharashtra" "400001" "India"
       (Some "27AABCC1234D1ZF"))
    [credit_item] "INV-3" "Maharashtra" false "" "".

(** The round trip of the specification: the taxable amount that the reverse
    calculation recovers from the total of the intrastate breakdown. *)
Definition round_trip (t r : Decimal) : result Decimal :=
  fwd <- GSTCalculator.calculate_gst_breakdown t r false ;;
  rev <- GSTCalculator.calculate_reverse_gst (GSTCalculator.total_amount fwd) r
           false ;;
  ret (GSTCalculator.taxable_amount rev).

(** An intrastate invoice with two lines: the laptop of the example scenario
    and a pen. *)
Definition two_line_invoice : Invoice :=
  mkInvoice
    (mkCompany "Seller" "1 Main Road" "Pune" "Maharashtra" "411001" "India"
       (Some "27AABCS1234C1ZS"))
    (mkCustomer "Buyer" "2 Side Road" "Mumbai" "Maharashtra" "400001" "India"
       (Some "27AABCC1234D1ZF"))
    [laptop_item "Laptop" "8471" "Nos"; pen_item] "INV-4" "Maharashtra" false "" "".

(** The sum of a list of integers, and of their absolute values. *)
Definition zsum (l : list Z) : Z := fold_right Z.add 0 l.
Definition zsum_abs (l : list Z) : Z := fold_right (fun n s => Z.abs n + s) 0 l.

(* ===================================================================== *)
(** * Part II: lemmas and theorems                                       *)
(* ===================================================================== *)

(** ** Interstate classification *)


(** On an invoice with an ID on one side at most, or with 15-character IDs on
    both sides, the source and the specification's wording agree. *)
Lemma is_interstate_agrees_with_spec (inv : Invoice) :
  both_have_gstin inv
    = company_is_gst_registered (company inv)
      && customer_is_gst_registered (customer inv) ->
  Inv.is_interstate inv = is_interstate_spec inv.
Proof.
  unfold Inv.is_interstate, is_interstate_spec, both_have_gstin.
  intros ->. reflexivity.
Qed.



(** ** The example line item *)

(** C2: a line item with quantity 1, unit price 65000, discount 5 percent, no
    fixed discount and rate 18 percent is accepted by the constructor and has
    gross amount 65000.00, total discount 3250.00, taxable amount 61750.00,
    CGST = SGST = 5557.50 and total amount 72865.00. *)
Theorem C2_laptop_line_item :
  forall description hsn_code unit : string,
    let it := laptop_item description hsn_code unit in
    Item.new description hsn_code (Dec.of_int 1) (Dec.of_int 65000) unit
      (Dec.of_int 18) (Dec.of_int 5) (Dec.of_int 0) = inr it
    /\ Item.gross_amount it = inr (cents 6500000)
    /\ Item.total_discount it = inr (cents 325000)
    /\ Item.taxable_amount it = inr (cents 6175000)
    /\ Item.cgst_amount it = inr (cents 555750)
    /\ Item.sgst_amount it = inr (cents 555750)
    /\ Item.total_amount it = inr (cents 7286500).
Proof.
  intros description hsn_code unit it.
  repeat split; vm_compute; reflexivity.
Qed.

(** ** Tax-ID validation *)







(** ** Best-match HSN suggestion *)

Section Substrings.

Local Open Scope string_scope.

Lemma append_nil_r (s : string) : s ++ "" = s.
Proof. induction s as [| c s IH]; simpl; congruence. Qed.

Lemma append_assoc (a b c : string) : (a ++ b) ++ c = a ++ b ++ c.
Proof. induction a as [| x a IH]; simpl; congruence. Qed.







End Substrings.






Lemma insert_desc_in (x y : HSNValidator.suggestion)
    (l : list HSNValidator.suggestion) :
  In y (HSNValidator.insert_desc x l) <-> y = x \/ In y l.
Proof.
  induction l as [| z l IH]; simpl.
  - intuition congruence.
  - destruct (HSNValidator.s_score z <=? HSNValidator.s_score x); simpl.
    + intuition congruence.
    + rewrite IH. intuition congruence.
Qed.

Lemma sort_desc_in (y : HSNValidator.suggestion)
    (l : list HSNValidator.suggestion) :
  In y (HSNValidator.sort_desc l) <-> In y l.
Proof.
  induction l as [| x l IH]; simpl; [tauto |].
  rewrite insert_desc_in, IH. intuition congruence.
Qed.




(** ** Decimal arithmetic: when the context leaves a result exact *)

Section DecimalDigits.

Lemma ndigits_aux_spec (fuel : nat) :
  forall n, 0 < n -> Z.log2 n <= Z.of_nat fuel ->
    1 <= Dec.ndigits_aux fuel n
    /\ 10 ^ (Dec.ndigits_aux fuel n - 1) <= n < 10 ^ Dec.ndigits_aux fuel n.
Proof.
  induction fuel as [| fuel IH]; intros n Hn Hlog.
  - assert (n < 2).
    { destruct (Z_lt_le_dec n 2) as [H | H]; [exact H |].
      apply Z.log2_le_mono in H. change (Z.log2 2) with 1 in H. lia. }
    simpl. lia.
  - cbn [Dec.ndigits_aux]. destruct (n <? 10) eqn:Hlt.
    + apply Z.ltb_lt in Hlt. simpl. lia.
    + apply Z.ltb_ge in Hlt.
      assert (Hq : 0 < n / 10) by (apply Z.div_str_pos; lia).
      assert (Hlog' : Z.log2 (n / 10) <= Z.of_nat fuel).
      { assert (Z.log2 (n / 10) <= Z.log2 (n / 2)).
        { apply Z.log2_le_mono.
          pose proof (Z.div_le_compat_l n 2 10). lia. }
        assert (Z.log2 (n / 2) = Z.log2 n - 1).
        { change 2 with (2 ^ 1). rewrite <- Z.shiftr_div_pow2 by lia.
          rewrite Z.log2_shiftr by lia.
          assert (1 <= Z.log2 n).
          { change 1 with (Z.log2 2). apply Z.log2_le_mono. lia. }
          lia. }
        lia. }
      destruct (IH (n / 10) Hq Hlog') as (H1 & H2 & H3).
      set (k := Dec.ndigits_aux fuel (n / 10)) in *.
      replace (1 + k - 1) with (Z.succ (k - 1)) by lia.
      replace (1 + k) with (Z.succ k) by lia.
      rewrite !Z.pow_succ_r by lia.
      pose proof (Z.mul_div_le n 10 ltac:(lia)).
      pose proof (Z.mod_pos_bound n 10 ltac:(lia)).
      pose proof (Z.div_mod n 10 ltac:(lia)).
      lia.
Qed.

Lemma ndigits_spec (n : Z) :
  0 < n ->
  1 <= Dec.ndigits n /\ 10 ^ (Dec.ndigits n - 1) <= n < 10 ^ Dec.ndigits n.
Proof.
  intro Hn. unfold Dec.ndigits. apply ndigits_aux_spec; [exact Hn |].
  rewrite Z2Nat.id by apply Z.log2_nonneg. lia.
Qed.

Lemma ndigits_pos (n : Z) : 1 <= Dec.ndigits n.
Proof.
  destruct (Z_lt_le_dec 0 n) as [H | H]; [apply ndigits_spec, H |].
  unfold Dec.ndigits.
  destruct (Z.to_nat (Z.log2 n)); cbn [Dec.ndigits_aux]; [lia |].
  destruct (n <? 10) eqn:E; [lia | apply Z.ltb_ge in E; lia].
Qed.

(** A number below [10^k] has at most [k] digits. *)
Lemma ndigits_le (n k : Z) : 1 <= k -> n < 10 ^ k -> Dec.ndigits n <= k.
Proof.
  intros Hk Hn.
  destruct (Z_lt_le_dec 0 n) as [Hpos | Hnp].
  - destruct (ndigits_spec n Hpos) as (H1 & H2 & _).
    destruct (Z_lt_le_dec k (Dec.ndigits n)) as [Hlt | Hle]; [| exact Hle].
    assert (10 ^ k <= 10 ^ (Dec.ndigits n - 1))
      by (apply Z.pow_le_mono_r; lia).
    lia.
  - unfold Dec.ndigits.
    destruct (Z.to_nat (Z.log2 n)); cbn [Dec.ndigits_aux]; [lia |].
    destruct (n <? 10) eqn:E; [lia | apply Z.ltb_ge in E; lia].
Qed.

(** A number with at least [k] digits is at least [10^(k-1)]. *)
Lemma ndigits_ge (n k : Z) : 0 < n -> 0 <= k -> 10 ^ k <= n -> k + 1 <= Dec.ndigits n.
Proof.
  intros Hn Hk Hle.
  destruct (ndigits_spec n Hn) as (H1 & _ & H3).
  destruct (Z_lt_le_dec (Dec.ndigits n) (k + 1)) as [Hlt | H]; [| exact H].
  assert (10 ^ Dec.ndigits n <= 10 ^ k) by (apply Z.pow_le_mono_r; lia).
  lia.
Qed.

End DecimalDigits.

Section DecimalExact.

Lemma fix_exact (c e : Z) :
  in_context c e -> Dec._fix (Dec.mk c e) = inr (Dec.mk c e).
Proof.
  intros [Hc He]. unfold Dec._fix, Dec.is_zero, Dec.len_int.
  cbn [Dec.coef Dec.exp].
  unfold Dec.Etiny, Dec.Etop, Dec.Emin, Dec.Emax, Dec.prec in *.
  destruct (c =? 0) eqn:Hz.
  - apply Z.eqb_eq in Hz. subst c. unfold ret. do 2 f_equal. lia.
  - apply Z.eqb_neq in Hz.
    pose proof (ndigits_le (Z.abs c) 28 ltac:(lia) Hc) as Hd.
    pose proof (ndigits_pos (Z.abs c)) as Hp.
    destruct (_ <? Dec.ndigits (Z.abs c) + e - 28) eqn:E1;
      [apply Z.ltb_lt in E1; lia |].
    destruct (e <? _) eqn:E2; [apply Z.ltb_lt in E2; lia | reflexivity].
Qed.

End DecimalExact.

Section DecimalValues.

Local Open Scope Q_scope.

Lemma inject_Z_pow10_pos (k : Z) : 0 < inject_Z (10 ^ k)%Z \/ (k < 0)%Z.
Proof.
  destruct (Z_lt_le_dec k 0) as [H | H]; [right; exact H | left].
  change 0 with (inject_Z 0). rewrite <- Zlt_Qlt.
  apply Z.pow_pos_nonneg; lia.
Qed.

Lemma pow10_pos (e : Z) : 0 < Dec.pow10 e.
Proof.
  unfold Dec.pow10. destruct (0 <=? e)%Z eqn:E.
  - apply Z.leb_le in E. destruct (inject_Z_pow10_pos e); [assumption | lia].
  - apply Z.leb_gt in E. apply Qinv_lt_0_compat.
    destruct (inject_Z_pow10_pos (- e)); [assumption | lia].
Qed.

Lemma pow10_nonneg_exp (k : Z) : (0 <= k)%Z -> Dec.pow10 k = inject_Z (10 ^ k)%Z.
Proof. intro H. unfold Dec.pow10. apply Z.leb_le in H. rewrite H. reflexivity. Qed.

Lemma pow10_neg_exp (k : Z) :
  (0 <= k)%Z -> Dec.pow10 (- k) == / inject_Z (10 ^ k)%Z.
Proof.
  intro H. unfold Dec.pow10. destruct (0 <=? - k)%Z eqn:E.
  - apply Z.leb_le in E. assert (k = 0%Z) by lia. subst k. reflexivity.
  - rewrite Z.opp_involutive. reflexivity.
Qed.

Lemma pow10_succ (e : Z) : Dec.pow10 (e + 1) == 10 * Dec.pow10 e.
Proof.
  destruct (Z_lt_le_dec e 0) as [Hneg | Hpos].
  - replace e with (- (- e))%Z at 2 by lia.
    replace (e + 1)%Z with (- (- e - 1))%Z by lia.
    rewrite !pow10_neg_exp by lia.
    replace (10 ^ (- e))%Z with (10 * 10 ^ (- e - 1))%Z.
    2:{ rewrite <- Z.pow_succ_r by lia. f_equal. lia. }
    rewrite inject_Z_mult.
    assert (0 < inject_Z (10 ^ (- e - 1))%Z)
      by (destruct (inject_Z_pow10_pos (- e - 1)); [assumption | lia]).
    change (inject_Z 10) with 10. field. lra.
  - rewrite !pow10_nonneg_exp by lia.
    rewrite Z.pow_add_r by lia. rewrite inject_Z_mult.
    change (inject_Z (10 ^ 1)%Z) with 10. ring.
Qed.

Lemma pow10_add_nonneg (e k : Z) :
  (0 <= k)%Z -> Dec.pow10 (e + k) == Dec.pow10 e * inject_Z (10 ^ k)%Z.
Proof.
  intro Hk. pattern k. apply natlike_ind; [| | exact Hk].
  - rewrite Z.add_0_r. change (inject_Z (10 ^ 0)%Z) with 1. ring.
  - intros x Hx IH. replace (e + Z.succ x)%Z with (e + x + 1)%Z by lia.
    rewrite pow10_succ, IH, Z.pow_succ_r by lia.
    rewrite inject_Z_mult. change (inject_Z 10) with 10. ring.
Qed.

Lemma pow10_add (a b : Z) : Dec.pow10 (a + b) == Dec.pow10 a * Dec.pow10 b.
Proof.
  destruct (Z_lt_le_dec b 0) as [Hneg | Hpos].
  - pose proof (pow10_add_nonneg (a + b) (- b) ltac:(lia)) as H1.
    replace (a + b + - b)%Z with a in H1 by lia.
    pose proof (pow10_add_nonneg b (- b) ltac:(lia)) as H2.
    replace (b + - b)%Z with 0%Z in H2 by lia.
    change (Dec.pow10 0) with 1 in H2.
    pose proof (pow10_pos b).
    assert (0 < inject_Z (10 ^ (- b))%Z)
      by (destruct (inject_Z_pow10_pos (- b)); [assumption | lia]).
    rewrite H1.
    assert (E : inject_Z (10 ^ (- b))%Z == / Dec.pow10 b).
    { apply (Qmult_inj_l _ _ (Dec.pow10 b));
        [apply Qnot_eq_sym, Qlt_not_eq; assumption |].
      rewrite <- H2. field. apply Qnot_eq_sym, Qlt_not_eq; assumption. }
    rewrite E. field. apply Qnot_eq_sym, Qlt_not_eq; assumption.
  - rewrite pow10_add_nonneg by lia. rewrite (pow10_nonneg_exp b) by lia. reflexivity.
Qed.

Lemma val_mk (c e : Z) : Dec.val (Dec.mk c e) = inject_Z c * Dec.pow10 e.
Proof. reflexivity. Qed.

Lemma val_mul (a b : Decimal) :
  Dec.val (Dec.mk (Dec.coef a * Dec.coef b) (Dec.exp a + Dec.exp b))
  == Dec.val a * Dec.val b.
Proof.
  unfold Dec.val. cbn [Dec.coef Dec.exp].
  rewrite inject_Z_mult, pow10_add. ring.
Qed.

(** The same number written with [k] more digits. *)
Lemma val_shift (c e k : Z) :
  (0 <= k)%Z -> Dec.val (Dec.mk (c * 10 ^ k) (e - k)) == Dec.val (Dec.mk c e).
Proof.
  intro Hk. unfold Dec.val. cbn [Dec.coef Dec.exp].
  replace e with (e - k + k)%Z at 2 by lia.
  rewrite pow10_add_nonneg by lia. rewrite inject_Z_mult. ring.
Qed.

Lemma val_of_int (n : Z) : Dec.val (Dec.of_int n) == inject_Z n.
Proof. unfold Dec.val, Dec.of_int. cbn. ring. Qed.

Lemma val_cents (n : Z) : Dec.val (cents n) == inject_Z n / 100.
Proof. unfold Dec.val, cents. cbn. field. Qed.

End DecimalValues.

Section DecimalOps.

Lemma mul_exact (a b : Decimal) :
  in_context (Dec.coef a * Dec.coef b) (Dec.exp a + Dec.exp b) ->
  Dec.mul a b = inr (Dec.mk (Dec.coef a * Dec.coef b) (Dec.exp a + Dec.exp b)).
Proof. intro H. unfold Dec.mul. apply fix_exact, H. Qed.

(** The operands of an addition at their common exponent. *)
Lemma normalize_exact (a b : Decimal) :
  (if Dec.exp a <? Dec.exp b
   then Dec.exp b + Z.min (-1) (Dec.len_int b - Dec.prec - 2)
        <= Dec.len_int a + Dec.exp a - 1
   else Dec.exp a + Z.min (-1) (Dec.len_int a - Dec.prec - 2)
        <= Dec.len_int b + Dec.exp b - 1) ->
  let e := Z.min (Dec.exp a) (Dec.exp b) in
  Dec._normalize a b
  = (Dec.mk (Dec.coef a * 10 ^ (Dec.exp a - e)) e,
     Dec.mk (Dec.coef b * 10 ^ (Dec.exp b - e)) e).
Proof.
  intros H e. unfold Dec._normalize. subst e.
  destruct (Dec.exp a <? Dec.exp b) eqn:Hswap.
  - apply Z.ltb_lt in Hswap.
    destruct (_ <? _) eqn:Hcut; [apply Z.ltb_lt in Hcut; lia |].
    rewrite Z.min_l by lia. rewrite Z.sub_diag, Z.mul_1_r.
    destruct a; reflexivity.
  - apply Z.ltb_ge in Hswap.
    destruct (_ <? _) eqn:Hcut; [apply Z.ltb_lt in Hcut; lia |].
    rewrite Z.min_r by lia. rewrite Z.sub_diag, Z.mul_1_r.
    destruct b; reflexivity.
Qed.

(** Addition is exact when the operands need no more than the context's
    digits at their common exponent: the general statement, with the
    alignment of [_normalize] as a hypothesis. *)
Lemma add_aligned (a b : Decimal) :
  let e := Z.min (Dec.exp a) (Dec.exp b) in
  let s := Dec.coef a * 10 ^ (Dec.exp a - e) + Dec.coef b * 10 ^ (Dec.exp b - e) in
  in_context s e ->
  Z.abs (Dec.exp a - Dec.exp b) <= Dec.prec + 1 ->
  (Dec.coef a <> 0 -> Dec.coef b <> 0 ->
   Dec._normalize a b
   = (Dec.mk (Dec.coef a * 10 ^ (Dec.exp a - e)) e,
      Dec.mk (Dec.coef b * 10 ^ (Dec.exp b - e)) e)) ->
  Dec.add a b = inr (Dec.mk s e).
Proof.
  intros e s Hctx Hgap Hnorm. unfold Dec.add, Dec.is_zero. fold e.
  unfold Dec.prec in *.
  destruct (Dec.coef a =? 0) eqn:Ha; destruct (Dec.coef b =? 0) eqn:Hb;
    cbn [andb].
  - apply Z.eqb_eq in Ha, Hb.
    assert (Es : s = 0) by (subst s; rewrite Ha, Hb; ring).
    rewrite Es in *. apply fix_exact. exact Hctx.
  - apply Z.eqb_eq in Ha. apply Z.eqb_neq in Hb.
    unfold Dec._rescale, Dec.is_zero. rewrite (proj2 (Z.eqb_neq _ _) Hb).
    replace (Z.max e (Dec.exp b - 28 - 1)) with e by (subst e; lia).
    assert (He : e <= Dec.exp b) by (subst e; lia).
    apply Z.leb_le in He. rewrite He.
    assert (Es : s = Dec.coef b * 10 ^ (Dec.exp b - e))
      by (subst s; rewrite Ha; ring).
    rewrite Es in *. apply fix_exact. exact Hctx.
  - apply Z.eqb_neq in Ha. apply Z.eqb_eq in Hb.
    unfold Dec._rescale, Dec.is_zero. rewrite (proj2 (Z.eqb_neq _ _) Ha).
    replace (Z.max e (Dec.exp a - 28 - 1)) with e by (subst e; lia).
    assert (He : e <= Dec.exp a) by (subst e; lia).
    apply Z.leb_le in He. rewrite He.
    assert (Es : s = Dec.coef a * 10 ^ (Dec.exp a - e))
      by (subst s; rewrite Hb; ring).
    rewrite Es in *. apply fix_exact. exact Hctx.
  - apply Z.eqb_neq in Ha, Hb. rewrite (Hnorm Ha Hb). cbn [Dec.coef Dec.exp].
    fold s. destruct (s =? 0) eqn:Hs.
    + apply Z.eqb_eq in Hs. rewrite Hs in *. apply fix_exact. exact Hctx.
    + apply fix_exact. exact Hctx.
Qed.

(** Two operands of the same exponent. *)
Lemma add_same_exp (ca cb e : Z) :
  in_context (ca + cb) e ->
  Dec.add (Dec.mk ca e) (Dec.mk cb e) = inr (Dec.mk (ca + cb) e).
Proof.
  intro H.
  pose proof (add_aligned (Dec.mk ca e) (Dec.mk cb e)) as A.
  cbn [Dec.coef Dec.exp] in A. rewrite Z.min_id, Z.sub_diag in A.
  cbn [Z.pow] in A. rewrite !Z.mul_1_r in A.
  apply A; [exact H | unfold Dec.prec; lia |].
  intros _ _.
  pose proof (normalize_exact (Dec.mk ca e) (Dec.mk cb e)) as N.
  cbn [Dec.coef Dec.exp] in N. rewrite Z.min_id, Z.sub_diag in N.
  cbn [Z.pow] in N. rewrite !Z.mul_1_r in N. apply N.
  rewrite Z.ltb_irrefl.
  pose proof (ndigits_pos (Z.abs cb)). unfold Dec.len_int. cbn [Dec.coef]. lia.
Qed.

Lemma sub_same_exp (ca cb e : Z) :
  in_context (ca - cb) e ->
  Dec.sub (Dec.mk ca e) (Dec.mk cb e) = inr (Dec.mk (ca - cb) e).
Proof.
  intro H. unfold Dec.sub, Dec.neg. cbn [Dec.coef Dec.exp].
  apply add_same_exp. exact H.
Qed.

(** Two non-negative operands. *)
Lemma add_nonneg (a b : Decimal) :
  let e := Z.min (Dec.exp a) (Dec.exp b) in
  let s := Dec.coef a * 10 ^ (Dec.exp a - e) + Dec.coef b * 10 ^ (Dec.exp b - e) in
  0 <= Dec.coef a -> 0 <= Dec.coef b ->
  in_context s e ->
  Z.abs (Dec.exp a - Dec.exp b) <= Dec.prec + 1 ->
  Dec.add a b = inr (Dec.mk s e).
Proof.
  intros e s Ha Hb Hctx Hgap. apply add_aligned; [exact Hctx | exact Hgap |].
  intros Ha0 Hb0. apply normalize_exact.
  destruct Hctx as [Hs _]. unfold Dec.len_int, Dec.prec in *.
  assert (P1 : 0 <= 10 ^ (Dec.exp a - e)) by (apply Z.pow_nonneg; lia).
  assert (P2 : 0 <= 10 ^ (Dec.exp b - e)) by (apply Z.pow_nonneg; lia).
  assert (Hsa : 0 <= Dec.coef a * 10 ^ (Dec.exp a - e)) by (apply Z.mul_nonneg_nonneg; lia).
  assert (Hsb : 0 <= Dec.coef b * 10 ^ (Dec.exp b - e)) by (apply Z.mul_nonneg_nonneg; lia).
  rewrite !Z.abs_eq by lia.
  pose proof (ndigits_pos (Dec.coef a)). pose proof (ndigits_pos (Dec.coef b)).
  destruct (Dec.exp a <? Dec.exp b) eqn:Hswap.
  - apply Z.ltb_lt in Hswap.
    (* b is shifted left by exp b - exp a digits and still below 10^28 *)
    assert (Hb28 : Dec.coef b * 10 ^ (Dec.exp b - e) < 10 ^ 28) by (subst s; lia).
    destruct (ndigits_spec (Dec.coef b) ltac:(lia)) as (_ & Hlo & _).
    assert (Dec.ndigits (Dec.coef b) - 1 + (Dec.exp b - e) < 28).
    { apply (Z.pow_lt_mono_r_iff 10); [lia | lia |].
      rewrite Z.pow_add_r by (subst e; lia).
      eapply Z.le_lt_trans; [| exact Hb28].
      apply Z.mul_le_mono_nonneg_r; lia. }
    subst e. lia.
  - apply Z.ltb_ge in Hswap.
    assert (Ha28 : Dec.coef a * 10 ^ (Dec.exp a - e) < 10 ^ 28) by (subst s; lia).
    destruct (ndigits_spec (Dec.coef a) ltac:(lia)) as (_ & Hlo & _).
    assert (Dec.ndigits (Dec.coef a) - 1 + (Dec.exp a - e) < 28).
    { apply (Z.pow_lt_mono_r_iff 10); [lia | lia |].
      rewrite Z.pow_add_r by (subst e; lia).
      eapply Z.le_lt_trans; [| exact Ha28].
      apply Z.mul_le_mono_nonneg_r; lia. }
    subst e. lia.
Qed.

End DecimalOps.

Section Quantize.

Local Open Scope Q_scope.

Lemma Qfloor_unique (x : Q) (z : Z) :
  inject_Z z <= x -> x < inject_Z (z + 1) -> Qfloor x = z.
Proof.
  intros Hlo Hhi.
  pose proof (Qfloor_le x) as H1. pose proof (Qlt_floor x) as H2.
  assert (A : (z < Qfloor x + 1)%Z).
  { rewrite Zlt_Qlt. eapply Qle_lt_trans; [exact Hlo | exact H2]. }
  assert (B : (Qfloor x < z + 1)%Z).
  { rewrite Zlt_Qlt. eapply Qle_lt_trans; [exact H1 | exact Hhi]. }
  lia.
Qed.

Lemma Qfloor_half (n : Z) : Qfloor (inject_Z n + (1 # 2)) = n.
Proof.
  apply Qfloor_unique.
  - lra.
  - rewrite inject_Z_plus. change (inject_Z 1) with 1. lra.
Qed.

(** Keeping the digits above [10^k] and rounding the dropped ones half up is
    the division [(2n + 10^k) / (2 * 10^k)]. *)
Lemma half_up_div (n D : Z) :
  (0 <= n)%Z -> (0 < D)%Z ->
  (n / D + (if D <=? 2 * (n mod D) then 1 else 0))%Z = ((2 * n + D) / (2 * D))%Z.
Proof.
  intros Hn HD.
  pose proof (Z.div_mod n D ltac:(lia)) as E.
  pose proof (Z.mod_pos_bound n D HD) as B.
  destruct (D <=? 2 * (n mod D))%Z eqn:Hc.
  - apply Z.leb_le in Hc.
    apply (Z.div_unique _ _ _ (2 * (n mod D) - D)); lia.
  - apply Z.leb_gt in Hc.
    apply (Z.div_unique _ _ _ (2 * (n mod D) + D)); lia.
Qed.

Lemma Qfloor_div_half (n D : Z) :
  (0 < D)%Z ->
  Qfloor (inject_Z n / inject_Z D + (1 # 2)) = ((2 * n + D) / (2 * D))%Z.
Proof.
  intro HD.
  assert (E : inject_Z n / inject_Z D + (1 # 2)
              == Qmake (2 * n + D) (Z.to_pos (2 * D))).
  { unfold Qeq, Qdiv, Qmult, Qplus, Qinv, inject_Z. cbn [Qnum Qden].
    destruct D as [| p | p]; try lia.
    replace (Z.to_pos (2 * Z.pos p)) with (2 * p)%positive by reflexivity.
    cbn [Qnum Qden]. lia. }
  rewrite (Qfloor_comp _ _ E). unfold Qfloor.
  rewrite Z2Pos.id by lia. reflexivity.
Qed.

End Quantize.

Section QuantizeSpec.

Local Open Scope Q_scope.

Lemma pow10_le_mono (a b : Z) : (a <= b)%Z -> Dec.pow10 a <= Dec.pow10 b.
Proof.
  intro H. replace b with (a + (b - a))%Z by lia.
  rewrite pow10_add_nonneg by lia.
  pose proof (pow10_pos a).
  assert (1 <= inject_Z (10 ^ (b - a))%Z).
  { change 1 with (inject_Z 1). rewrite <- Zle_Qle.
    pose proof (Z.pow_pos_nonneg 10 (b - a) ltac:(lia) ltac:(lia)). lia. }
  nra.
Qed.

Lemma Qabs_val (c e : Z) :
  Qabs (Dec.val (Dec.mk c e)) == inject_Z (Z.abs c) * Dec.pow10 e.
Proof.
  unfold Dec.val. cbn [Dec.coef Dec.exp]. rewrite Qabs_Qmult.
  rewrite (Qabs_pos (Dec.pow10 e)) by (apply Qlt_le_weak, pow10_pos).
  reflexivity.
Qed.

(** A non-zero decimal below [10^m] in absolute value has adjusted exponent
    below [m]. *)
Lemma adjusted_lt (c e m : Z) :
  c <> 0%Z -> Qabs (Dec.val (Dec.mk c e)) < Dec.pow10 m ->
  (Dec.ndigits (Z.abs c) + e <= m)%Z.
Proof.
  intros Hc Hv. rewrite Qabs_val in Hv.
  destruct (ndigits_spec (Z.abs c) ltac:(lia)) as (H1 & Hlo & _).
  destruct (Z_lt_le_dec m (Dec.ndigits (Z.abs c) + e)) as [Hgt | Hle];
    [| exact Hle].
  exfalso.
  assert (A : Dec.pow10 m <= Dec.pow10 (Dec.ndigits (Z.abs c) - 1 + e))
    by (apply pow10_le_mono; lia).
  rewrite pow10_add in A. rewrite (pow10_nonneg_exp (_ - 1)) in A by lia.
  rewrite Zle_Qle in Hlo. pose proof (pow10_pos e). nra.
Qed.

Lemma val_sign (c e : Z) : Qle_bool 0 (Dec.val (Dec.mk c e)) = (0 <=? c)%Z.
Proof.
  pose proof (pow10_pos e) as P. unfold Dec.val. cbn [Dec.coef Dec.exp].
  destruct (0 <=? c)%Z eqn:E.
  - apply Z.leb_le in E. apply Qle_bool_iff.
    rewrite Zle_Qle in E. change (inject_Z 0) with 0 in E. nra.
  - apply Z.leb_gt in E. apply not_true_is_false. intro H.
    apply Qle_bool_iff in H.
    rewrite Zlt_Qlt in E. change (inject_Z 0) with 0 in E. nra.
Qed.

(** The hundredths of a decimal with at most two decimals. *)
Lemma val_times_100_int (c e : Z) :
  (-2 <= e)%Z ->
  Dec.val (Dec.mk c e) * 100 == inject_Z (c * 10 ^ (e + 2)).
Proof.
  intro He. unfold Dec.val. cbn [Dec.coef Dec.exp].
  rewrite inject_Z_mult, <- (pow10_nonneg_exp (e + 2)) by lia.
  rewrite pow10_add. change (Dec.pow10 2) with 100. ring.
Qed.

(** The hundredths of a decimal with more than two decimals. *)
Lemma val_times_100_frac (c e : Z) :
  (e < -2)%Z ->
  Dec.val (Dec.mk c e) * 100 == inject_Z c / inject_Z (10 ^ (-2 - e)).
Proof.
  intro He. unfold Dec.val. cbn [Dec.coef Dec.exp].
  replace e with (- (-2 - e) + - (2))%Z at 1 by lia.
  rewrite pow10_add, pow10_neg_exp by lia.
  change (Dec.pow10 (- (2))) with (/ 100).
  assert (0 < inject_Z (10 ^ (-2 - e))%Z)
    by (destruct (inject_Z_pow10_pos (-2 - e)); [assumption | lia]).
  field. apply Qnot_eq_sym, Qlt_not_eq. assumption.
Qed.

Lemma rescale_half_up (c e : Z) :
  Dec._rescale (Dec.mk c e) (-2) Dec.ROUND_HALF_UP
  = cents (half_up_cents (Dec.val (Dec.mk c e))).
Proof.
  unfold Dec._rescale, Dec.is_zero, cents, half_up_cents.
  rewrite val_sign. cbn [Dec.coef Dec.exp].
  destruct (c =? 0)%Z eqn:Hz.
  { apply Z.eqb_eq in Hz. subst c. f_equal.
    change (0 <=? 0)%Z with true. cbv iota.
    assert (E : Dec.val (Dec.mk 0 e) * 100 + (1 # 2) == inject_Z 0 + (1 # 2))
      by (unfold Dec.val; cbn [Dec.coef Dec.exp]; ring).
    rewrite (Qfloor_comp _ _ E). symmetry. apply Qfloor_half. }
  apply Z.eqb_neq in Hz. f_equal.
  destruct (-2 <=? e)%Z eqn:He.
  - apply Z.leb_le in He. replace (e - -2)%Z with (e + 2)%Z by lia.
    destruct (0 <=? c)%Z.
    + rewrite (Qfloor_comp _ _
                 (Qplus_comp _ _ (val_times_100_int c e He) _ _ (Qeq_refl _))).
      rewrite Qfloor_half. reflexivity.
    + assert (E : - Dec.val (Dec.mk c e) * 100
                  == inject_Z (- (c * 10 ^ (e + 2)))).
      { rewrite inject_Z_opp, <- val_times_100_int by exact He. ring. }
      rewrite (Qfloor_comp _ _ (Qplus_comp _ _ E _ _ (Qeq_refl _))).
      rewrite Qfloor_half. f_equal; try lia.
  - apply Z.leb_gt in He. unfold Dec.changed, Dec.round_half_up_changed,
      Dec.kept, Dec.dropped.
    set (D := (10 ^ (-2 - e))%Z).
    assert (HD : (0 < D)%Z) by (apply Z.pow_pos_nonneg; lia).
    pose proof (half_up_div (Z.abs c) D ltac:(lia) HD) as HU.
    assert (K : ((if D <=? 2 * (Z.abs c mod D)
                  then Z.abs c / D + 1 else Z.abs c / D)
                 = (2 * Z.abs c + D) / (2 * D))%Z).
    { rewrite <- HU. destruct (D <=? 2 * (Z.abs c mod D))%Z; lia. }
    rewrite K.
    destruct (0 <=? c)%Z eqn:Hs.
    + apply Z.leb_le in Hs.
      rewrite (Qfloor_comp _ _
                 (Qplus_comp _ _ (val_times_100_frac c e He) _ _ (Qeq_refl _))).
      fold D. rewrite Qfloor_div_half by exact HD.
      rewrite Z.abs_eq by lia. rewrite Z.sgn_pos by lia. f_equal; try lia.
    + apply Z.leb_gt in Hs.
      assert (E : - Dec.val (Dec.mk c e) * 100
                  == inject_Z (Z.abs c) / inject_Z D).
      { rewrite Z.abs_neq by lia. rewrite inject_Z_opp.
        transitivity (- (Dec.val (Dec.mk c e) * 100)); [ring |].
        rewrite val_times_100_frac by exact He. fold D.
        unfold Qdiv. ring. }
      rewrite (Qfloor_comp _ _ (Qplus_comp _ _ E _ _ (Qeq_refl _))).
      rewrite Qfloor_div_half by exact HD.
      rewrite Z.sgn_neg by lia. f_equal; try lia.
Qed.

(** The rounded hundredths are within one half of the exact ones. *)
Lemma half_up_cents_near (x : Q) :
  inject_Z (half_up_cents x) - (1 # 2) <= x * 100
  /\ x * 100 <= inject_Z (half_up_cents x) + (1 # 2).
Proof.
  unfold half_up_cents. destruct (Qle_bool 0 x) eqn:Hs.
  - pose proof (Qfloor_le (x * 100 + (1 # 2))).
    pose proof (Qlt_floor (x * 100 + (1 # 2))) as H2.
    rewrite inject_Z_plus in H2. change (inject_Z 1) with 1 in H2. lra.
  - pose proof (Qfloor_le (- x * 100 + (1 # 2))).
    pose proof (Qlt_floor (- x * 100 + (1 # 2))) as H2.
    rewrite inject_Z_plus in H2. change (inject_Z 1) with 1 in H2.
    rewrite inject_Z_opp. lra.
Qed.

Lemma half_up_cents_nonneg (x : Q) :
  0 <= x ->
  (0 <= half_up_cents x)%Z
  /\ inject_Z (half_up_cents x) - (1 # 2) <= x * 100
  /\ x * 100 < inject_Z (half_up_cents x) + (1 # 2).
Proof.
  intro Hx. unfold half_up_cents.
  apply Qle_bool_iff in Hx. rewrite Hx. apply Qle_bool_iff in Hx.
  pose proof (Qfloor_le (x * 100 + (1 # 2))) as H1.
  pose proof (Qlt_floor (x * 100 + (1 # 2))) as H2.
  rewrite inject_Z_plus in H2. change (inject_Z 1) with 1 in H2.
  repeat split; try lra.
  assert (A : (-1 < Qfloor (x * 100 + (1 # 2)))%Z).
  { rewrite Zlt_Qlt. change (inject_Z (-1)) with (-1). lra. }
  lia.
Qed.

Lemma half_up_cents_comp (x y : Q) : x == y -> half_up_cents x = half_up_cents y.
Proof.
  intro E. unfold half_up_cents.
  assert (Qle_bool 0 x = Qle_bool 0 y).
  { destruct (Qle_bool 0 y) eqn:Hy.
    - apply Qle_bool_iff. apply Qle_bool_iff in Hy. lra.
    - apply not_true_is_false. intro Hx.
      apply Qle_bool_iff in Hx. apply not_true_iff_false in Hy. apply Hy.
      apply Qle_bool_iff. lra. }
  rewrite H. destruct (Qle_bool 0 y); [| f_equal];
    apply Qfloor_comp; rewrite E; reflexivity.
Qed.

(** [quantize] to two decimals succeeds on every decimal below [10^25] in
    absolute value, with the half-up rounding of its value. *)
Lemma quantize2_val (d : Decimal) :
  Qabs (Dec.val d) < Dec.pow10 25 ->
  quantize2 d = inr (cents (half_up_cents (Dec.val d))).
Proof.
  destruct d as [c e]. intro Hv.
  unfold quantize2, Dec.quantize.
  change ((Dec.Etiny <=? -2)%Z && (-2 <=? Dec.Emax)%Z) with true.
  cbn [negb]. unfold Dec.is_zero. cbn [Dec.coef].
  destruct (c =? 0)%Z eqn:Hz.
  { apply Z.eqb_eq in Hz. subst c.
    rewrite fix_exact
      by (split; [reflexivity
                 | unfold Dec.Etiny, Dec.Etop, Dec.Emin, Dec.Emax, Dec.prec; lia]).
    rewrite <- rescale_half_up. reflexivity. }
  apply Z.eqb_neq in Hz.
  pose proof (adjusted_lt c e 25 Hz Hv) as Hadj.
  assert (A1 : (Dec.Emax <? Dec.adjusted (Dec.mk c e))%Z = false).
  { apply Z.ltb_ge. unfold Dec.adjusted, Dec.len_int, Dec.Emax.
    cbn [Dec.coef Dec.exp]. lia. }
  assert (A2 : (Dec.prec <? Dec.adjusted (Dec.mk c e) - -2 + 1)%Z = false).
  { apply Z.ltb_ge. unfold Dec.adjusted, Dec.len_int, Dec.prec.
    cbn [Dec.coef Dec.exp]. lia. }
  rewrite A1, A2.
  rewrite rescale_half_up.
  set (m := half_up_cents (Dec.val (Dec.mk c e))).
  assert (Hm : (Z.abs m < 10 ^ 28)%Z).
  { destruct (half_up_cents_near (Dec.val (Dec.mk c e))) as [L U]. fold m in L, U.
    apply Qabs_Qlt_condition in Hv.
    change (Dec.pow10 25) with (inject_Z (10 ^ 25)) in Hv.
    assert (X1 : 1 <= inject_Z (10 ^ 25)).
    { change 1 with (inject_Z 1). rewrite <- Zle_Qle.
      apply Z.leb_le. vm_compute. reflexivity. }
    assert (A : inject_Z m < inject_Z (10 ^ 28)).
    { change (inject_Z (10 ^ 28)) with (inject_Z (10 ^ 25 * 1000)).
      rewrite inject_Z_mult. change (inject_Z 1000) with 1000.
      destruct Hv. lra. }
    assert (B : inject_Z (- 10 ^ 28) < inject_Z m).
    { change (inject_Z (- 10 ^ 28)) with (inject_Z (- (10 ^ 25 * 1000))).
      rewrite inject_Z_opp, inject_Z_mult. change (inject_Z 1000) with 1000.
      destruct Hv. lra. }
    rewrite <- Zlt_Qlt in A, B. lia. }
  pose proof (ndigits_le (Z.abs m) 28 ltac:(lia) Hm) as Hd.
  assert (A3 : (Dec.Emax <? Dec.adjusted (cents m))%Z = false).
  { apply Z.ltb_ge. unfold Dec.adjusted, Dec.len_int, Dec.Emax, cents.
    cbn [Dec.coef Dec.exp]. lia. }
  assert (A4 : (Dec.prec <? Dec.len_int (cents m))%Z = false).
  { apply Z.ltb_ge. unfold Dec.len_int, Dec.prec, cents.
    cbn [Dec.coef Dec.exp]. lia. }
  rewrite A3, A4. apply fix_exact. split; [exact Hm |].
  unfold Dec.Etiny, Dec.Etop, Dec.Emin, Dec.Emax, Dec.prec; lia.
Qed.

End QuantizeSpec.

Section Division.

Lemma sgn_mul_abs (x : Z) : Z.sgn x * Z.abs x = x.
Proof. destruct x; reflexivity. Qed.

Lemma strip_zeros_spec (fuel : nat) :
  forall c e ideal,
    let r := Dec.strip_zeros fuel c e ideal in
    fst r * 10 ^ (snd r - e) = c
    /\ e <= snd r <= Z.max e ideal
    /\ Z.abs (fst r) <= Z.abs c.
Proof.
  induction fuel as [| fuel IH]; intros c e ideal; cbn [Dec.strip_zeros].
  - cbn [fst snd]. rewrite Z.sub_diag. cbn. lia.
  - destruct ((e <? ideal) && (c mod 10 =? 0)) eqn:Hc.
    + apply andb_true_iff in Hc. destruct Hc as [H1 H2].
      apply Z.ltb_lt in H1. apply Z.eqb_eq in H2.
      specialize (IH (c / 10) (e + 1) ideal). cbv zeta in IH |- *.
      destruct (Dec.strip_zeros fuel (c / 10) (e + 1) ideal) as [c' e'].
      cbn [fst snd] in *. destruct IH as (A & B & C).
      pose proof (Z.div_mod c 10 ltac:(lia)) as E.
      split; [| split].
      * replace (e' - e) with (Z.succ (e' - (e + 1))) by lia.
        rewrite Z.pow_succ_r by lia. lia.
      * lia.
      * assert (Z.abs (c / 10) <= Z.abs c); [| lia].
        rewrite E at 2. rewrite H2. lia.
    + cbn [fst snd]. rewrite Z.sub_diag. cbn. lia.
Qed.

(** Trailing zeros are stripped as long as the ideal exponent allows. *)
Lemma strip_zeros_pow (j : nat) :
  forall fuel m e ideal,
    e + Z.of_nat j <= ideal ->
    Dec.strip_zeros (j + fuel) (m * 10 ^ Z.of_nat j) e ideal
    = Dec.strip_zeros fuel m (e + Z.of_nat j) ideal.
Proof.
  induction j as [| j IH]; intros fuel m e ideal H.
  - cbn [Nat.add Z.of_nat]. rewrite Z.pow_0_r, Z.mul_1_r, Z.add_0_r. reflexivity.
  - cbn [Nat.add Dec.strip_zeros].
    rewrite Nat2Z.inj_succ in *. rewrite Z.pow_succ_r by lia.
    assert (E1 : (e <? ideal) = true) by (apply Z.ltb_lt; lia).
    assert (E2 : (m * (10 * 10 ^ Z.of_nat j)) mod 10 = 0).
    { replace (m * (10 * 10 ^ Z.of_nat j)) with (m * 10 ^ Z.of_nat j * 10) by ring.
      apply Z.mod_mul. lia. }
    rewrite E1, E2. cbn [andb Z.eqb].
    replace (m * (10 * 10 ^ Z.of_nat j) / 10) with (m * 10 ^ Z.of_nat j).
    2:{ replace (m * (10 * 10 ^ Z.of_nat j)) with (m * 10 ^ Z.of_nat j * 10) by ring.
        rewrite Z.div_mul by lia. reflexivity. }
    rewrite IH by lia. f_equal. lia.
Qed.

(** Division is exact when the quotient, written with [p] more decimals
    than the ideal exponent, is an integer [m] of at most 28 digits. *)
Lemma div_exact (a b : Decimal) (p m : Z) :
  Dec.coef a <> 0 -> Dec.coef b <> 0 ->
  0 <= p <= Dec.len_int b - Dec.len_int a + Dec.prec + 1 ->
  Z.abs (Dec.coef a) * 10 ^ p = m * Z.abs (Dec.coef b) ->
  m < 10 ^ 28 ->
  Dec.Etiny <= Dec.exp a - Dec.exp b - p ->
  Dec.exp a - Dec.exp b <= Dec.Etop ->
  exists q, Dec.div a b = inr q
    /\ (Dec.val q * Dec.val b == Dec.val a)%Q
    /\ Z.abs (Dec.coef q) <= m
    /\ Dec.exp a - Dec.exp b - p <= Dec.exp q <= Dec.exp a - Dec.exp b.
Proof.
  intros Ha Hb Hp Hm Hm28 Hlo Hhi.
  unfold Dec.div, Dec.is_zero.
  rewrite (proj2 (Z.eqb_neq _ _) Ha), (proj2 (Z.eqb_neq _ _) Hb).
  set (shift := Dec.len_int b - Dec.len_int a + Dec.prec + 1) in *.
  assert (Hs : (0 <=? shift) = true) by (apply Z.leb_le; lia).
  rewrite Hs.
  set (ideal := Dec.exp a - Dec.exp b) in *.
  assert (Hnum : Z.abs (Dec.coef a) * 10 ^ shift
                 = m * 10 ^ (shift - p) * Z.abs (Dec.coef b)).
  { replace shift with (p + (shift - p)) at 1 by lia.
    rewrite Z.pow_add_r by lia. rewrite Z.mul_assoc, Hm. ring. }
  rewrite Hnum.
  rewrite Z.div_mul by lia. rewrite Z.mod_mul by lia. cbn [Z.eqb].
  replace (Z.to_nat (ideal - (ideal - shift)))
    with (Z.to_nat (shift - p) + Z.to_nat p)%nat by lia.
  replace (m * 10 ^ (shift - p))
    with (m * 10 ^ Z.of_nat (Z.to_nat (shift - p)))
    by (rewrite Z2Nat.id by lia; reflexivity).
  rewrite strip_zeros_pow by lia.
  replace (ideal - shift + Z.of_nat (Z.to_nat (shift - p))) with (ideal - p) by lia.
  pose proof (strip_zeros_spec (Z.to_nat p) m (ideal - p) ideal) as S.
  cbv zeta in S.
  destruct (Dec.strip_zeros (Z.to_nat p) m (ideal - p) ideal) as [c' e'].
  cbn [fst snd] in S. destruct S as (S1 & S2 & S3).
  assert (Hmpos : 0 <= m).
  { destruct (Z_lt_le_dec m 0) as [Hn | Hn]; [| exact Hn].
    assert (0 <= Z.abs (Dec.coef a) * 10 ^ p)
      by (apply Z.mul_nonneg_nonneg; [lia | apply Z.pow_nonneg; lia]).
    nia. }
  rewrite fix_exact.
  2:{ split.
      - rewrite !Z.abs_mul.
        assert (A1 : Z.abs (Z.sgn (Dec.coef a)) = 1) by lia.
        assert (B1 : Z.abs (Z.sgn (Dec.coef b)) = 1) by lia.
        rewrite A1, B1. lia.
      - unfold Dec.Etiny, Dec.Etop, Dec.Emin, Dec.Emax, Dec.prec in *. lia. }
  eexists. split; [reflexivity |]. cbn [Dec.coef Dec.exp].
  split; [| split].
  - unfold Dec.val. cbn [Dec.coef Dec.exp].
    (* c' * 10^(e' - (ideal - p)) = m and |a| * 10^p = m * |b| *)
    assert (E : (inject_Z c' * Dec.pow10 e' * inject_Z (Z.abs (Dec.coef b))
                 * Dec.pow10 (Dec.exp b)
                 == inject_Z (Z.abs (Dec.coef a)) * Dec.pow10 (Dec.exp a))%Q).
    { replace (Dec.exp a) with ((ideal - p) + p + Dec.exp b) by (subst ideal; lia).
      rewrite !pow10_add. rewrite (pow10_nonneg_exp p) by lia.
      replace e' with ((ideal - p) + (e' - (ideal - p))) by lia.
      rewrite pow10_add_nonneg by lia.
      transitivity (inject_Z (c' * 10 ^ (e' - (ideal - p)) * Z.abs (Dec.coef b))
                    * Dec.pow10 (ideal - p) * Dec.pow10 (Dec.exp b))%Q.
      { rewrite !inject_Z_mult. ring. }
      rewrite S1, <- Hm. rewrite inject_Z_mult. ring. }
    setoid_replace (inject_Z (Dec.coef a))
      with (inject_Z (Z.sgn (Dec.coef a)) * inject_Z (Z.abs (Dec.coef a)))%Q
      by (rewrite <- inject_Z_mult, sgn_mul_abs; reflexivity).
    setoid_replace (inject_Z (Dec.coef b))
      with (inject_Z (Z.sgn (Dec.coef b)) * inject_Z (Z.abs (Dec.coef b)))%Q
      by (rewrite <- inject_Z_mult, sgn_mul_abs; reflexivity).
    rewrite !inject_Z_mult.
    assert (Sb : (inject_Z (Z.sgn (Dec.coef b)) * inject_Z (Z.sgn (Dec.coef b)) == 1)%Q).
    { rewrite <- inject_Z_mult. 
      replace (Z.sgn (Dec.coef b) * Z.sgn (Dec.coef b)) with 1 by nia.
      reflexivity. }
    transitivity (inject_Z (Z.sgn (Dec.coef a))
                  * (inject_Z (Z.sgn (Dec.coef b)) * inject_Z (Z.sgn (Dec.coef b)))
                  * (inject_Z c' * Dec.pow10 e' * inject_Z (Z.abs (Dec.coef b))
                     * Dec.pow10 (Dec.exp b)))%Q.
    { ring. }
    rewrite Sb, E. ring.
  - rewrite !Z.abs_mul.
    assert (A1 : Z.abs (Z.sgn (Dec.coef a)) = 1) by lia.
    assert (B1 : Z.abs (Z.sgn (Dec.coef b)) = 1) by lia.
    rewrite A1, B1. lia.
  - lia.
Qed.

End Division.

Section Comparison.

Local Open Scope Q_scope.

(** A decimal at a smaller exponent. *)
Lemma val_aligned (d : Decimal) (e : Z) :
  (e <= Dec.exp d)%Z ->
  Dec.val d == inject_Z (Dec.coef d * 10 ^ (Dec.exp d - e)) * Dec.pow10 e.
Proof.
  intro H. unfold Dec.val.
  replace (Dec.exp d) with (e + (Dec.exp d - e))%Z at 1 by lia.
  rewrite pow10_add_nonneg by lia. rewrite inject_Z_mult. ring.
Qed.

Lemma cmp_val (a b : Decimal) :
  Dec.cmp a b = (Dec.val a ?= Dec.val b).
Proof.
  unfold Dec.cmp.
  set (e := Z.min (Dec.exp a) (Dec.exp b)).
  rewrite (Qcompare_comp _ _ (val_aligned a e ltac:(subst e; lia))
                         _ _ (val_aligned b e ltac:(subst e; lia))).
  set (x := (Dec.coef a * 10 ^ (Dec.exp a - e))%Z).
  set (y := (Dec.coef b * 10 ^ (Dec.exp b - e))%Z).
  pose proof (pow10_pos e) as P.
  destruct (Z.compare_spec x y) as [E | L | G]; symmetry.
  - apply Qeq_alt. rewrite E. reflexivity.
  - apply Qlt_alt. rewrite Zlt_Qlt in L. apply Qmult_lt_r; assumption.
  - apply Qgt_alt. rewrite Zlt_Qlt in G. apply Qmult_lt_r; assumption.
Qed.

Lemma ltb_val (a b : Decimal) : Dec.ltb a b = true <-> Dec.val a < Dec.val b.
Proof.
  unfold Dec.ltb. rewrite cmp_val, Qlt_alt.
  destruct (Dec.val a ?= Dec.val b); split; congruence.
Qed.

Lemma ltb_val_false (a b : Decimal) :
  Dec.ltb a b = false <-> Dec.val b <= Dec.val a.
Proof.
  rewrite <- not_true_iff_false, ltb_val. split; intro H; lra.
Qed.

Lemma leb_val (a b : Decimal) : Dec.leb a b = true <-> Dec.val a <= Dec.val b.
Proof.
  unfold Dec.leb. rewrite cmp_val, Qle_alt.
  destruct (Dec.val a ?= Dec.val b); split; congruence.
Qed.

Lemma eqb_val (a b : Decimal) : Dec.eqb a b = true <-> Dec.val a == Dec.val b.
Proof.
  unfold Dec.eqb. rewrite cmp_val, Qeq_alt.
  destruct (Dec.val a ?= Dec.val b); split; congruence.
Qed.

End Comparison.

Section DivisionByConstants.

Local Open Scope Q_scope.

Lemma len_int_le (d : Decimal) (k : Z) :
  (1 <= k)%Z -> (Z.abs (Dec.coef d) < 10 ^ k)%Z -> (Dec.len_int d <= k)%Z.
Proof. intros. unfold Dec.len_int. apply ndigits_le; assumption. Qed.

(** [d / 2] *)
Lemma div_two (d : Decimal) :
  (5 * Z.abs (Dec.coef d) < 10 ^ 28)%Z ->
  (Dec.Etiny + 1 <= Dec.exp d <= Dec.Etop)%Z ->
  exists q, Dec.div d (Dec.of_int 2) = inr q
    /\ Dec.val q * 2 == Dec.val d
    /\ (Z.abs (Dec.coef q) <= 5 * Z.abs (Dec.coef d))%Z
    /\ (Dec.exp d - 1 <= Dec.exp q <= Dec.exp d)%Z.
Proof.
  intros Hc He.
  destruct (Z.eq_dec (Dec.coef d) 0) as [Hz | Hnz].
  - exists (Dec.mk 0 (Dec.exp d)).
    unfold Dec.div, Dec.is_zero. rewrite Hz. cbn [Dec.of_int Dec.coef Dec.exp Z.eqb].
    rewrite Z.sub_0_r. rewrite fix_exact.
    2:{ split; [reflexivity |].
        unfold Dec.Etiny, Dec.Etop, Dec.Emin, Dec.Emax, Dec.prec in *. lia. }
    split; [reflexivity |]. unfold Dec.val. cbn [Dec.coef Dec.exp].
    rewrite Hz. split; [ring |]. cbn. lia.
  - pose proof (len_int_le d 28 ltac:(lia) ltac:(lia)) as Hl.
    assert (Hp : (0 <= 1 <= Dec.len_int (Dec.of_int 2) - Dec.len_int d + Dec.prec + 1)%Z).
    { change (Dec.len_int (Dec.of_int 2)) with 1%Z. unfold Dec.prec. lia. }
    destruct (div_exact d (Dec.of_int 2) 1%Z (5 * Z.abs (Dec.coef d))%Z Hnz
                ltac:(discriminate) Hp)
      as (q & E & V & C & X).
    { cbn [Dec.of_int Dec.coef]. change (10 ^ 1)%Z with 10%Z.
      change (Z.abs 2) with 2%Z. lia. }
    { exact Hc. }
    { cbn [Dec.of_int Dec.exp]. lia. }
    { cbn [Dec.of_int Dec.exp]. lia. }
    exists q. split; [exact E |].
    rewrite val_of_int in V. change (inject_Z 2) with 2 in V.
    cbn [Dec.of_int Dec.coef Dec.exp] in X. repeat split; try lia.
    exact V.
Qed.

(** [d / 100] *)
Lemma div_hundred (d : Decimal) :
  (Z.abs (Dec.coef d) < 10 ^ 28)%Z ->
  (Dec.Etiny + 2 <= Dec.exp d <= Dec.Etop)%Z ->
  exists q, Dec.div d (Dec.of_int 100) = inr q
    /\ Dec.val q * 100 == Dec.val d
    /\ (Z.abs (Dec.coef q) <= Z.abs (Dec.coef d))%Z
    /\ (Dec.exp d - 2 <= Dec.exp q <= Dec.exp d)%Z.
Proof.
  intros Hc He.
  destruct (Z.eq_dec (Dec.coef d) 0) as [Hz | Hnz].
  - exists (Dec.mk 0 (Dec.exp d)).
    unfold Dec.div, Dec.is_zero. rewrite Hz. cbn [Dec.of_int Dec.coef Dec.exp Z.eqb].
    rewrite Z.sub_0_r. rewrite fix_exact.
    2:{ split; [reflexivity |].
        unfold Dec.Etiny, Dec.Etop, Dec.Emin, Dec.Emax, Dec.prec in *. lia. }
    split; [reflexivity |]. unfold Dec.val. cbn [Dec.coef Dec.exp].
    rewrite Hz. split; [ring |]. cbn. lia.
  - pose proof (len_int_le d 28 ltac:(lia) ltac:(lia)) as Hl.
    assert (Hp : (0 <= 2 <= Dec.len_int (Dec.of_int 100) - Dec.len_int d + Dec.prec + 1)%Z).
    { change (Dec.len_int (Dec.of_int 100)) with 3%Z. unfold Dec.prec. lia. }
    destruct (div_exact d (Dec.of_int 100) 2%Z (Z.abs (Dec.coef d)) Hnz
                ltac:(discriminate) Hp)
      as (q & E & V & C & X).
    { cbn [Dec.of_int Dec.coef]. change (10 ^ 2)%Z with 100%Z.
      change (Z.abs 100) with 100%Z. lia. }
    { exact Hc. }
    { cbn [Dec.of_int Dec.exp]. lia. }
    { cbn [Dec.of_int Dec.exp]. lia. }
    exists q. split; [exact E |].
    rewrite val_of_int in V. change (inject_Z 100) with 100 in V.
    cbn [Dec.of_int Dec.coef Dec.exp] in X. repeat split; try lia.
    exact V.
Qed.

End DivisionByConstants.

Section TaxAtRate.

Local Open Scope Q_scope.

Lemma val_abs_lt (c e k j : Z) :
  (Z.abs c < 10 ^ k)%Z -> (0 <= k)%Z -> (e <= j)%Z ->
  Qabs (Dec.val (Dec.mk c e)) < Dec.pow10 (k + j).
Proof.
  intros Hc Hk He. rewrite Qabs_val, pow10_add.
  rewrite (pow10_nonneg_exp k) by exact Hk.
  pose proof (pow10_le_mono e j He) as M. pose proof (pow10_pos e) as P.
  rewrite Zlt_Qlt in Hc.
  assert (0 <= inject_Z (Z.abs c)).
  { change 0 with (inject_Z 0). rewrite <- Zle_Qle. lia. }
  nra.
Qed.

Lemma val_nonneg (c e : Z) : (0 <= c)%Z -> 0 <= Dec.val (Dec.mk c e).
Proof.
  intro H. apply Qle_bool_iff. rewrite val_sign. apply Z.leb_le. exact H.
Qed.

(** [(t * r / 100).quantize(Decimal('0.01'), rounding=ROUND_HALF_UP)], step
    by step. *)
Lemma percent_steps (t r : Decimal) :
  in_context (Dec.coef t * Dec.coef r) (Dec.exp t + Dec.exp r) ->
  (Dec.Etiny + 2 <= Dec.exp t + Dec.exp r)%Z ->
  Qabs (Dec.val t * Dec.val r) < Dec.pow10 27 ->
  exists q,
    Dec.mul t r = inr (Dec.mk (Dec.coef t * Dec.coef r) (Dec.exp t + Dec.exp r))
    /\ Dec.div (Dec.mk (Dec.coef t * Dec.coef r) (Dec.exp t + Dec.exp r))
         (Dec.of_int 100) = inr q
    /\ quantize2 q = inr (cents (half_up_cents (Dec.val t * Dec.val r / 100))).
Proof.
  intros Hctx Hlo Hv.
  set (p := Dec.mk (Dec.coef t * Dec.coef r) (Dec.exp t + Dec.exp r)).
  destruct (div_hundred p) as (q & E & V & _ & _).
  { exact (proj1 Hctx). }
  { cbn [p Dec.exp]. destruct Hctx as [_ H]. lia. }
  exists q. split; [apply mul_exact, Hctx |]. split; [exact E |].
  assert (Vq : Dec.val q == Dec.val t * Dec.val r / 100).
  { rewrite <- val_mul. fold p. rewrite <- V. field. }
  rewrite quantize2_val.
  - rewrite (half_up_cents_comp _ _ Vq). reflexivity.
  - rewrite Vq. change (Dec.pow10 27) with (Dec.pow10 25 * 100) in Hv.
    apply Qabs_Qlt_condition in Hv. apply Qabs_Qlt_condition.
    pose proof (pow10_pos 25).
    split; [apply Qlt_shift_div_l | apply Qlt_shift_div_r]; lra.
Qed.

(** Bounds on the rounded hundredths of a non-negative number. *)
Lemma half_up_cents_bound (x : Q) (n : Z) :
  0 <= x -> x * 100 <= inject_Z n ->
  (0 <= half_up_cents x <= n)%Z.
Proof.
  intros Hx Hn. destruct (half_up_cents_nonneg x Hx) as (H0 & L & U).
  split; [exact H0 |].
  assert (A : (half_up_cents x < n + 1)%Z).
  { rewrite Zlt_Qlt, inject_Z_plus. change (inject_Z 1) with 1. lra. }
  lia.
Qed.

End TaxAtRate.

Section Breakdown.

Local Open Scope Q_scope.

Lemma val_add_aligned (a b : Decimal) :
  let e := Z.min (Dec.exp a) (Dec.exp b) in
  Dec.val (Dec.mk (Dec.coef a * 10 ^ (Dec.exp a - e)
                   + Dec.coef b * 10 ^ (Dec.exp b - e)) e)
  == Dec.val a + Dec.val b.
Proof.
  intro e.
  rewrite (val_aligned a e) by (subst e; lia).
  rewrite (val_aligned b e) by (subst e; lia).
  unfold Dec.val. cbn [Dec.coef Dec.exp]. rewrite inject_Z_plus. ring.
Qed.

Lemma rate_in_range_val (r : Decimal) :
  rate_in_range r = true <-> 0 <= Dec.val r <= 100.
Proof.
  unfold rate_in_range. rewrite negb_true_iff, orb_false_iff.
  rewrite !ltb_val_false, !val_of_int.
  change (inject_Z 0) with 0. change (inject_Z 100) with 100. tauto.
Qed.

Lemma amount_ok_val (t : Decimal) :
  amount_ok t -> 0 <= Dec.val t /\ Dec.val t < Dec.pow10 20.
Proof.
  intros [Hc He]. destruct t as [c e]. cbn [Dec.coef Dec.exp] in *.
  split; [apply val_nonneg; lia |].
  pose proof (val_abs_lt c e 18 2 ltac:(lia) ltac:(lia) ltac:(lia)) as H.
  apply Qabs_Qlt_condition in H. exact (proj2 H).
Qed.

(** Adding a tax of [m] hundredths to the taxable amount and quantizing. *)
Lemma add_tax_quantize (t : Decimal) (m : Z) :
  amount_ok t -> (0 <= m <= 10 ^ 23)%Z ->
  exists s, Dec.add t (cents m) = inr s
    /\ quantize2 s = inr (cents (half_up_cents (Dec.val t + Dec.val (cents m)))).
Proof.
  intros Ht Hm. pose proof (amount_ok_val t Ht) as [V0 V1].
  destruct Ht as [Hc He].
  set (e := Z.min (Dec.exp t) (Dec.exp (cents m))).
  set (s := (Dec.coef t * 10 ^ (Dec.exp t - e)
             + Dec.coef (cents m) * 10 ^ (Dec.exp (cents m) - e))%Z).
  assert (P1 : (0 < 10 ^ (Dec.exp t - e) <= 10 ^ 4)%Z).
  { split; [apply Z.pow_pos_nonneg; subst e; lia |].
    apply Z.pow_le_mono_r; [lia |]. subst e. cbn [cents Dec.exp]. lia. }
  assert (P2 : (0 < 10 ^ (Dec.exp (cents m) - e) <= 10 ^ 4)%Z).
  { split; [apply Z.pow_pos_nonneg; subst e; lia |].
    apply Z.pow_le_mono_r; [lia |]. subst e. cbn [cents Dec.exp]. lia. }
  assert (Hs : (0 <= s < 10 ^ 28)%Z).
  { subst s. cbn [cents Dec.coef].
    change (10 ^ 4)%Z with 10000%Z in *.
    change (10 ^ 18)%Z with 1000000000000000000%Z in *.
    change (10 ^ 23)%Z with 100000000000000000000000%Z in *.
    change (10 ^ 28)%Z with 10000000000000000000000000000%Z.
    nia. }
  exists (Dec.mk s e). split.
  - apply add_nonneg; try assumption.
    + lia.
    + cbn [cents Dec.coef]. lia.
    + split; [fold e; fold s; lia |].
      fold e. subst e. cbn [cents Dec.exp].
      unfold Dec.Etiny, Dec.Etop, Dec.Emin, Dec.Emax, Dec.prec. lia.
    + cbn [cents Dec.exp]. unfold Dec.prec. lia.
  - pose proof (val_add_aligned t (cents m)) as VA. cbv zeta in VA.
    fold e in VA. fold s in VA.
    rewrite quantize2_val.
    + rewrite (half_up_cents_comp _ _ VA). reflexivity.
    + rewrite VA. rewrite val_cents.
      assert (M : inject_Z m <= inject_Z (10 ^ 23)) by (rewrite <- Zle_Qle; lia).
      assert (M0 : 0 <= inject_Z m).
      { change 0 with (inject_Z 0). rewrite <- Zle_Qle. lia. }
      change (Dec.pow10 20) with (inject_Z (10 ^ 20)) in V1.
      change (inject_Z (10 ^ 23)) with (inject_Z (10 ^ 20) * 1000) in M.
      change (Dec.pow10 25) with (inject_Z (10 ^ 20) * 100000).
      assert (X : 1 <= inject_Z (10 ^ 20)).
      { change 1 with (inject_Z 1). rewrite <- Zle_Qle.
        apply Z.leb_le. vm_compute. reflexivity. }
      apply Qabs_Qlt_condition. split.
      * apply Qlt_le_trans with 0; [lra |].
        assert (0 <= inject_Z m / 100) by (apply Qle_shift_div_l; lra). lra.
      * assert (inject_Z m / 100 <= inject_Z (10 ^ 20) * 10)
          by (apply Qle_shift_div_r; lra).
        lra.
Qed.

End Breakdown.

Section BreakdownOk.

Local Open Scope Q_scope.

Lemma amount_not_negative (t : Decimal) :
  amount_ok t -> Dec.ltb t (Dec.of_int 0) = false.
Proof.
  intro H. apply ltb_val_false. rewrite val_of_int.
  change (inject_Z 0) with 0. exact (proj1 (amount_ok_val t H)).
Qed.

(** The tax on an amount at a rate [h] of at most 100 percent. *)
Lemma tax_steps (t h : Decimal) :
  amount_ok t ->
  (Z.abs (Dec.coef h) < 5 * 10 ^ 9)%Z -> (-7 <= Dec.exp h <= 2)%Z ->
  0 <= Dec.val h <= 100 ->
  exists q,
    Dec.mul t h = inr (Dec.mk (Dec.coef t * Dec.coef h) (Dec.exp t + Dec.exp h))
    /\ Dec.div (Dec.mk (Dec.coef t * Dec.coef h) (Dec.exp t + Dec.exp h))
         (Dec.of_int 100) = inr q
    /\ quantize2 q = inr (cents (half_up_cents (Dec.val t * Dec.val h / 100)))
    /\ (0 <= half_up_cents (Dec.val t * Dec.val h / 100) <= 10 ^ 22)%Z.
Proof.
  intros Ht Hc He Hv. pose proof (amount_ok_val t Ht) as [V0 V1].
  destruct Ht as [Htc Hte].
  destruct (percent_steps t h) as (q & E1 & E2 & E3).
  - split.
    + rewrite Z.abs_mul. rewrite (Z.abs_eq (Dec.coef t)) by lia.
      change (10 ^ 18)%Z with 1000000000000000000%Z in *.
      change (10 ^ 9)%Z with 1000000000%Z in *.
      change (10 ^ 28)%Z with 10000000000000000000000000000%Z.
      nia.
    + unfold Dec.Etiny, Dec.Etop, Dec.Emin, Dec.Emax, Dec.prec. lia.
  - unfold Dec.Etiny, Dec.Emin, Dec.prec. lia.
  - change (Dec.pow10 27) with (Dec.pow10 20 * 10000000).
    pose proof (pow10_pos 20). apply Qabs_Qlt_condition. split; nra.
  - exists q. split; [exact E1 |]. split; [exact E2 |]. split; [exact E3 |].
    apply half_up_cents_bound.
    + apply Qle_shift_div_l; [lra |]. nra.
    + change (Dec.pow10 20) with (inject_Z (10 ^ 20)) in V1.
      change (inject_Z (10 ^ 22)) with (inject_Z (10 ^ 20) * 100).
      assert (E : Dec.val t * Dec.val h / 100 * 100 == Dec.val t * Dec.val h)
        by field.
      rewrite E. nra.
Qed.

Lemma rate_ok_tax (r : Decimal) :
  rate_ok r -> (Z.abs (Dec.coef r) < 5 * 10 ^ 9)%Z /\ (-7 <= Dec.exp r <= 2)%Z.
Proof. intros [Hc He]. split; lia. Qed.

(** Half the rate. *)
Lemma half_rate_steps (r : Decimal) :
  rate_ok r -> 0 <= Dec.val r <= 100 ->
  exists h, Dec.div r (Dec.of_int 2) = inr h
    /\ Dec.val h == Dec.val r / 2
    /\ (Z.abs (Dec.coef h) < 5 * 10 ^ 9)%Z /\ (-7 <= Dec.exp h <= 2)%Z
    /\ 0 <= Dec.val h <= 100.
Proof.
  intros [Hc He] Hv.
  destruct (div_two r) as (h & E & V & C & X).
  { change (10 ^ 28)%Z with 10000000000000000000000000000%Z.
    change (10 ^ 9)%Z with 1000000000%Z in *. lia. }
  { unfold Dec.Etiny, Dec.Etop, Dec.Emin, Dec.Emax, Dec.prec. lia. }
  exists h. split; [exact E |].
  assert (Vh : Dec.val h == Dec.val r / 2) by (rewrite <- V; field).
  split; [exact Vh |]. split; [lia |]. split; [lia |].
  rewrite Vh. split; [apply Qle_shift_div_l | apply Qle_shift_div_r]; lra.
Qed.

End BreakdownOk.

Section BreakdownResult.

Local Open Scope Q_scope.

Lemma breakdown_interstate (t r : Decimal) :
  amount_ok t -> rate_ok r -> rate_in_range r = true ->
  let igst := half_up_cents (Dec.val t * Dec.val r / 100) in
  GSTCalculator.calculate_gst_breakdown t r true
  = inr (GSTCalculator.mkBreakdown t r GSTCalculator.zero GSTCalculator.zero r
           GSTCalculator.zero GSTCalculator.zero (cents igst) (cents igst)
           (cents (half_up_cents (Dec.val t + Dec.val (cents igst))))
           GSTCalculator.IGST)
  /\ (0 <= igst <= 10 ^ 22)%Z.
Proof.
  intros Ht Hr Hrange igst.
  unfold GSTCalculator.calculate_gst_breakdown.
  rewrite (amount_not_negative t Ht).
  unfold rate_in_range in Hrange. apply negb_true_iff in Hrange.
  rewrite Hrange.
  apply negb_true_iff in Hrange. fold (rate_in_range r) in Hrange.
  apply rate_in_range_val in Hrange.
  destruct (rate_ok_tax r Hr) as [Hc He].
  destruct (tax_steps t r Ht Hc He Hrange) as (q & E1 & E2 & E3 & B).
  fold igst in E3, B.
  rewrite E1. cbn [bind]. rewrite E2. cbn [bind]. rewrite E3. cbn [bind].
  destruct (add_tax_quantize t igst Ht) as (s & E4 & E5).
  { change (10 ^ 22)%Z with 10000000000000000000000%Z in B.
    change (10 ^ 23)%Z with 100000000000000000000000%Z. lia. }
  rewrite E4. cbn [bind]. rewrite E5. cbn [bind].
  split; [reflexivity | exact B].
Qed.

Lemma breakdown_intrastate (t r : Decimal) :
  amount_ok t -> rate_ok r -> rate_in_range r = true ->
  let half := half_up_cents (Dec.val t * (Dec.val r / 2) / 100) in
  exists h,
    Dec.div r (Dec.of_int 2) = inr h
    /\ Dec.val h == Dec.val r / 2
    /\ GSTCalculator.calculate_gst_breakdown t r false
       = inr (GSTCalculator.mkBreakdown t r h h GSTCalculator.zero
                (cents half) (cents half) GSTCalculator.zero
                (cents (half + half))
                (cents (half_up_cents
                          (Dec.val t + Dec.val (cents (half + half)))))
                GSTCalculator.CGST_SGST)
    /\ (0 <= half <= 10 ^ 22)%Z.
Proof.
  intros Ht Hr Hrange half.
  unfold GSTCalculator.calculate_gst_breakdown.
  rewrite (amount_not_negative t Ht).
  unfold rate_in_range in Hrange. apply negb_true_iff in Hrange.
  rewrite Hrange.
  apply negb_true_iff in Hrange. fold (rate_in_range r) in Hrange.
  apply rate_in_range_val in Hrange.
  destruct (half_rate_steps r Hr Hrange) as (h & E0 & Vh & Hc & He & Hv).
  destruct (tax_steps t h Ht Hc He Hv) as (q & E1 & E2 & E3 & B).
  assert (Em : half_up_cents (Dec.val t * Dec.val h / 100) = half).
  { apply half_up_cents_comp. rewrite Vh. reflexivity. }
  rewrite Em in E3, B.
  exists h. split; [exact E0 |]. split; [exact Vh |].
  rewrite E0. cbn [bind]. rewrite E1. cbn [bind]. rewrite E2. cbn [bind].
  rewrite E3. cbn [bind].
  unfold cents at 1 2. rewrite add_same_exp.
  2:{ split; [| unfold Dec.Etiny, Dec.Etop, Dec.Emin, Dec.Emax, Dec.prec; lia].
      change (10 ^ 22)%Z with 10000000000000000000000%Z in B.
      change (10 ^ 28)%Z with 10000000000000000000000000000%Z. lia. }
  cbn [bind]. fold (cents (half + half)). fold (cents half).
  destruct (add_tax_quantize t (half + half) Ht) as (s & E4 & E5).
  { change (10 ^ 22)%Z with 10000000000000000000000%Z in B.
    change (10 ^ 23)%Z with 100000000000000000000000%Z. lia. }
  rewrite E4. cbn [bind]. rewrite E5. cbn [bind].
  split; [reflexivity | exact B].
Qed.

End BreakdownResult.

Section ArithmeticErrors.

Lemma bind_inl {A B : Type} (m : result A) (f : A -> result B) (e : exn) :
  bind m f = inl e -> m = inl e \/ exists a, m = inr a /\ f a = inl e.
Proof.
  destruct m as [e' | a]; cbn [bind]; intro H.
  - left. injection H as ->. reflexivity.
  - right. exists a. split; [reflexivity | exact H].
Qed.

Lemma bind_inr {A B : Type} (m : result A) (f : A -> result B) (b : B) :
  bind m f = inr b -> exists a, m = inr a /\ f a = inr b.
Proof.
  destruct m as [e' | a]; cbn [bind]; intro H.
  - discriminate H.
  - exists a. split; [reflexivity | exact H].
Qed.

Lemma fix_error (d : Decimal) (e : exn) : Dec._fix d = inl e -> arith_error e.
Proof.
  unfold Dec._fix, arith_error.
  destruct (Dec.is_zero d); [discriminate |].
  destruct (_ <? _); [intro H; injection H as <-; tauto |].
  destruct (_ <? _); [| discriminate].
  destruct (Dec.round_half_even_changed _ _); [destruct (_ <? _) |];
    destruct (_ <? _); intro H; try discriminate H;
    injection H as <-; tauto.
Qed.

Lemma mul_error (a b : Decimal) (e : exn) : Dec.mul a b = inl e -> arith_error e.
Proof. apply fix_error. Qed.

Lemma add_error (a b : Decimal) (e : exn) : Dec.add a b = inl e -> arith_error e.
Proof.
  unfold Dec.add.
  destruct (Dec.is_zero a && Dec.is_zero b); [apply fix_error |].
  destruct (Dec.is_zero a); [apply fix_error |].
  destruct (Dec.is_zero b); [apply fix_error |].
  destruct (Dec._normalize a b) as [op1 op2].
  destruct (_ =? _); apply fix_error.
Qed.

Lemma sub_error (a b : Decimal) (e : exn) : Dec.sub a b = inl e -> arith_error e.
Proof. apply add_error. Qed.

Lemma div_error (a b : Decimal) (e : exn) : Dec.div a b = inl e -> arith_error e.
Proof.
  unfold Dec.div.
  destruct (Dec.is_zero b).
  { destruct (Dec.is_zero a); intro H; injection H as <-;
      unfold arith_error; tauto. }
  destruct (Dec.is_zero a); [apply fix_error |].
  match goal with |- (let '(_, _) := ?x in _) = _ -> _ => destruct x end.
  apply fix_error.
Qed.

Lemma quantize_error (d : Decimal) (k : Z) (r : Dec.rounding) (e : exn) :
  Dec.quantize d k r = inl e -> arith_error e.
Proof.
  unfold Dec.quantize.
  repeat match goal with
         | |- (if ?c then _ else _) = _ -> _ => destruct c
         end;
    try apply fix_error;
    intro H; injection H as <-; unfold arith_error; tauto.
Qed.

Lemma arith_error_not_value (e : exn) (msg : string) :
  arith_error e -> e <> ValueError msg.
Proof. intros [-> | [-> | ->]]; discriminate. Qed.

End ArithmeticErrors.

(** ** [calculate_gst_breakdown] *)

Ltac chain_error H :=
  repeat (apply bind_inl in H;
          destruct H as [H | (? & _ & H)];
          [ first [ apply mul_error in H | apply div_error in H
                  | apply add_error in H | apply sub_error in H
                  | apply quantize_error in H ];
            exact H | ]).

Lemma breakdown_error (t r : Decimal) (inter : bool) (e : exn) :
  GSTCalculator.calculate_gst_breakdown t r inter = inl e ->
  (exists msg, e = ValueError msg
     /\ (Dec.ltb t (Dec.of_int 0) = true \/ rate_in_range r = false))
  \/ arith_error e.
Proof.
  unfold GSTCalculator.calculate_gst_breakdown, rate_in_range, quantize2.
  destruct (Dec.ltb t (Dec.of_int 0)).
  { intro H. injection H as <-. left. eexists. split; [reflexivity | tauto]. }
  destruct (Dec.ltb r (Dec.of_int 0) || Dec.ltb (Dec.of_int 100) r).
  { intro H. injection H as <-. left. eexists. split; [reflexivity | tauto]. }
  destruct inter; intro H; right; chain_error H; discriminate H.
Qed.

Lemma val_rounded2 (x : Q) : (Dec.val (rounded2 x) == round2 x)%Q.
Proof. unfold rounded2, round2. apply val_cents. Qed.

(** C6, as stated, fails: a taxable amount of 10^27 at 18 percent is neither
    negative nor out of range, yet the call raises the decimal module's
    InvalidOperation (the total needs more than the 28 digits of the
    context) instead of returning. *)
Lemma C6_counterexample :
  Dec.ltb huge_amount (Dec.of_int 0) = false
  /\ rate_in_range (Dec.of_int 18) = true
  /\ GSTCalculator.calculate_gst_breakdown huge_amount (Dec.of_int 18) false
     = inl InvalidOperation.
Proof. repeat split; vm_compute; reflexivity. Qed.

(** C6 (amended): [calculate_gst_breakdown] raises ValueError exactly when the
    taxable amount is negative or the rate lies outside [0,100].  For the other
    inputs within the decimal context (a non-negative amount below 10^20 and a
    rate, each with at most six decimals) it returns with IGST
    [round2(taxable*rate/100)] and no CGST/SGST when interstate, with
    CGST = SGST = [round2(taxable*rate/2/100)] and no IGST when intrastate,
    and with total amount [round2(taxable + total tax)]. *)
Theorem C6_gst_breakdown :
  forall (t r : Decimal) (inter : bool),
    ((exists msg, GSTCalculator.calculate_gst_breakdown t r inter
                  = inl (ValueError msg))
     <-> (Dec.val t < 0 \/ Dec.val r < 0 \/ 100 < Dec.val r)%Q)
    /\ (amount_ok t -> rate_ok r -> (0 <= Dec.val r <= 100)%Q ->
        exists b,
          GSTCalculator.calculate_gst_breakdown t r inter = inr b
          /\ GSTCalculator.taxable_amount b = t
          /\ (if inter
              then GSTCalculator.igst_amount b
                   = rounded2 (Dec.val t * Dec.val r / 100)
                   /\ GSTCalculator.cgst_amount b = Dec.of_int 0
                   /\ GSTCalculator.sgst_amount b = Dec.of_int 0
                   /\ GSTCalculator.total_tax b = GSTCalculator.igst_amount b
              else GSTCalculator.cgst_amount b
                   = rounded2 (Dec.val t * Dec.val r / 2 / 100)
                   /\ GSTCalculator.sgst_amount b = GSTCalculator.cgst_amount b
                   /\ GSTCalculator.igst_amount b = Dec.of_int 0
                   /\ (Dec.val (GSTCalculator.total_tax b)
                       == Dec.val (GSTCalculator.cgst_amount b)
                          + Dec.val (GSTCalculator.sgst_amount b))%Q)
          /\ GSTCalculator.total_amount b
             = rounded2 (Dec.val t + Dec.val (GSTCalculator.total_tax b))).
Proof.
  intros t r inter. split.
  - split.
    + intros [msg H]. apply breakdown_error in H.
      destruct H as [(msg' & _ & [Ht | Hr]) | Ha].
      * left. apply ltb_val in Ht. rewrite val_of_int in Ht. exact Ht.
      * right. unfold rate_in_range in Hr. apply negb_false_iff in Hr.
        apply orb_true_iff in Hr. destruct Hr as [Hr | Hr];
          apply ltb_val in Hr; rewrite val_of_int in Hr; [left | right]; exact Hr.
      * exfalso. exact (arith_error_not_value _ msg Ha eq_refl).
    + intro H. unfold GSTCalculator.calculate_gst_breakdown.
      destruct (Dec.ltb t (Dec.of_int 0)) eqn:Ht; [eexists; reflexivity |].
      destruct (Dec.ltb r (Dec.of_int 0) || Dec.ltb (Dec.of_int 100) r) eqn:Hr;
        [eexists; reflexivity |].
      exfalso. apply ltb_val_false in Ht. rewrite val_of_int in Ht.
      apply orb_false_iff in Hr. destruct Hr as [Hr1 Hr2].
      apply ltb_val_false in Hr1, Hr2. rewrite val_of_int in Hr1, Hr2.
      change (inject_Z 0) with 0%Q in *. change (inject_Z 100) with 100%Q in *.
      destruct H as [H | [H | H]]; lra.
  - intros Ht Hr Hrange. apply rate_in_range_val in Hrange.
    destruct inter.
    + destruct (breakdown_interstate t r Ht Hr Hrange) as [E _].
      eexists. split; [exact E |]. cbn. repeat split; reflexivity.
    + destruct (breakdown_intrastate t r Ht Hr Hrange) as (h & _ & _ & E & _).
      eexists. split; [exact E |].
      cbn [GSTCalculator.taxable_amount GSTCalculator.cgst_amount
           GSTCalculator.sgst_amount GSTCalculator.igst_amount
           GSTCalculator.total_tax GSTCalculator.total_amount].
      split; [reflexivity |]. split; [| reflexivity].
      split; [| split; [reflexivity | split; [reflexivity |]]].
      * unfold rounded2. f_equal. apply half_up_cents_comp. field.
      * rewrite !val_cents, inject_Z_plus. field.
Qed.

(** C6 at taxable 1000.00 and 18 percent, intrastate. *)
Lemma C6_witness :
  exists b,
    GSTCalculator.calculate_gst_breakdown (cents 100000) (Dec.of_int 18) false
    = inr b
    /\ GSTCalculator.taxable_amount b = cents 100000.
Proof.
  destruct (proj2 (C6_gst_breakdown (cents 100000) (Dec.of_int 18) false))
    as (b & E & T & _).
  - unfold amount_ok. cbn [cents Dec.coef Dec.exp].
    split; [split; [lia | reflexivity] | lia].
  - unfold rate_ok. cbn [Dec.of_int Dec.coef Dec.exp].
    split; [split; [lia | reflexivity] | lia].
  - split; vm_compute; discriminate.
  - exists b. split; [exact E | exact T].
Defined.

(** ** Symmetry of the intrastate and interstate splits *)

Lemma breakdown_cgst_sgst (t r : Decimal) (b : GSTCalculator.breakdown) :
  GSTCalculator.calculate_gst_breakdown t r false = inr b ->
  GSTCalculator.cgst_amount b = GSTCalculator.sgst_amount b.
Proof.
  unfold GSTCalculator.calculate_gst_breakdown.
  destruct (Dec.ltb t (Dec.of_int 0)); [discriminate |].
  destruct (_ || _); [discriminate |].
  intro H.
  apply bind_inr in H. destruct H as (h & _ & H).
  apply bind_inr in H. destruct H as (p & Ep & H).
  apply bind_inr in H. destruct H as (q & Eq & H).
  apply bind_inr in H. destruct H as (c & Ec & H).
  rewrite Ep in H. cbn [bind] in H. rewrite Eq in H. cbn [bind] in H.
  rewrite Ec in H. cbn [bind] in H.
  apply bind_inr in H. destruct H as (x & _ & H).
  apply bind_inr in H. destruct H as (y & _ & H).
  apply bind_inr in H. destruct H as (z & _ & H).
  injection H as <-. reflexivity.
Qed.

(** Rounding a half and doubling it is within one hundredth of rounding the
    whole. *)
Lemma half_up_cents_double (x : Q) :
  (0 <= x)%Q ->
  -1 <= half_up_cents (x / 2) + half_up_cents (x / 2) - half_up_cents x <= 1.
Proof.
  intro Hx.
  assert (Hx2 : (0 <= x / 2)%Q) by (apply Qle_shift_div_l; lra).
  destruct (half_up_cents_nonneg x Hx) as (_ & L1 & U1).
  destruct (half_up_cents_nonneg (x / 2) Hx2) as (_ & L2 & U2).
  set (a := half_up_cents (x / 2)) in *. set (b := half_up_cents x) in *.
  assert (E : (x / 2 * 100 == x * 50)%Q) by field.
  rewrite E in L2, U2. clearbody a b.
  assert (A : (2 * (a + a - b) < 3)%Z).
  { rewrite Zlt_Qlt. unfold Z.sub. rewrite inject_Z_mult, !inject_Z_plus, inject_Z_opp.
    change (inject_Z 2) with 2%Q. change (inject_Z 3) with 3%Q. lra. }
  assert (B : (- 3 < 2 * (a + a - b))%Z).
  { rewrite Zlt_Qlt. unfold Z.sub. rewrite inject_Z_mult, !inject_Z_plus, inject_Z_opp.
    change (inject_Z 2) with 2%Q. change (inject_Z (-3)) with (-3)%Q. lra. }
  lia.
Qed.

(** C3, as stated, fails: for a taxable amount of 1 at 1 percent, CGST and
    SGST are 0.01 each (0.005 rounds up), their sum is 0.02, and the IGST of
    the interstate split is 0.01. *)
Lemma C3_counterexample :
  let intra :=
    GSTCalculator.calculate_gst_breakdown (Dec.of_int 1) (Dec.of_int 1) false in
  let inter :=
    GSTCalculator.calculate_gst_breakdown (Dec.of_int 1) (Dec.of_int 1) true in
  breakdown_field GSTCalculator.cgst_amount intra = inr (cents 1)
  /\ breakdown_field GSTCalculator.sgst_amount intra = inr (cents 1)
  /\ breakdown_field GSTCalculator.total_tax intra = inr (cents 2)
  /\ breakdown_field GSTCalculator.igst_amount inter = inr (cents 1)
  /\ Dec.add (cents 1) (cents 1) = inr (cents 2)
  /\ Dec.eqb (cents 2) (cents 1) = false.
Proof.
  cbv zeta. split; [| split; [| split; [| split; [| split]]]];
    vm_compute; reflexivity.
Qed.

(** C3 (amended): whenever the intrastate split returns, its CGST and SGST
    are equal.  For a non-negative amount below 10^20 and a rate in [0,100],
    each with at most six decimals, both splits return, and CGST + SGST
    differs from the IGST of the interstate split by at most 0.01: each half
    is rounded on its own. *)
Theorem C3_split_symmetry :
  forall t r : Decimal,
    (forall b, GSTCalculator.calculate_gst_breakdown t r false = inr b ->
               GSTCalculator.cgst_amount b = GSTCalculator.sgst_amount b)
    /\ (amount_ok t -> rate_ok r -> (0 <= Dec.val r <= 100)%Q ->
        exists b1 b2 c i,
          GSTCalculator.calculate_gst_breakdown t r false = inr b1
          /\ GSTCalculator.calculate_gst_breakdown t r true = inr b2
          /\ GSTCalculator.cgst_amount b1 = cents c
          /\ GSTCalculator.sgst_amount b1 = cents c
          /\ GSTCalculator.total_tax b1 = cents (c + c)
          /\ GSTCalculator.igst_amount b2 = cents i
          /\ -1 <= c + c - i <= 1).
Proof.
  intros t r. split; [intro b; apply breakdown_cgst_sgst |].
  intros Ht Hr Hrange.
  pose proof (proj1 (amount_ok_val t Ht)) as Ht0.
  apply rate_in_range_val in Hrange.
  destruct (breakdown_intrastate t r Ht Hr Hrange) as (h & _ & _ & E1 & _).
  destruct (breakdown_interstate t r Ht Hr Hrange) as [E2 _].
  apply rate_in_range_val in Hrange.
  do 4 eexists. split; [exact E1 |]. split; [exact E2 |].
  cbn [GSTCalculator.cgst_amount GSTCalculator.sgst_amount
       GSTCalculator.igst_amount GSTCalculator.total_tax].
  do 4 (split; [reflexivity |]).
  assert (Hx : (0 <= Dec.val t * Dec.val r / 100)%Q).
  { apply Qle_shift_div_l; [reflexivity |]. nra. }
  pose proof (half_up_cents_double _ Hx) as D.
  assert (E : half_up_cents (Dec.val t * Dec.val r / 100 / 2)
              = half_up_cents (Dec.val t * (Dec.val r / 2) / 100))
    by (apply half_up_cents_comp; field).
  rewrite E in D. exact D.
Qed.

(** C3 at taxable 1000.00 and 18 percent. *)
Lemma C3_witness :
  exists b1,
    GSTCalculator.calculate_gst_breakdown (cents 100000) (Dec.of_int 18) false
    = inr b1
    /\ GSTCalculator.cgst_amount b1 = GSTCalculator.sgst_amount b1.
Proof.
  destruct (proj2 (C3_split_symmetry (cents 100000) (Dec.of_int 18)))
    as (b1 & b2 & c & i & E1 & _ & Ec & Es & _).
  - unfold amount_ok. cbn [cents Dec.coef Dec.exp].
    split; [split; [lia | reflexivity] | lia].
  - unfold rate_ok. cbn [Dec.of_int Dec.coef Dec.exp].
    split; [split; [lia | reflexivity] | lia].
  - split; vm_compute; discriminate.
  - exists b1. split; [exact E1 | congruence].
Defined.

(** ** Amounts of two decimals *)

Lemma ndigits_lt_pow (n k : Z) : 0 <= n -> Dec.ndigits n <= k -> n < 10 ^ k.
Proof.
intros Hn Hk.
destruct (Z.eq_dec n 0) as [-> | Hnz].
- apply Z.pow_pos_nonneg; [lia |]. pose proof (ndigits_pos 0). lia.
- destruct (ndigits_spec n ltac:(lia)) as (H1 & _ & H3).
  eapply Z.lt_le_trans; [exact H3 |]. apply Z.pow_le_mono_r; lia.
Qed.

Lemma rescale_exp (d : Decimal) (e : Z) (r : Dec.rounding) :
  Dec.exp (Dec._rescale d e r) = e.
Proof.
unfold Dec._rescale. destruct (Dec.is_zero d); [reflexivity |].
destruct (e <=? Dec.exp d); reflexivity.
Qed.

(** What [quantize] returns has the exponent asked for and fits the
    context. *)
Lemma quantize2_inv (d x : Decimal) :
  quantize2 d = inr x -> exists n, x = cents n /\ Z.abs n < 10 ^ 28.
Proof.
unfold quantize2, Dec.quantize.
change ((Dec.Etiny <=? -2) && (-2 <=? Dec.Emax)) with true. cbn [negb].
assert (F0 : Dec._fix (Dec.mk 0 (-2)) = inr (cents 0)).
{ apply fix_exact. split; [reflexivity |].
  unfold Dec.Etiny, Dec.Etop, Dec.Emin, Dec.Emax, Dec.prec. lia. }
destruct (Dec.is_zero d).
{ rewrite F0. intro H. injection H as <-. exists 0. split; [reflexivity |].
  reflexivity. }
destruct (Dec.Emax <? Dec.adjusted d); [discriminate |].
destruct (Dec.prec <? Dec.adjusted d - -2 + 1); [discriminate |].
pose proof (rescale_exp d (-2) Dec.ROUND_HALF_UP) as He.
destruct (Dec._rescale d (-2) Dec.ROUND_HALF_UP) as [c e].
cbn [Dec.exp] in He. subst e.
destruct (Dec.Emax <? _); [discriminate |].
destruct (Dec.prec <? Dec.len_int (Dec.mk c (-2))) eqn:Hlen; [discriminate |].
apply Z.ltb_ge in Hlen. unfold Dec.len_int, Dec.prec in Hlen.
cbn [Dec.coef] in Hlen.
assert (Hc : Z.abs c < 10 ^ 28) by (apply ndigits_lt_pow; [lia | exact Hlen]).
rewrite fix_exact.
2:{ split; [exact Hc |].
    unfold Dec.Etiny, Dec.Etop, Dec.Emin, Dec.Emax, Dec.prec. lia. }
intro H. injection H as <-. exists c. split; [reflexivity | exact Hc].
Qed.

(** A two-decimal amount of at most 28 digits is left alone by [quantize]. *)
Lemma quantize2_cents (n : Z) :
  Z.abs n < 10 ^ 28 -> quantize2 (cents n) = inr (cents n).
Proof.
intro Hn. unfold quantize2, Dec.quantize.
change ((Dec.Etiny <=? -2) && (-2 <=? Dec.Emax)) with true. cbn [negb].
assert (Hctx : in_context n (-2)).
{ split; [exact Hn |].
  unfold Dec.Etiny, Dec.Etop, Dec.Emin, Dec.Emax, Dec.prec. lia. }
unfold Dec.is_zero, cents. cbn [Dec.coef].
destruct (n =? 0) eqn:Hz.
{ apply Z.eqb_eq in Hz. subst n. apply fix_exact. exact Hctx. }
apply Z.eqb_neq in Hz.
pose proof (ndigits_le (Z.abs n) 28 ltac:(lia) Hn) as Hd.
pose proof (ndigits_pos (Z.abs n)) as Hp.
assert (A1 : (Dec.Emax <? Dec.adjusted (Dec.mk n (-2))) = false).
{ apply Z.ltb_ge. unfold Dec.adjusted, Dec.len_int, Dec.Emax.
  cbn [Dec.coef Dec.exp]. lia. }
assert (A2 : (Dec.prec <? Dec.adjusted (Dec.mk n (-2)) - -2 + 1) = false).
{ apply Z.ltb_ge. unfold Dec.adjusted, Dec.len_int, Dec.prec.
  cbn [Dec.coef Dec.exp]. lia. }
rewrite A1, A2.
assert (R : Dec._rescale (Dec.mk n (-2)) (-2) Dec.ROUND_HALF_UP = Dec.mk n (-2)).
{ unfold Dec._rescale, Dec.is_zero. cbn [Dec.coef Dec.exp].
  rewrite (proj2 (Z.eqb_neq _ _) Hz). cbn. f_equal. lia. }
rewrite R, A1.
assert (A4 : (Dec.prec <? Dec.len_int (Dec.mk n (-2))) = false).
{ apply Z.ltb_ge. unfold Dec.len_int, Dec.prec. cbn [Dec.coef]. lia. }
rewrite A4. apply fix_exact. exact Hctx.
Qed.

(** A two-decimal sum of 29 digits is rounded by the context to one decimal
    and 28 digits, which [quantize] then refuses. *)
Lemma quantize2_overflow (n : Z) :
  10 ^ 28 <= Z.abs n < 2 * 10 ^ 28 ->
  (s <- Dec._fix (Dec.mk n (-2)) ;; quantize2 s) = inl InvalidOperation.
Proof.
intro Hn.
assert (Hnz : n <> 0) by (change (10 ^ 28) with 10000000000000000000000000000 in Hn; lia).
assert (Hd : Dec.ndigits (Z.abs n) = 29).
{ apply Z.le_antisymm.
  - apply ndigits_le; [lia |].
    change (10 ^ 29) with (10 * 10 ^ 28). lia.
  - apply (ndigits_ge (Z.abs n) 28); lia. }
unfold Dec._fix, Dec.is_zero, Dec.len_int. cbn [Dec.coef Dec.exp].
rewrite (proj2 (Z.eqb_neq _ _) Hnz). rewrite Hd.
change (Dec.Etop <? 29 + -2 - Dec.prec) with false. cbv iota.
change (-2 <? Z.max (29 + -2 - Dec.prec) Dec.Etiny) with true. cbv iota.
change (Z.max (29 + -2 - Dec.prec) Dec.Etiny - -2) with 1.
change (Z.max (29 + -2 - Dec.prec) Dec.Etiny) with (-1).
unfold Dec.kept. change (10 ^ 1) with 10.
assert (Hk : 10 ^ 27 <= Z.abs n / 10 < 2 * 10 ^ 27).
{ change (10 ^ 28) with (10 * 10 ^ 27) in Hn. split.
  - apply Z.div_le_lower_bound; lia.
  - apply Z.div_lt_upper_bound; lia. }
set (k := Z.abs n / 10) in *.
assert (Hq : forall q, 10 ^ 27 <= q <= 2 * 10 ^ 27 ->
             quantize2 (Dec.mk (Z.sgn n * q) (-1)) = inl InvalidOperation).
{ intros q Hq. unfold quantize2, Dec.quantize.
  change ((Dec.Etiny <=? -2) && (-2 <=? Dec.Emax)) with true. cbn [negb].
  assert (Hq0 : 0 < q)
    by (change (10 ^ 27) with 1000000000000000000000000000 in Hq; lia).
  assert (Habs : Z.abs (Z.sgn n * q) = q).
  { rewrite Z.abs_mul. assert (Z.abs (Z.sgn n) = 1) by lia. lia. }
  unfold Dec.is_zero. cbn [Dec.coef].
  assert (Hne : (Z.sgn n * q =? 0) = false) by (apply Z.eqb_neq; lia).
  rewrite Hne.
  assert (Hdq : Dec.ndigits q = 28).
  { apply Z.le_antisymm.
    - apply ndigits_le; [lia |].
      change (10 ^ 28) with (10 * 10 ^ 27). lia.
    - apply (ndigits_ge q 27); lia. }
  unfold Dec.adjusted, Dec.len_int. cbn [Dec.coef Dec.exp].
  rewrite Habs, Hdq. reflexivity. }
destruct (Dec.round_half_even_changed (Z.abs n) 1).
- assert (Hd1 : Dec.ndigits (k + 1) <= 28).
  { apply ndigits_le; [lia |]. change (10 ^ 28) with (10 * 10 ^ 27). lia. }
  assert (E : (Dec.prec <? Dec.ndigits (k + 1)) = false)
    by (apply Z.ltb_ge; unfold Dec.prec; lia).
  rewrite E. change (Dec.Etop <? -1) with false. cbv iota. cbn [bind].
  apply Hq. lia.
- change (Dec.Etop <? -1) with false. cbv iota. cbn [bind].
  apply Hq. lia.
Qed.

(** The sum of two two-decimal amounts, quantized: it is defined exactly when
    the sum has at most 28 digits, and then it is the exact sum. *)
Lemma add_cents_quantize (x y : Z) :
  Z.abs x < 10 ^ 28 -> Z.abs y < 10 ^ 28 ->
  (s <- Dec.add (cents x) (cents y) ;; quantize2 s)
  = if Z.abs (x + y) <? 10 ^ 28 then inr (cents (x + y)) else inl InvalidOperation.
Proof.
intros Hx Hy.
destruct (Z.abs (x + y) <? 10 ^ 28) eqn:Hs.
- apply Z.ltb_lt in Hs. unfold cents at 1 2. rewrite add_same_exp.
  + cbn [bind]. apply quantize2_cents. exact Hs.
  + split; [exact Hs |].
    unfold Dec.Etiny, Dec.Etop, Dec.Emin, Dec.Emax, Dec.prec. lia.
- apply Z.ltb_ge in Hs.
  assert (Hx0 : x <> 0) by lia. assert (Hy0 : y <> 0) by lia.
  assert (Hxy : x + y <> 0)
    by (change (10 ^ 28) with 10000000000000000000000000000 in Hs; lia).
  unfold Dec.add, Dec.is_zero, cents. cbn [Dec.coef Dec.exp].
  rewrite (proj2 (Z.eqb_neq _ _) Hx0), (proj2 (Z.eqb_neq _ _) Hy0). cbn [andb].
  pose proof (normalize_exact (Dec.mk x (-2)) (Dec.mk y (-2))) as N.
  cbn [Dec.coef Dec.exp] in N. rewrite Z.min_id, Z.sub_diag in N.
  change (10 ^ 0) with 1 in N. rewrite !Z.mul_1_r in N.
  rewrite N.
  2:{ rewrite Z.ltb_irrefl. pose proof (ndigits_pos (Z.abs y)).
      unfold Dec.len_int. cbn [Dec.coef]. lia. }
  cbn [Dec.coef Dec.exp]. rewrite (proj2 (Z.eqb_neq _ _) Hxy).
  apply quantize2_overflow. lia.
Qed.

Lemma sub_cents_quantize (x y : Z) :
  Z.abs x < 10 ^ 28 -> Z.abs y < 10 ^ 28 ->
  (s <- Dec.sub (cents x) (cents y) ;; quantize2 s)
  = if Z.abs (x - y) <? 10 ^ 28 then inr (cents (x - y)) else inl InvalidOperation.
Proof.
intros Hx Hy. unfold Dec.sub, Dec.neg. cbn [cents Dec.coef Dec.exp].
fold (cents x). fold (cents (- y)).
rewrite add_cents_quantize by lia. reflexivity.
Qed.

(** ** Line items *)

Lemma gross_amount_cents (it : InvoiceItem) (g : Decimal) :
  Item.gross_amount it = inr g -> exists n, g = cents n /\ Z.abs n < 10 ^ 28.
Proof.
unfold Item.gross_amount. intro H.
apply bind_inr in H. destruct H as (p & _ & H).
exact (quantize2_inv _ _ H).
Qed.

Lemma total_discount_cents (it : InvoiceItem) (d : Decimal) :
  Item.total_discount it = inr d -> exists n, d = cents n /\ Z.abs n < 10 ^ 28.
Proof.
unfold Item.total_discount. intro H.
do 5 (apply bind_inr in H; destruct H as (? & _ & H)).
exact (quantize2_inv _ _ H).
Qed.

Lemma taxable_amount_cents (it : InvoiceItem) (t : Decimal) :
  Item.taxable_amount it = inr t -> exists n, t = cents n /\ Z.abs n < 10 ^ 28.
Proof.
unfold Item.taxable_amount. intro H.
do 3 (apply bind_inr in H; destruct H as (? & _ & H)).
exact (quantize2_inv _ _ H).
Qed.

Lemma cgst_amount_cents (it : InvoiceItem) (c : Decimal) :
  Item.cgst_amount it = inr c -> exists n, c = cents n /\ Z.abs n < 10 ^ 28.
Proof.
unfold Item.cgst_amount. intro H.
do 4 (apply bind_inr in H; destruct H as (? & _ & H)).
exact (quantize2_inv _ _ H).
Qed.

Lemma sgst_amount_cents (it : InvoiceItem) (c : Decimal) :
  Item.sgst_amount it = inr c -> exists n, c = cents n /\ Z.abs n < 10 ^ 28.
Proof.
unfold Item.sgst_amount. intro H.
do 4 (apply bind_inr in H; destruct H as (? & _ & H)).
exact (quantize2_inv _ _ H).
Qed.

Lemma taxable_amount_exact (it : InvoiceItem) :
  Item.taxable_amount it
  = (g <- Item.gross_amount it ;; d <- Item.total_discount it ;; exact_diff g d).
Proof.
unfold Item.taxable_amount.
destruct (Item.gross_amount it) as [e | g] eqn:Eg; [reflexivity |].
cbn [bind].
destruct (Item.total_discount it) as [e | d] eqn:Ed; [reflexivity |].
cbn [bind].
destruct (gross_amount_cents it g Eg) as (x & -> & Hx).
destruct (total_discount_cents it d Ed) as (y & -> & Hy).
rewrite sub_cents_quantize by assumption. reflexivity.
Qed.

Lemma total_tax_amount_exact (it : InvoiceItem) :
  Item.total_tax_amount it
  = (c <- Item.cgst_amount it ;; s <- Item.sgst_amount it ;; exact_sum c s).
Proof.
unfold Item.total_tax_amount.
destruct (Item.cgst_amount it) as [e | c] eqn:Ec; [reflexivity |].
cbn [bind].
destruct (Item.sgst_amount it) as [e | s] eqn:Es; [reflexivity |].
cbn [bind].
destruct (cgst_amount_cents it c Ec) as (x & -> & Hx).
destruct (sgst_amount_cents it s Es) as (y & -> & Hy).
rewrite add_cents_quantize by assumption. reflexivity.
Qed.

Lemma exact_sum_cents (a b v : Decimal) :
  exact_sum a b = inr v -> exists n, v = cents n /\ Z.abs n < 10 ^ 28.
Proof.
unfold exact_sum. destruct (_ <? _) eqn:H; [| discriminate].
apply Z.ltb_lt in H. intro E. injection E as <-. eexists. split; [reflexivity | exact H].
Qed.

Lemma total_amount_exact (it : InvoiceItem) :
  Item.total_amount it
  = (t <- Item.taxable_amount it ;;
     c <- Item.cgst_amount it ;;
     s <- Item.sgst_amount it ;;
     x <- exact_sum c s ;;
     exact_sum t x).
Proof.
unfold Item.total_amount. rewrite total_tax_amount_exact.
destruct (Item.taxable_amount it) as [e | t] eqn:Et; [reflexivity |].
cbn [bind].
destruct (Item.cgst_amount it) as [e | c]; [reflexivity |]. cbn [bind].
destruct (Item.sgst_amount it) as [e | s]; [reflexivity |]. cbn [bind].
destruct (exact_sum c s) as [e | x] eqn:Ex; [reflexivity |]. cbn [bind].
destruct (taxable_amount_cents it t Et) as (n & -> & Hn).
destruct (exact_sum_cents c s x Ex) as (m & -> & Hm).
rewrite add_cents_quantize by assumption. reflexivity.
Qed.

(** C10: the total tax of a line item is its CGST plus its SGST, and its total
    amount is its taxable amount plus CGST plus SGST, whatever invoice the
    item stands in: each is defined exactly when its parts are and the sum
    has at most the 28 digits of the decimal context, and is then the exact
    sum; the IGST amount takes no part.  On the interstate invoice
    [pen_invoice] the item totals add up to 1.02 while the invoice total,
    taken from the IGST, is 1.01. *)
Theorem C10_line_item_totals :
  forall it : InvoiceItem,
    Item.total_tax_amount it
    = (c <- Item.cgst_amount it ;; s <- Item.sgst_amount it ;; exact_sum c s)
    /\ Item.total_amount it
       = (t <- Item.taxable_amount it ;;
          c <- Item.cgst_amount it ;;
          s <- Item.sgst_amount it ;;
          x <- exact_sum c s ;;
          exact_sum t x)
    /\ Inv.is_interstate pen_invoice = true
    /\ Inv.sum Item.total_amount (items pen_invoice) = inr (NDec (cents 102))
    /\ Inv.total_igst_amount pen_invoice = inr (NDec (cents 1))
    /\ Inv.total_invoice_amount pen_invoice = inr (cents 101).
Proof.
intro it.
split; [apply total_tax_amount_exact |].
split; [apply total_amount_exact |].
split; [reflexivity |].
split; [vm_compute; reflexivity |].
split; vm_compute; reflexivity.
Qed.

(** C4, as stated, fails: a line item with quantity 1, unit price 100 and a
    fixed discount of 150 is constructed without error; its total discount
    150.00 exceeds its gross amount 100.00 and its taxable amount is
    -50.00. *)
Lemma C4_counterexample :
  Item.new "Widget" "8471" (Dec.of_int 1) (Dec.of_int 100) "Nos" (Dec.of_int 18)
    (Dec.of_int 0) (Dec.of_int 150) = inr over_discounted_item
  /\ Item.gross_amount over_discounted_item = inr (cents 10000)
  /\ Item.total_discount over_discounted_item = inr (cents 15000)
  /\ Item.taxable_amount over_discounted_item = inr (cents (-5000))
  /\ Dec.ltb (cents (-5000)) (Dec.of_int 0) = true.
Proof.
split; [| split; [| split; [| split]]]; vm_compute; reflexivity.
Qed.

(** C4 (amended): the constructor of a line item checks the quantity (more
    than 0), the unit price (not negative) and the rate (in [0,100]) and
    nothing else; when one of them fails it raises ValueError.  The discounts
    are not checked: an item whose total discount exceeds its gross amount is
    constructed, and the taxable amount of every item is its gross amount
    minus its total discount (defined when both are and the difference has
    at most 28 digits), hence negative for such an item: quantity 1, unit
    price 100 and fixed discount 150 give -50.00. *)
Theorem C4_discount_not_checked :
  forall (description hsn_code unit : string)
         (quantity unit_price gst_rate discount_percentage discount_amount : Decimal),
    let new := Item.new description hsn_code quantity unit_price unit gst_rate
                 discount_percentage discount_amount in
    (new = inr (mkItem description hsn_code quantity unit_price unit gst_rate
                  discount_percentage discount_amount)
     <-> (0 < Dec.val quantity /\ 0 <= Dec.val unit_price
          /\ 0 <= Dec.val gst_rate <= 100)%Q)
    /\ (forall e, new = inl e -> exists msg, e = ValueError msg)
    /\ (forall it, new = inr it ->
          Item.taxable_amount it
          = (g <- Item.gross_amount it ;;
             d <- Item.total_discount it ;;
             exact_diff g d))
    /\ Item.taxable_amount over_discounted_item = inr (cents (-5000)).
Proof.
intros description hsn_code unit q p r dp da new. subst new.
unfold Item.new, raise, ret.
assert (Hq : Dec.leb q (Dec.of_int 0) = false <-> (0 < Dec.val q)%Q).
{ rewrite <- not_true_iff_false, leb_val, val_of_int.
  change (inject_Z 0) with 0%Q. split; intro H; lra. }
assert (Hp : Dec.ltb p (Dec.of_int 0) = false <-> (0 <= Dec.val p)%Q).
{ rewrite ltb_val_false, val_of_int. reflexivity. }
assert (Hr : Dec.ltb r (Dec.of_int 0) || Dec.ltb (Dec.of_int 100) r = false
             <-> (0 <= Dec.val r <= 100)%Q).
{ rewrite <- rate_in_range_val. unfold rate_in_range.
  rewrite negb_true_iff. reflexivity. }
split; [| split; [| split]].
- destruct (Dec.leb q (Dec.of_int 0)).
  { split; [intro X; discriminate X | intros [H _]; apply Hq in H; discriminate H]. }
  destruct (Dec.ltb p (Dec.of_int 0)).
  { split; [intro X; discriminate X | intros (_ & H & _); apply Hp in H; discriminate H]. }
  destruct (Dec.ltb r (Dec.of_int 0) || Dec.ltb (Dec.of_int 100) r).
  { split; [intro X; discriminate X | intros (_ & _ & H); apply Hr in H; discriminate H]. }
  split; [| reflexivity].
  intros _. split; [apply Hq; reflexivity |].
  split; [apply Hp; reflexivity | apply Hr; reflexivity].
- intros e.
  destruct (Dec.leb q (Dec.of_int 0));
    [intro H; injection H as <-; eexists; reflexivity |].
  destruct (Dec.ltb p (Dec.of_int 0));
    [intro H; injection H as <-; eexists; reflexivity |].
  destruct (Dec.ltb r (Dec.of_int 0) || Dec.ltb (Dec.of_int 100) r);
    [intro H; injection H as <-; eexists; reflexivity | discriminate].
- intros it _. apply taxable_amount_exact.
- vm_compute. reflexivity.
Qed.

(** ** The amount in words *)

Lemma list_index_nth {A : Type} (l : list A) (i : Z) (d : A) :
  0 <= i < Z.of_nat (List.length l) ->
  list_index l i = inr (nth (Z.to_nat i) l d).
Proof.
intro H. unfold list_index.
assert (E1 : (i <? 0) = false) by (apply Z.ltb_ge; lia).
rewrite E1.
assert (E2 : (i <? 0) || (Z.of_nat (List.length l) <=? i) = false).
{ rewrite E1. cbn [orb]. apply Z.leb_gt. lia. }
rewrite E2.
rewrite (nth_error_nth' l d) by lia. reflexivity.
Qed.

Lemma ones_index (i : Z) :
  0 <= i < 10 -> list_index Inv.ones i = inr (WordsSpec.ones_word i).
Proof. intro H. apply list_index_nth. cbn. lia. Qed.

Lemma teens_index (i : Z) :
  0 <= i < 10 -> list_index Inv.teens i = inr (WordsSpec.teens_word i).
Proof. intro H. apply list_index_nth. cbn. lia. Qed.

Lemma tens_index (i : Z) :
  0 <= i < 10 -> list_index Inv.tens i = inr (WordsSpec.tens_word i).
Proof. intro H. apply list_index_nth. cbn. lia. Qed.

Lemma spaced_app (u v : list string) :
  WordsSpec.spaced (u ++ v) = (WordsSpec.spaced u ++ WordsSpec.spaced v)%string.
Proof.
induction u as [| w u IH]; [reflexivity |].
cbn [WordsSpec.spaced List.app]. rewrite IH, !append_assoc. reflexivity.
Qed.

(** [convert_hundreds] writes the words of a number below one thousand, each
    followed by a space. *)
Lemma convert_hundreds_spec (n : Z) :
  0 <= n < 1000 ->
  Inv.convert_hundreds n = inr (WordsSpec.spaced (WordsSpec.below_thousand n)).
Proof.
intro Hn. unfold Inv.convert_hundreds, WordsSpec.below_thousand.
assert (Hm : 0 <= n mod 100 < 100) by (apply Z.mod_pos_bound; lia).
assert (Hd : 0 <= n / 100 < 10).
{ split; [apply Z.div_pos; lia | apply Z.div_lt_upper_bound; lia]. }
assert (Tail : forall text m, 0 <= m < 100 ->
  (if 20 <=? m
   then w <- list_index Inv.tens (m / 10) ;;
        (if 0 <? m mod 10
         then w' <- list_index Inv.ones (m mod 10) ;;
              ret ((text ++ w ++ " ") ++ w' ++ " ")%string
         else ret (text ++ w ++ " ")%string)
   else if 10 <=? m
        then w <- list_index Inv.teens (m - 10) ;; ret (text ++ w ++ " ")%string
        else if 0 <? m
             then w <- list_index Inv.ones m ;; ret (text ++ w ++ " ")%string
             else ret text)
  = inr (text ++ WordsSpec.spaced (WordsSpec.below_hundred m))%string).
{ intros text m Hm'. unfold WordsSpec.below_hundred, ret.
  assert (0 <= m mod 10 < 10) by (apply Z.mod_pos_bound; lia).
  assert (0 <= m / 10 < 10).
  { split; [apply Z.div_pos; lia | apply Z.div_lt_upper_bound; lia]. }
  destruct (20 <=? m) eqn:E20.
  - rewrite tens_index by lia. cbn [bind].
    destruct (0 <? m mod 10) eqn:E0.
    + rewrite ones_index by lia. cbn [bind WordsSpec.spaced].
      rewrite append_nil_r, !append_assoc. reflexivity.
    + cbn [WordsSpec.spaced]. rewrite append_nil_r. reflexivity.
  - apply Z.leb_gt in E20. destruct (10 <=? m) eqn:E10.
    + apply Z.leb_le in E10. rewrite teens_index by lia.
      cbn [bind WordsSpec.spaced]. rewrite append_nil_r. reflexivity.
    + apply Z.leb_gt in E10. destruct (0 <? m) eqn:E1.
      * rewrite ones_index by lia. cbn [bind WordsSpec.spaced].
        rewrite append_nil_r. reflexivity.
      * cbn [WordsSpec.spaced]. rewrite append_nil_r. reflexivity. }
destruct (100 <=? n) eqn:E100.
- apply Z.leb_le in E100.
  assert (E : (0 <? n / 100) = true).
  { apply Z.ltb_lt. apply Z.div_str_pos. lia. }
  rewrite E. rewrite ones_index by lia. cbn [bind ret].
  rewrite (Tail _ (n mod 100) Hm). rewrite spaced_app.
  cbn [WordsSpec.spaced]. cbn [append]. rewrite !append_assoc.
  reflexivity.
- apply Z.leb_gt in E100.
  assert (E : (0 <? n / 100) = false).
  { apply Z.ltb_ge. rewrite Z.div_small by lia. lia. }
  rewrite E. cbn [bind ret]. rewrite (Z.mod_small n 100) by lia.
  rewrite (Tail "" n ltac:(lia)). reflexivity.
Qed.

Lemma group_spec (unit : Z) (name text : string) (rupees : Z) :
  0 < unit -> 0 <= rupees -> rupees / unit < 1000 ->
  Inv.group unit (name ++ " ") (text, rupees)
  = inr ((text ++ WordsSpec.spaced (WordsSpec.group_words (rupees / unit) name))%string,
         rupees mod unit).
Proof.
intros Hu Hr Hq. unfold Inv.group, WordsSpec.group_words.
destruct (unit <=? rupees) eqn:E.
- apply Z.leb_le in E.
  assert (Hpos : 0 < rupees / unit) by (apply Z.div_str_pos; lia).
  rewrite (proj2 (Z.ltb_lt _ _) Hpos).
  rewrite convert_hundreds_spec by lia. cbn [bind ret].
  rewrite spaced_app. cbn [WordsSpec.spaced].
  rewrite ?append_nil_r, ?append_assoc. reflexivity.
- apply Z.leb_gt in E. rewrite Z.div_small by lia. rewrite Z.mod_small by lia.
  cbn [Z.ltb Z.compare WordsSpec.spaced]. rewrite append_nil_r. reflexivity.
Qed.

Lemma concat_spaced (ws rest : list string) :
  rest <> [] ->
  String.concat " " (ws ++ rest)
  = (WordsSpec.spaced ws ++ String.concat " " rest)%string.
Proof.
intro Hne. induction ws as [| w ws IH]; [reflexivity |].
cbn [List.app String.concat WordsSpec.spaced].
destruct (ws ++ rest)%list as [| x l] eqn:E.
- destruct ws; [cbn in E; congruence | discriminate E].
- rewrite IH, append_assoc. reflexivity.
Qed.

Lemma word_ok_spaced (ws : list string) (rest : string) :
  Forall (fun w => WordsSpec.word_ok w = true) ws ->
  WordsSpec.word_ok rest = true ->
  WordsSpec.word_ok (WordsSpec.spaced ws ++ rest) = true.
Proof.
intros Hws Hrest. destruct Hws as [| w ws Hw _]; [exact Hrest |].
cbn [WordsSpec.spaced]. destruct w as [| c w]; [discriminate Hw |]. exact Hw.
Qed.

Lemma lstrip_word_ok (s : string) :
  WordsSpec.word_ok s = true -> PyStr.lstrip s = s.
Proof.
destruct s as [| c s]; [discriminate |]. cbn [WordsSpec.word_ok PyStr.lstrip].
intro H. apply negb_true_iff in H. rewrite H. reflexivity.
Qed.

Lemma rstrip_app (u v : string) :
  PyStr.rstrip v = v -> v <> "" -> PyStr.rstrip (u ++ v) = (u ++ v)%string.
Proof.
intros Hv Hne. induction u as [| a u IH]; [exact Hv |].
cbn [append PyStr.rstrip]. rewrite IH.
destruct (u ++ v)%string eqn:E; [| reflexivity].
destruct u; [cbn in E; congruence | discriminate E].
Qed.

Lemma ones_word_ok (k : Z) : 0 < k < 10 -> WordsSpec.word_ok (WordsSpec.ones_word k) = true.
Proof.
intro H.
assert (C : k = 1 \/ k = 2 \/ k = 3 \/ k = 4 \/ k = 5 \/ k = 6 \/ k = 7 \/ k = 8
            \/ k = 9) by lia.
repeat (destruct C as [-> | C]; [reflexivity |]). subst k. reflexivity.
Qed.

Lemma teens_word_ok (k : Z) : 0 <= k < 10 -> WordsSpec.word_ok (WordsSpec.teens_word k) = true.
Proof.
intro H.
assert (C : k = 0 \/ k = 1 \/ k = 2 \/ k = 3 \/ k = 4 \/ k = 5 \/ k = 6 \/ k = 7
            \/ k = 8 \/ k = 9) by lia.
repeat (destruct C as [-> | C]; [reflexivity |]). subst k. reflexivity.
Qed.

Lemma tens_word_ok (k : Z) : 2 <= k < 10 -> WordsSpec.word_ok (WordsSpec.tens_word k) = true.
Proof.
intro H.
assert (C : k = 2 \/ k = 3 \/ k = 4 \/ k = 5 \/ k = 6 \/ k = 7 \/ k = 8 \/ k = 9)
  by lia.
repeat (destruct C as [-> | C]; [reflexivity |]). subst k. reflexivity.
Qed.

Lemma below_thousand_ok (n : Z) :
  0 <= n < 1000 ->
  Forall (fun w => WordsSpec.word_ok w = true) (WordsSpec.below_thousand n).
Proof.
intro Hn. unfold WordsSpec.below_thousand, WordsSpec.below_hundred.
assert (0 <= n mod 100 < 100) by (apply Z.mod_pos_bound; lia).
assert (0 <= n / 100 < 10).
{ split; [apply Z.div_pos; lia | apply Z.div_lt_upper_bound; lia]. }
set (m := n mod 100) in *.
assert (0 <= m mod 10 < 10) by (apply Z.mod_pos_bound; lia).
assert (0 <= m / 10 < 10).
{ split; [apply Z.div_pos; lia | apply Z.div_lt_upper_bound; lia]. }
apply Forall_app. split.
- destruct (0 <? n / 100) eqn:E; [| constructor].
  apply Z.ltb_lt in E. repeat constructor. apply ones_word_ok. lia.
- destruct (20 <=? m) eqn:E20.
  + apply Z.leb_le in E20. constructor.
    * apply tens_word_ok. split; [| lia]. apply Z.div_le_lower_bound; lia.
    * destruct (0 <? m mod 10) eqn:E0; [| constructor].
      apply Z.ltb_lt in E0. repeat constructor. apply ones_word_ok. lia.
  + apply Z.leb_gt in E20. destruct (10 <=? m) eqn:E10.
    * apply Z.leb_le in E10. repeat constructor. apply teens_word_ok. lia.
    * apply Z.leb_gt in E10. destruct (0 <? m) eqn:E1; [| constructor].
      apply Z.ltb_lt in E1. repeat constructor. apply ones_word_ok. lia.
Qed.

Lemma group_words_ok (n : Z) (name : string) :
  0 <= n < 1000 -> WordsSpec.word_ok name = true ->
  Forall (fun w => WordsSpec.word_ok w = true) (WordsSpec.group_words n name).
Proof.
intros Hn Hname. unfold WordsSpec.group_words.
destruct (0 <? n); [| constructor].
apply Forall_app. split; [apply below_thousand_ok, Hn |].
repeat constructor. exact Hname.
Qed.

(** The decimal steps of [_amount_to_words] on an amount of [n] hundredths. *)
Lemma cents_eqb_zero (n : Z) : Dec.eqb (cents n) (Dec.of_int 0) = (n =? 0).
Proof.
unfold Dec.eqb, Dec.cmp, cents, Dec.of_int. cbn [Dec.coef Dec.exp].
change (Z.min (-2) 0) with (-2). change (-2 - -2) with 0. change (0 - -2) with 2.
change (10 ^ 0) with 1. rewrite Z.mul_1_r. change (0 * 10 ^ 2) with 0.
destruct n; reflexivity.
Qed.

Lemma cents_to_int (n : Z) : 0 <= n -> Dec.to_int (cents n) = n / 100.
Proof.
intro Hn. unfold Dec.to_int, cents. cbn [Dec.coef Dec.exp].
change (0 <=? -2) with false. cbv iota. change (10 ^ (- -2)) with 100.
apply Z.quot_div_nonneg; lia.
Qed.

Lemma cents_fraction (n : Z) :
  0 <= n < 10 ^ 12 ->
  Dec.sub (cents n) (Dec.of_int (n / 100)) = inr (cents (n mod 100)).
Proof.
intro Hn. change (10 ^ 12) with 1000000000000 in Hn.
assert (Hq : 0 <= n / 100 < 10 ^ 10).
{ change (10 ^ 10) with 10000000000. split; [apply Z.div_pos; lia |].
  apply Z.div_lt_upper_bound; lia. }
assert (Hm : 0 <= n mod 100 < 100) by (apply Z.mod_pos_bound; lia).
assert (Hd : n = 100 * (n / 100) + n mod 100) by (apply Z.div_mod; lia).
unfold Dec.sub.
pose proof (add_aligned (cents n) (Dec.neg (Dec.of_int (n / 100)))) as A.
cbn [Dec.coef Dec.exp cents Dec.neg Dec.of_int] in A.
change (Z.min (-2) 0) with (-2) in A. change (-2 - -2) with 0 in A.
change (0 - -2) with 2 in A. change (10 ^ 0) with 1 in A.
change (10 ^ 2) with 100 in A. cbv zeta in A.
replace (n * 1 + - (n / 100) * 100) with (n mod 100) in A by lia.
apply A; clear A.
- unfold in_context, Dec.Etiny, Dec.Etop, Dec.Emin, Dec.Emax, Dec.prec.
  change (10 ^ 28) with 10000000000000000000000000000. lia.
- unfold Dec.prec. lia.
- intros Ha Hb.
  pose proof (normalize_exact (Dec.mk n (-2)) (Dec.mk (- (n / 100)) 0)) as N.
  cbn [Dec.coef Dec.exp] in N. change (-2 <? 0) with true in N. cbv iota in N.
  change (Z.min (-2) 0) with (-2) in N. change (-2 - -2) with 0 in N.
  change (0 - -2) with 2 in N. change (10 ^ 0) with 1 in N.
  change (10 ^ 2) with 100 in N. cbv zeta in N.
  apply N; clear N.
  assert (L1 : Dec.len_int (Dec.mk (- (n / 100)) 0) <= 10).
  { apply len_int_le; [lia |]. cbn [Dec.coef]. rewrite Z.abs_opp. lia. }
  assert (L2 : 1 <= Dec.len_int (Dec.mk n (-2))).
  { unfold Dec.len_int. cbn [Dec.coef]. apply (ndigits_spec (Z.abs n)). lia. }
  unfold Dec.prec. lia.
Qed.

Lemma cents_paise (m : Z) :
  0 <= m < 100 ->
  Dec.mul (cents m) (Dec.of_int 100) = inr (Dec.mk (m * 100) (-2))
  /\ Dec.to_int (Dec.mk (m * 100) (-2)) = m.
Proof.
intro Hm. split.
- rewrite mul_exact; [reflexivity |].
  cbn [Dec.coef Dec.exp cents Dec.of_int].
  unfold in_context, Dec.Etiny, Dec.Etop, Dec.Emin, Dec.Emax, Dec.prec.
  change (10 ^ 28) with 10000000000000000000000000000. lia.
- unfold Dec.to_int. cbn [Dec.coef Dec.exp]. change (0 <=? -2) with false.
  cbv iota. change (10 ^ (- -2)) with 100. apply Z.quot_mul. lia.
Qed.

Lemma rupee_words_ok (r : Z) :
  0 <= r < 10 ^ 10 ->
  Forall (fun w => WordsSpec.word_ok w = true) (WordsSpec.rupee_words r).
Proof.
intro Hr. change (10 ^ 10) with 10000000000 in Hr.
unfold WordsSpec.rupee_words.
apply Forall_app; split; [| apply Forall_app; split; [| apply Forall_app; split]].
- apply group_words_ok; [| reflexivity].
  split; [apply Z.div_pos; lia | apply Z.div_lt_upper_bound; lia].
- apply group_words_ok; [| reflexivity].
  assert (0 <= (r / 100000) mod 100 < 100) by (apply Z.mod_pos_bound; lia). lia.
- apply group_words_ok; [| reflexivity].
  assert (0 <= (r / 1000) mod 100 < 100) by (apply Z.mod_pos_bound; lia). lia.
- apply below_thousand_ok. apply Z.mod_pos_bound; lia.
Qed.

(** The digit groups of the Indian numbering, as the successive remainders
    of the source compute them. *)
Lemma indian_groups (r : Z) :
  0 <= r < 10 ^ 10 ->
  r / 10000000 < 1000
  /\ (r mod 10000000) / 100000 = (r / 100000) mod 100
  /\ ((r mod 10000000) mod 100000) / 1000 = (r / 1000) mod 100
  /\ ((r mod 10000000) mod 100000) mod 1000 = r mod 1000.
Proof.
intro Hr. change (10 ^ 10) with 10000000000 in Hr.
assert (H1 : 0 <= r mod 10000000 < 10000000) by (apply Z.mod_pos_bound; lia).
assert (Ea : (r mod 10000000) mod 100000 = r mod 100000).
{ apply Z.mod_mod_divide. exists 100. reflexivity. }
split; [apply Z.div_lt_upper_bound; lia |]. split; [| split].
- rewrite (Z.div_mod r 10000000) at 2 by lia.
  replace (10000000 * (r / 10000000) + r mod 10000000)
    with (r mod 10000000 + (r / 10000000 * 100) * 100000) by lia.
  rewrite Z.div_add by lia. rewrite Z.add_comm, Z.add_mod by lia.
  rewrite Z.mod_mul by lia. rewrite Z.add_0_l, Z.mod_mod by lia.
  symmetry. apply Z.mod_small.
  split; [apply Z.div_pos; lia | apply Z.div_lt_upper_bound; lia].
- rewrite Ea. rewrite (Z.div_mod r 100000) at 2 by lia.
  replace (100000 * (r / 100000) + r mod 100000)
    with (r mod 100000 + (r / 100000 * 100) * 1000) by lia.
  rewrite Z.div_add by lia. rewrite Z.add_comm, Z.add_mod by lia.
  rewrite Z.mod_mul by lia. rewrite Z.add_0_l, Z.mod_mod by lia.
  symmetry. apply Z.mod_small.
  assert (0 <= r mod 100000 < 100000) by (apply Z.mod_pos_bound; lia).
  split; [apply Z.div_pos; lia | apply Z.div_lt_upper_bound; lia].
- rewrite Ea. apply Z.mod_mod_divide. exists 100. reflexivity.
Qed.

Lemma last_hundreds (text : string) (r : Z) :
  0 <= r < 1000 ->
  (if 0 <? r then w <- Inv.convert_hundreds r ;; ret (text ++ w) else ret text)
  = inr (text ++ WordsSpec.spaced (WordsSpec.below_thousand r))%string.
Proof.
intro Hr. destruct (0 <? r) eqn:E.
- rewrite convert_hundreds_spec by exact Hr. reflexivity.
- apply Z.ltb_ge in E. assert (r = 0) by lia. subst r.
  change (WordsSpec.spaced (WordsSpec.below_thousand 0)) with "".
  rewrite append_nil_r. reflexivity.
Qed.

(** The rupee part: the three [group] blocks and the final hundreds leave
    the words of the rupees, each followed by a space. *)
Lemma rupee_text (r : Z) :
  0 <= r < 10 ^ 10 ->
  exists text rest,
    (forall (A : Type) (k : string * Z -> result A),
       (st <- Inv.group 10000000 "Crore " ("", r) ;;
        st <- Inv.group 100000 "Lakh " st ;;
        st <- Inv.group 1000 "Thousand " st ;;
        k st) = k (text, rest))
    /\ 0 <= rest < 1000
    /\ (text ++ WordsSpec.spaced (WordsSpec.below_thousand rest))%string
       = WordsSpec.spaced (WordsSpec.rupee_words r).
Proof.
intro Hr. destruct (indian_groups r Hr) as (B & E1 & E2 & E3).
change (10 ^ 10) with 10000000000 in Hr.
assert (H1 : 0 <= r mod 10000000 < 10000000) by (apply Z.mod_pos_bound; lia).
assert (H2 : 0 <= (r mod 10000000) mod 100000 < 100000)
  by (apply Z.mod_pos_bound; lia).
assert (H3 : 0 <= ((r mod 10000000) mod 100000) mod 1000 < 1000)
  by (apply Z.mod_pos_bound; lia).
change "Crore " with ("Crore" ++ " ")%string.
change "Lakh " with ("Lakh" ++ " ")%string.
change "Thousand " with ("Thousand" ++ " ")%string.
exists ((("" ++ WordsSpec.spaced (WordsSpec.group_words (r / 10000000) "Crore"))
          ++ WordsSpec.spaced (WordsSpec.group_words ((r / 100000) mod 100) "Lakh"))
         ++ WordsSpec.spaced (WordsSpec.group_words ((r / 1000) mod 100) "Thousand"))%string.
exists (r mod 1000). split; [| split; [rewrite <- E3; exact H3 |]].
{ intros A k.
  rewrite group_spec; [| lia | lia | exact B].
  cbn [bind].
  rewrite group_spec; [| lia | lia | apply Z.div_lt_upper_bound; lia].
  cbn [bind].
  rewrite group_spec; [| lia | lia | apply Z.div_lt_upper_bound; lia].
  cbn [bind]. rewrite E1, E2, E3. reflexivity. }
unfold WordsSpec.rupee_words. rewrite !spaced_app, !append_assoc. reflexivity.
Qed.

Lemma amount_to_words_spec (n : Z) :
  0 <= n < 10 ^ 12 ->
  Inv._amount_to_words (cents n) = inr (WordsSpec.render n).
Proof.
intro Hn. unfold Inv._amount_to_words. rewrite cents_eqb_zero.
destruct (n =? 0) eqn:E0.
{ apply Z.eqb_eq in E0. subst n. reflexivity. }
apply Z.eqb_neq in E0.
assert (Hr : 0 <= n / 100 < 10 ^ 10).
{ change (10 ^ 12) with 1000000000000 in Hn. change (10 ^ 10) with 10000000000.
  split; [apply Z.div_pos; lia | apply Z.div_lt_upper_bound; lia]. }
assert (Hp : 0 <= n mod 100 < 100) by (apply Z.mod_pos_bound; lia).
cbv zeta. rewrite cents_to_int by lia. rewrite cents_fraction by exact Hn.
cbn [bind]. destruct (cents_paise (n mod 100) Hp) as [M T]. rewrite M.
cbn [bind]. rewrite T.
destruct (rupee_text (n / 100) Hr) as (text & rest & G & Hrest & Etext).
rewrite G. rewrite last_hundreds by exact Hrest. cbn [bind]. rewrite Etext.
pose proof (rupee_words_ok (n / 100) Hr) as Wok.
unfold WordsSpec.render, WordsSpec.amount_words.
rewrite (proj2 (Z.eqb_neq n 0) E0).
rewrite concat_spaced by discriminate.
unfold WordsSpec.paise_words.
destruct (0 <? n mod 100) eqn:Ep.
- rewrite convert_hundreds_spec by lia. cbn [bind ret].
  unfold PyStr.strip. rewrite lstrip_word_ok.
  2:{ rewrite append_assoc. apply word_ok_spaced; [exact Wok | reflexivity]. }
  rewrite <- !append_assoc.
  rewrite (rstrip_app _ "Paise") by (reflexivity || discriminate).
  cbn [List.app]. rewrite <- app_assoc.
  change ("Rupees" :: "and" :: WordsSpec.below_thousand (n mod 100)
          ++ ["Paise"] ++ ["Only"])%list
    with ((["Rupees"; "and"] ++ WordsSpec.below_thousand (n mod 100))
          ++ ["Paise"; "Only"])%list.
  rewrite concat_spaced by discriminate. rewrite spaced_app.
  cbn [WordsSpec.spaced String.concat]. rewrite !append_assoc.
  reflexivity.
- cbn [ret bind]. unfold PyStr.strip. rewrite lstrip_word_ok.
  2:{ apply word_ok_spaced; [exact Wok | reflexivity]. }
  rewrite (rstrip_app _ "Rupees") by (reflexivity || discriminate).
  cbn [List.app String.concat]. rewrite !append_assoc. reflexivity.
Qed.

Lemma render_nonzero (n : Z) :
  n <> 0 ->
  WordsSpec.render n
  = (WordsSpec.spaced (WordsSpec.rupee_words (n / 100))
     ++ (if (0 <? n mod 100)%Z
         then "Rupees and "
              ++ WordsSpec.spaced (WordsSpec.below_thousand (n mod 100))
              ++ "Paise Only"
         else "Rupees Only"))%string.
Proof.
intro E0. unfold WordsSpec.render, WordsSpec.amount_words.
rewrite (proj2 (Z.eqb_neq n 0) E0).
rewrite concat_spaced by discriminate. f_equal.
unfold WordsSpec.paise_words. destruct (0 <? n mod 100).
- cbn [List.app]. rewrite <- app_assoc.
  change ("Rupees" :: "and" :: WordsSpec.below_thousand (n mod 100)
          ++ ["Paise"] ++ ["Only"])%list
    with ((["Rupees"; "and"] ++ WordsSpec.below_thousand (n mod 100))
          ++ ["Paise"; "Only"])%list.
  rewrite concat_spaced by discriminate. rewrite spaced_app.
  cbn [WordsSpec.spaced String.concat]. rewrite !append_assoc. reflexivity.
- reflexivity.
Qed.

(** Every grand total that is computed is a two-decimal amount. *)
Lemma total_invoice_amount_cents (inv : Invoice) (a : Decimal) :
  Inv.total_invoice_amount inv = inr a -> exists m, a = cents m.
Proof.
unfold Inv.total_invoice_amount.
destruct (Inv.total_taxable_amount inv) as [e | t]; [discriminate |].
cbn [bind]. destruct (Inv.total_tax_amount inv) as [e | x]; [discriminate |].
cbn [bind]. destruct (Inv.num_add t x) as [e | [k | d]]; [discriminate | discriminate |].
cbn [bind]. intro H. destruct (quantize2_inv d a H) as (m & E & _).
exists m. exact E.
Qed.

(** A grand total of 1000 crore rupees or more is not rendered: the
    hundreds of the crore group are looked up beyond the ten words. *)
Lemma amount_to_words_thousand_crore :
  Inv._amount_to_words (cents 1000000000000) = inl IndexError.
Proof. vm_compute. reflexivity. Qed.

Lemma C5_counterexample :
  Inv.total_invoice_amount credit_invoice = inr (cents (-5960))
  /\ Inv.total_amount_in_words credit_invoice = inr "Rupees Only"
  /\ Dec.to_int (cents (-5960)) = -59.
Proof.
split; [| split]; vm_compute; reflexivity.
Qed.

(** C5 (amended): every grand total that is computed is a two-decimal amount;
    for such an amount of [n] hundredths with [0 <= n] below 1000 crore rupees
    the words are the rendering of the specification: the rupee part in Indian
    numbering (hundreds, tens and ones or a teen; two digits of thousands, two
    of lakhs, then the crores), "Rupees", for non-zero paise "and <N> Paise",
    and the suffix "Only"; a zero total is "Zero Rupees Only"; and 72865.00 is
    "Seventy Two Thousand Eight Hundred Sixty Five Rupees Only". *)
Theorem C5_amount_in_words (n : Z) :
  0 <= n < 10 ^ 12 ->
  Inv._amount_to_words (cents n) = inr (WordsSpec.render n)
  /\ (exists body, WordsSpec.render n = (body ++ " Only")%string)
  /\ (n = 0 -> WordsSpec.render n = "Zero Rupees Only")
  /\ (0 < n -> n mod 100 = 0 ->
      WordsSpec.render n
      = (WordsSpec.spaced (WordsSpec.rupee_words (n / 100)) ++ "Rupees Only")%string)
  /\ (0 < n mod 100 ->
      WordsSpec.render n
      = (WordsSpec.spaced (WordsSpec.rupee_words (n / 100)) ++ "Rupees and "
         ++ WordsSpec.spaced (WordsSpec.below_thousand (n mod 100))
         ++ "Paise Only")%string)
  /\ Inv._amount_to_words (cents 7286500)
     = inr "Seventy Two Thousand Eight Hundred Sixty Five Rupees Only"
  /\ (forall (inv : Invoice) (a : Decimal),
        Inv.total_invoice_amount inv = inr a -> exists m, a = cents m).
Proof.
intro Hn. split; [exact (amount_to_words_spec n Hn) |].
split; [| split; [| split; [| split; [| split]]]].
- destruct (Z.eq_dec n 0) as [-> | E0].
  + exists "Zero Rupees". reflexivity.
  + rewrite (render_nonzero n E0). destruct (0 <? n mod 100).
    * exists (WordsSpec.spaced (WordsSpec.rupee_words (n / 100)) ++ "Rupees and "
              ++ WordsSpec.spaced (WordsSpec.below_thousand (n mod 100))
              ++ "Paise")%string.
      rewrite !append_assoc. reflexivity.
    * exists (WordsSpec.spaced (WordsSpec.rupee_words (n / 100)) ++ "Rupees")%string.
      rewrite !append_assoc. reflexivity.
- intros ->. reflexivity.
- intros Hpos Hm. rewrite render_nonzero by lia. rewrite Hm. reflexivity.
- intro Hm. assert (E0 : n <> 0) by (intros ->; cbn in Hm; lia).
  rewrite (render_nonzero n E0). rewrite (proj2 (Z.ltb_lt _ _) Hm). reflexivity.
- vm_compute. reflexivity.
- exact total_invoice_amount_cents.
Qed.

Lemma C5_witness :
  Inv._amount_to_words (cents 7286550)
  = inr "Seventy Two Thousand Eight Hundred Sixty Five Rupees and Fifty Paise Only".
Proof.
assert (H : 0 <= 7286550 < 10 ^ 12) by (split; [lia | reflexivity]).
exact (proj1 (C5_amount_in_words 7286550 H)).
Defined.

(** ** Rounding to the precision of the context *)

Lemma kept_bounds (c L : Z) :
  28 < L -> 10 ^ (L - 1) <= c < 10 ^ L ->
  10 ^ 27 <= Dec.kept c (L - 28) < 10 ^ 28.
Proof.
intros HL [Hlo Hhi]. unfold Dec.kept.
assert (P : 0 < 10 ^ (L - 28)) by (apply Z.pow_pos_nonneg; lia).
split.
- apply Z.div_le_lower_bound; [exact P |].
  rewrite Z.mul_comm, <- Z.pow_add_r by lia.
  replace (27 + (L - 28)) with (L - 1) by lia. exact Hlo.
- apply Z.div_lt_upper_bound; [exact P |].
  rewrite <- Z.pow_add_r by lia.
  replace (L - 28 + 28) with L by lia. exact Hhi.
Qed.

Lemma round_near (c k : Z) (b : bool) :
  0 <= c -> 0 <= k ->
  Z.abs ((if b then Dec.kept c k + 1 else Dec.kept c k) * 10 ^ k - c) <= 10 ^ k.
Proof.
intros Hc Hk. unfold Dec.kept.
assert (P : 0 < 10 ^ k) by (apply Z.pow_pos_nonneg; lia).
pose proof (Z.div_mod c (10 ^ k) ltac:(lia)) as E.
pose proof (Z.mod_pos_bound c (10 ^ k) P) as B.
set (q := c / 10 ^ k) in *. set (m := c mod 10 ^ k) in *. set (p := 10 ^ k) in *.
destruct b; nia.
Qed.

(** [_fix] on a positive coefficient: the result is within one unit of the
    last kept digit. *)
Lemma fix_round (c e : Z) :
  0 < c -> Dec.Etiny <= e -> Dec.ndigits c + e <= Dec.Etop ->
  exists d, Dec._fix (Dec.mk c e) = inr d
    /\ (Qabs (Dec.val d - Dec.val (Dec.mk c e))
        <= Dec.pow10 (Dec.ndigits c + e - 28))%Q.
Proof.
intros Hc He Htop.
destruct (ndigits_spec c Hc) as (L1 & Llo & Lhi).
set (L := Dec.ndigits c) in *.
destruct (Z_le_gt_dec L 28) as [Hs | Hl].
- exists (Dec.mk c e). split.
  + apply fix_exact. split.
    * rewrite Z.abs_eq by lia.
      apply Z.lt_le_trans with (10 ^ L); [exact Lhi |].
      apply Z.pow_le_mono_r; lia.
    * lia.
  + setoid_replace (Dec.val (Dec.mk c e) - Dec.val (Dec.mk c e))%Q with 0%Q by ring.
    apply Qlt_le_weak. apply pow10_pos.
- set (k := L - 28).
  assert (Hk : 0 < k) by (subst k; lia).
  pose proof (kept_bounds c L ltac:(lia) (conj Llo Lhi)) as KB. fold k in KB.
  assert (F : exists q1 : Z,
             Z.abs (q1 * 10 ^ k - c) <= 10 ^ k
             /\ exists d, Dec._fix (Dec.mk c e) = inr d
                /\ (Dec.val d == inject_Z q1 * Dec.pow10 (k + e))%Q).
  { unfold Dec._fix, Dec.is_zero, Dec.len_int. cbn [Dec.coef Dec.exp].
    rewrite Z.abs_eq by lia. fold L.
    rewrite (proj2 (Z.eqb_neq c 0)) by lia.
    assert (A1 : (Dec.Etop <? L + e - Dec.prec) = false).
    { apply Z.ltb_ge. unfold Dec.prec. lia. }
    rewrite A1.
    assert (A2 : Z.max (L + e - Dec.prec) Dec.Etiny = k + e).
    { unfold Dec.prec. subst k. lia. }
    rewrite A2.
    assert (A3 : (e <? k + e) = true) by (apply Z.ltb_lt; lia).
    rewrite A3. replace (k + e - e) with k by lia.
    rewrite Z.sgn_pos by lia.
    destruct (Dec.round_half_even_changed c k) eqn:R.
    - exists (Dec.kept c k + 1). split; [apply (round_near c k true); lia |].
      destruct (Dec.prec <? Dec.ndigits (Dec.kept c k + 1)) eqn:P.
      + apply Z.ltb_lt in P. unfold Dec.prec in P.
        assert (E28 : Dec.kept c k + 1 = 10 ^ 28).
        { destruct (Z_lt_le_dec (Dec.kept c k + 1) (10 ^ 28)) as [Hlt | Hge];
            [| lia].
          pose proof (ndigits_le (Dec.kept c k + 1) 28 ltac:(lia) Hlt). lia. }
        rewrite E28.
        assert (A4 : (Dec.Etop <? k + e + 1) = false).
        { apply Z.ltb_ge. subst k. lia. }
        rewrite A4. eexists. split; [reflexivity |].
        unfold Dec.val. cbn [Dec.coef Dec.exp]. rewrite Z.mul_1_l.
        rewrite pow10_succ. change (10 ^ 28 / 10) with (10 ^ 27).
        change (10 ^ 28) with (10 * 10 ^ 27). rewrite inject_Z_mult.
        change (inject_Z 10) with 10%Q. ring.
      + assert (A4 : (Dec.Etop <? k + e) = false).
        { apply Z.ltb_ge. subst k. lia. }
        rewrite A4. eexists. split; [reflexivity |].
        unfold Dec.val. cbn [Dec.coef Dec.exp]. rewrite Z.mul_1_l. reflexivity.
    - exists (Dec.kept c k). split; [apply (round_near c k false); lia |].
      assert (A4 : (Dec.Etop <? k + e) = false).
      { apply Z.ltb_ge. subst k. lia. }
      rewrite A4. eexists. split; [reflexivity |].
      unfold Dec.val. cbn [Dec.coef Dec.exp]. rewrite Z.mul_1_l. reflexivity. }
  destruct F as (q1 & Hq1 & d & Ed & Vd).
  exists d. split; [exact Ed |].
  replace (L + e - 28) with (k + e) by (subst k; lia).
  assert (Ediff : (Dec.val d - Dec.val (Dec.mk c e)
                   == Dec.val (Dec.mk (q1 * 10 ^ k - c) e))%Q).
  { rewrite Vd. unfold Dec.val. cbn [Dec.coef Dec.exp].
    rewrite pow10_add. rewrite (pow10_nonneg_exp k) by lia.
    unfold Z.sub. rewrite inject_Z_plus, inject_Z_mult, inject_Z_opp. ring. }
  rewrite Ediff, Qabs_val.
  rewrite pow10_add. rewrite (pow10_nonneg_exp k) by lia.
  apply Qmult_le_compat_r; [| apply Qlt_le_weak, pow10_pos].
  rewrite <- Zle_Qle. exact Hq1.
Qed.

(** ** Division that is not exact *)

Section InexactDivision.

Local Open Scope Q_scope.

Lemma Qabs_inject_Z (z : Z) : Qabs (inject_Z z) == inject_Z (Z.abs z).
Proof. unfold Qabs, inject_Z. reflexivity. Qed.

(** The quotient of two positive decimals, written at the exponent [e] at
    which the source divides the coefficients. *)
Lemma val_quotient (a b : Decimal) (s : Z) :
  (0 < Dec.coef b)%Z -> (0 <= s)%Z ->
  Dec.val a / Dec.val b
  == inject_Z (Dec.coef a * 10 ^ s) / inject_Z (Dec.coef b)
     * Dec.pow10 (Dec.exp a - Dec.exp b - s).
Proof.
intros Hb Hs. unfold Dec.val.
assert (Pb : ~ Dec.pow10 (Dec.exp b) == 0).
{ intro E. pose proof (pow10_pos (Dec.exp b)) as P. rewrite E in P.
  exact (Qlt_irrefl _ P). }
assert (Ib : ~ inject_Z (Dec.coef b) == 0).
{ intro E. assert (0 < inject_Z (Dec.coef b)) as P.
  { change 0 with (inject_Z 0). rewrite <- Zlt_Qlt. exact Hb. }
  rewrite E in P. exact (Qlt_irrefl _ P). }
replace (Dec.exp a) with ((Dec.exp a - Dec.exp b - s) + s + Dec.exp b)%Z at 1 by lia.
rewrite !pow10_add. rewrite (pow10_nonneg_exp s) by lia.
rewrite inject_Z_mult. field. split; assumption.
Qed.

Lemma div_finish (a b : Decimal) (s q' j : Z) :
  (0 < Dec.coef a)%Z -> (0 < Dec.coef b)%Z -> (0 <= s <= 60)%Z ->
  (-1000 <= Dec.exp a <= 1000)%Z -> (-1000 <= Dec.exp b <= 1000)%Z ->
  (0 < q')%Z -> (0 <= j <= s)%Z ->
  (Z.abs (q' * 10 ^ j * Dec.coef b - Dec.coef a * 10 ^ s) <= Dec.coef b)%Z ->
  (q' * 10 ^ j <= 10 ^ 30)%Z ->
  exists d,
    Dec._fix (Dec.mk q' (Dec.exp a - Dec.exp b - s + j)) = inr d
    /\ Qabs (Dec.val d - Dec.val a / Dec.val b)
       <= Dec.pow10 (Dec.exp a - Dec.exp b - s + 4).
Proof.
intros Ha Hb Hs Hea Heb Hq Hj Hnear Hbig.
set (e := (Dec.exp a - Dec.exp b - s)%Z).
assert (Pj : (0 < 10 ^ j)%Z) by (apply Z.pow_pos_nonneg; lia).
assert (Hj30 : (j <= 30)%Z).
{ apply (Z.pow_le_mono_r_iff 10); [lia | lia |]. nia. }
assert (Hq30 : (q' < 10 ^ (31 - j))%Z).
{ assert (E : (10 ^ 30 = 10 ^ (30 - j) * 10 ^ j)%Z).
  { rewrite <- Z.pow_add_r by lia. f_equal. lia. }
  assert (q' <= 10 ^ (30 - j))%Z by nia.
  replace (31 - j)%Z with (Z.succ (30 - j)) by lia.
  rewrite Z.pow_succ_r by lia.
  assert (0 < 10 ^ (30 - j))%Z by (apply Z.pow_pos_nonneg; lia). lia. }
assert (Hnd : (Dec.ndigits q' <= 31 - j)%Z) by (apply ndigits_le; [lia | exact Hq30]).
destruct (fix_round q' (e + j)) as (d & Ed & Vd).
{ exact Hq. }
{ unfold Dec.Etiny, Dec.Emin, Dec.prec. subst e. lia. }
{ unfold Dec.Etop, Dec.Emax, Dec.prec. subst e. lia. }
exists d. split; [exact Ed |].
set (P := Dec.pow10 e).
assert (PP : 0 < P) by apply pow10_pos.
(* the rounding of [_fix] *)
assert (B1 : Qabs (Dec.val d - Dec.val (Dec.mk q' (e + j))) <= 1000 * P).
{ eapply Qle_trans; [exact Vd |].
  apply Qle_trans with (Dec.pow10 (e + 3)).
  - apply pow10_le_mono. lia.
  - rewrite pow10_add_nonneg by lia. change (inject_Z (10 ^ 3)) with 1000.
    fold P. rewrite Qmult_comm. apply Qle_refl. }
(* the truncation of the integer quotient *)
assert (Ib : 0 < inject_Z (Dec.coef b)).
{ change 0 with (inject_Z 0). rewrite <- Zlt_Qlt. exact Hb. }
set (W := inject_Z (q' * 10 ^ j)).
set (X := inject_Z (Dec.coef a * 10 ^ s) / inject_Z (Dec.coef b)).
assert (HX : W - 1 <= X /\ X <= W + 1).
{ apply Z.abs_le in Hnear. destruct Hnear as [N1 N2]. subst W X. split.
  - apply Qle_shift_div_l; [exact Ib |].
    change 1 with (inject_Z 1). unfold Qminus.
    rewrite <- inject_Z_opp, <- inject_Z_plus, <- inject_Z_mult.
    rewrite <- Zle_Qle. lia.
  - apply Qle_shift_div_r; [exact Ib |].
    change 1 with (inject_Z 1).
    rewrite <- inject_Z_plus, <- inject_Z_mult.
    rewrite <- Zle_Qle. lia. }
assert (B2 : Qabs (Dec.val (Dec.mk q' (e + j)) - Dec.val a / Dec.val b) <= P).
{ rewrite (val_quotient a b s) by lia. fold e. fold X. fold P.
  unfold Dec.val. cbn [Dec.coef Dec.exp].
  rewrite pow10_add_nonneg by lia. fold P.
  setoid_replace (inject_Z q' * (P * inject_Z (10 ^ j)) - X * P)
    with ((W - X) * P)
    by (subst W; rewrite inject_Z_mult; ring).
  rewrite Qabs_Qmult. rewrite (Qabs_pos P) by (apply Qlt_le_weak; exact PP).
  setoid_replace P with (1 * P) at 2 by ring.
  apply Qmult_le_compat_r; [| apply Qlt_le_weak; exact PP].
  apply Qabs_Qle_condition. destruct HX as [X1 X2]. split; lra. }
replace (Dec.exp a - Dec.exp b - s + 4)%Z with (e + 4)%Z by (subst e; lia).
rewrite pow10_add_nonneg by lia. change (inject_Z (10 ^ 4)) with 10000. fold P.
setoid_replace (Dec.val d - Dec.val a / Dec.val b)
  with ((Dec.val d - Dec.val (Dec.mk q' (e + j)))
        + (Dec.val (Dec.mk q' (e + j)) - Dec.val a / Dec.val b)) by ring.
eapply Qle_trans; [apply Qabs_triangle |].
clearbody P. lra.
Qed.

End InexactDivision.

(** [a / b] for positive operands of at most 28 digits: the result is the
    quotient up to a relative error of 10^-24. *)
Lemma div_approx (a b : Decimal) :
  0 < Dec.coef a < 10 ^ 28 -> 0 < Dec.coef b < 10 ^ 28 ->
  -1000 <= Dec.exp a <= 1000 -> -1000 <= Dec.exp b <= 1000 ->
  exists q,
    Dec.div a b = inr q
    /\ (Qabs (Dec.val q - Dec.val a / Dec.val b)
        <= Dec.pow10 (Dec.len_int a + Dec.exp a
                      - (Dec.len_int b + Dec.exp b) - 25))%Q.
Proof.
intros Ha Hb Hea Heb.
unfold Dec.div, Dec.is_zero.
rewrite (proj2 (Z.eqb_neq (Dec.coef b) 0)) by lia.
rewrite (proj2 (Z.eqb_neq (Dec.coef a) 0)) by lia.
destruct (ndigits_spec (Dec.coef a) ltac:(lia)) as (La1 & Lalo & Lahi).
destruct (ndigits_spec (Dec.coef b) ltac:(lia)) as (Lb1 & Lblo & Lbhi).
assert (La28 : Dec.ndigits (Dec.coef a) <= 28) by (apply ndigits_le; lia).
assert (Lb28 : Dec.ndigits (Dec.coef b) <= 28) by (apply ndigits_le; lia).
unfold Dec.len_int. rewrite !Z.abs_eq by lia.
rewrite !Z.sgn_pos by lia. rewrite !Z.mul_1_l.
set (la := Dec.ndigits (Dec.coef a)) in *.
set (lb := Dec.ndigits (Dec.coef b)) in *.
unfold Dec.prec.
set (s := lb - la + 28 + 1).
assert (Hs : 2 <= s <= 56) by (subst s; lia).
rewrite (proj2 (Z.leb_le 0 s)) by lia.
set (N := Dec.coef a * 10 ^ s). set (D := Dec.coef b).
set (e := Dec.exp a - Dec.exp b - s).
assert (Ps : 0 < 10 ^ s) by (apply Z.pow_pos_nonneg; lia).
pose proof (Z.div_mod N D ltac:(subst D; lia)) as DM.
pose proof (Z.mod_pos_bound N D ltac:(subst D; lia)) as MB.
(* the integer quotient has 29 or 30 digits *)
assert (Q30 : N / D < 10 ^ 30).
{ apply Z.div_lt_upper_bound; [subst D; lia |].
  apply Z.lt_le_trans with (10 ^ la * 10 ^ s).
  - subst N. apply Z.mul_lt_mono_pos_r; [exact Ps | exact Lahi].
  - rewrite <- Z.pow_add_r by lia.
    replace (la + s) with ((lb - 1) + 30) by (subst s; lia).
    rewrite Z.pow_add_r by lia.
    apply Z.mul_le_mono_nonneg_r; [apply Z.pow_nonneg; lia | exact Lblo]. }
assert (Q28 : 10 ^ 28 <= N / D).
{ apply Z.div_le_lower_bound; [subst D; lia |].
  apply Z.le_trans with (10 ^ lb * 10 ^ 28).
  - apply Z.mul_le_mono_nonneg_r; [apply Z.pow_nonneg; lia | subst D; lia].
  - rewrite <- Z.pow_add_r by lia.
    replace (lb + 28) with ((la - 1) + s) by (subst s; lia).
    rewrite Z.pow_add_r by lia. subst N.
    apply Z.mul_le_mono_nonneg_r; [lia | exact Lalo]. }
assert (P28 : 0 < 10 ^ 28) by (apply Z.pow_pos_nonneg; lia).
replace (la + Dec.exp a - (lb + Dec.exp b) - 25)
  with (Dec.exp a - Dec.exp b - s + 4) by (subst s; lia).
destruct (N mod D =? 0) eqn:R0.
- apply Z.eqb_eq in R0.
  pose proof (strip_zeros_spec (Z.to_nat (Dec.exp a - Dec.exp b - e)) (N / D) e
                (Dec.exp a - Dec.exp b)) as S.
  cbv zeta in S.
  destruct (Dec.strip_zeros (Z.to_nat (Dec.exp a - Dec.exp b - e)) (N / D) e
              (Dec.exp a - Dec.exp b)) as [q' e'].
  cbn [fst snd] in S. destruct S as (S1 & S2 & S3).
  assert (Pj : 0 < 10 ^ (e' - e)) by (apply Z.pow_pos_nonneg; lia).
  rewrite Z.mul_1_l.
  replace e' with (Dec.exp a - Dec.exp b - s + (e' - e)) by (subst e; lia).
  apply (div_finish a b s q' (e' - e)); try lia;
    try (rewrite S1; fold D; fold N; lia); try nia; subst e; lia.
- apply Z.eqb_neq in R0.
  assert (F : forall q', (q' = N / D \/ q' = N / D + 1) ->
              exists q,
                Dec._fix (Dec.mk q' e) = inr q
                /\ (Qabs (Dec.val q - Dec.val a / Dec.val b)
                    <= Dec.pow10 (Dec.exp a - Dec.exp b - s + 4))%Q).
  { intros q' Hq'. replace e with (Dec.exp a - Dec.exp b - s + 0) by (subst e; lia).
    apply (div_finish a b s q' 0); try lia;
      rewrite Z.pow_0_r, Z.mul_1_r; fold D; fold N; lia. }
  destruct ((N / D) mod 5 =? 0); rewrite Z.mul_1_l; apply F;
    [right | left]; reflexivity.
Qed.

(** ** The reverse calculation *)

Section RoundTrip.

Local Open Scope Q_scope.

Lemma half_up_cents_exact (x : Q) (k : Z) :
  x * 100 == inject_Z k -> half_up_cents x = k.
Proof.
intro E. unfold half_up_cents. destruct (Qle_bool 0 x).
- rewrite E. apply Qfloor_half.
- setoid_replace (- x * 100) with (- (x * 100)) by ring.
  rewrite E, <- inject_Z_opp, Qfloor_half. lia.
Qed.

(** Rounding the two halves moves the total by at most one hundredth, and
    dividing by [1 + rate] does not widen the gap. *)
Lemma round_trip_bound (n h : Z) (rho y : Q) :
  (0 <= n)%Z -> 0 <= rho ->
  inject_Z h - (1 # 2) <= inject_Z n * rho / 2 ->
  inject_Z n * rho / 2 <= inject_Z h + (1 # 2) ->
  Qabs (y * 100 - inject_Z (n + 2 * h) / (1 + rho)) <= 1 # 4 ->
  (Z.abs (half_up_cents y - n) <= 1 /\ 0 <= half_up_cents y)%Z.
Proof.
intros Hn Hrho H1 H2 Hy.
unfold Qdiv in H1, H2. change (/ 2) with (1 # 2) in H1, H2.
destruct (half_up_cents_near y) as [M1 M2].
set (m := half_up_cents y) in *.
set (X := inject_Z (n + 2 * h) / (1 + rho)) in *.
apply Qabs_Qle_condition in Hy. destruct Hy as [Y1 Y2].
assert (P : 0 < 1 + rho) by lra.
set (u := inject_Z n * rho) in *.
assert (ET : inject_Z (n + 2 * h) == inject_Z n + 2 * inject_Z h).
{ rewrite inject_Z_plus, inject_Z_mult. reflexivity. }
assert (Nn : 0 <= inject_Z n).
{ change 0 with (inject_Z 0). rewrite <- Zle_Qle. exact Hn. }
assert (Hu : 0 <= u) by (subst u; apply Qmult_le_0_compat; assumption).
assert (XL : inject_Z n - 1 <= X).
{ subst X. apply Qle_shift_div_l; [exact P |]. rewrite ET.
  setoid_replace ((inject_Z n - 1) * (1 + rho))
    with (inject_Z n + u - 1 - rho) by (subst u; ring).
  lra. }
assert (XU : X <= inject_Z n + 1).
{ subst X. apply Qle_shift_div_r; [exact P |]. rewrite ET.
  setoid_replace ((inject_Z n + 1) * (1 + rho))
    with (inject_Z n + u + 1 + rho) by (subst u; ring).
  lra. }
assert (D1 : inject_Z (m - n) < inject_Z 2).
{ unfold Z.sub. rewrite inject_Z_plus, inject_Z_opp.
  change (inject_Z 2) with 2. lra. }
assert (D2 : inject_Z (-2) < inject_Z (m - n)).
{ unfold Z.sub. rewrite inject_Z_plus, inject_Z_opp.
  change (inject_Z (-2)) with (-2). lra. }
rewrite <- Zlt_Qlt in D1, D2.
split; [lia |].
destruct (Z.eq_dec n 0) as [E0 | E0]; [| lia].
assert (Eu : u == 0) by (subst u; rewrite E0; change (inject_Z 0) with 0; ring).
assert (Eh : h = 0%Z).
{ assert (A : inject_Z (-1) < inject_Z h).
  { change (inject_Z (-1)) with (-1). lra. }
  assert (B : inject_Z h < inject_Z 1).
  { change (inject_Z 1) with 1. lra. }
  rewrite <- Zlt_Qlt in A, B. lia. }
assert (EX : X == 0).
{ subst X. rewrite E0, Eh. change (inject_Z (0 + 2 * 0)) with 0.
  unfold Qdiv. ring. }
assert (D3 : inject_Z (-1) < inject_Z m).
{ change (inject_Z (-1)) with (-1). lra. }
rewrite <- Zlt_Qlt in D3. lia.
Qed.

End RoundTrip.

(** The divisor [1 + gst_rate / 100] of the reverse calculation. *)
Lemma reverse_divisor (r : Decimal) :
  rate_ok r -> (0 <= Dec.val r <= 100)%Q ->
  exists q1 D,
    Dec.div r (Dec.of_int 100) = inr q1
    /\ Dec.add q1 (Dec.of_int 1) = inr D
    /\ (Dec.val D == 1 + Dec.val r / 100)%Q
    /\ 0 < Dec.coef D < 10 ^ 28
    /\ -8 <= Dec.exp D <= 0
    /\ 1 <= Dec.len_int D + Dec.exp D.
Proof.
intros [[Rc1 Rc2] Re] [Rv1 Rv2].
change (10 ^ 9) with 1000000000 in Rc2.
destruct (div_hundred r) as (q1 & E1 & V1 & C1 & X1).
{ rewrite Z.abs_eq by lia. change (10 ^ 28) with 10000000000000000000000000000. lia. }
{ unfold Dec.Etiny, Dec.Etop, Dec.Emin, Dec.Emax, Dec.prec. lia. }
rewrite (Z.abs_eq (Dec.coef r)) in C1 by lia.
assert (Q0 : 0 <= Dec.coef q1).
{ assert (V : (0 <= Dec.val q1)%Q) by lra.
  destruct q1 as [c e]. cbn [Dec.coef].
  apply Qle_bool_iff in V. rewrite val_sign in V. apply Z.leb_le. exact V. }
rewrite (Z.abs_eq (Dec.coef q1)) in C1 by lia.
set (e := Z.min (Dec.exp q1) 0).
set (s := Dec.coef q1 * 10 ^ (Dec.exp q1 - e) + 1 * 10 ^ (0 - e)).
assert (P1 : 0 < 10 ^ (Dec.exp q1 - e) <= 10 ^ 2).
{ split; [apply Z.pow_pos_nonneg; subst e; lia |].
  apply Z.pow_le_mono_r; subst e; lia. }
assert (P2 : 0 < 10 ^ (0 - e) <= 10 ^ 8).
{ split; [apply Z.pow_pos_nonneg; subst e; lia |].
  apply Z.pow_le_mono_r; subst e; lia. }
change (10 ^ 2) with 100 in P1. change (10 ^ 8) with 100000000 in P2.
assert (Hs : 10 ^ (0 - e) <= s < 10 ^ 28).
{ change (10 ^ 28) with 10000000000000000000000000000. subst s. nia. }
pose proof (add_nonneg q1 (Dec.of_int 1)) as A.
cbn [Dec.of_int Dec.coef Dec.exp] in A. fold e in A. fold s in A. cbv zeta in A.
pose proof (val_add_aligned q1 (Dec.of_int 1)) as VA.
cbn [Dec.of_int Dec.coef Dec.exp] in VA. fold e in VA. fold s in VA.
cbv zeta in VA.
assert (He : -8 <= e <= 0 /\ Z.abs (Dec.exp q1 - 0) <= 29) by (subst e; lia).
clearbody s. clearbody e.
exists q1, (Dec.mk s e). split; [exact E1 |]. split.
{ apply A; [exact Q0 | lia | |].
  - split; [rewrite Z.abs_eq by lia; lia |].
    unfold Dec.Etiny, Dec.Etop, Dec.Emin, Dec.Emax, Dec.prec. lia.
  - unfold Dec.prec. lia. }
split; [| split; [| split]].
- rewrite VA. rewrite val_of_int.
  change (inject_Z 1) with 1%Q. rewrite <- V1. field.
- cbn [Dec.coef]. lia.
- cbn [Dec.exp]. lia.
- unfold Dec.len_int. cbn [Dec.coef Dec.exp]. rewrite Z.abs_eq by lia.
  pose proof (ndigits_ge s (0 - e) ltac:(lia) ltac:(lia) (proj1 Hs)).
  lia.
Qed.

(** The quotient [total_amount / divisor] and its rounding to two places. *)
Lemma reverse_quotient (T : Z) (D : Decimal) :
  0 <= T < 10 ^ 19 -> 0 < Dec.coef D < 10 ^ 28 -> -8 <= Dec.exp D <= 0 ->
  1 <= Dec.len_int D + Dec.exp D -> (1 <= Dec.val D)%Q ->
  exists q,
    Dec.div (cents T) D = inr q
    /\ quantize2 q = inr (cents (half_up_cents (Dec.val q)))
    /\ (Qabs (Dec.val q * 100 - inject_Z T / Dec.val D) <= 1 # 4)%Q.
Proof.
intros HT HD HeD Hadj HvD.
assert (T17 : (inject_Z T / 100 <= inject_Z (10 ^ 17))%Q).
{ apply Qle_shift_div_r; [reflexivity |].
  change 100%Q with (inject_Z 100). rewrite <- inject_Z_mult, <- Zle_Qle.
  change (10 ^ 19) with 10000000000000000000 in HT.
  change (10 ^ 17) with 100000000000000000. lia. }
assert (T0 : (0 <= inject_Z T)%Q).
{ change 0%Q with (inject_Z 0). rewrite <- Zle_Qle. lia. }
assert (Big : (inject_Z (10 ^ 17) + 1 < Dec.pow10 25)%Q)
  by (vm_compute; reflexivity).
destruct (Z.eq_dec T 0) as [E0 | E0].
- subst T. exists (Dec.mk 0 (-2 - Dec.exp D)).
  assert (V0 : (Dec.val (Dec.mk 0 (-2 - Dec.exp D)) == 0)%Q).
  { unfold Dec.val. cbn [Dec.coef]. change (inject_Z 0) with 0%Q. ring. }
  split; [| split].
  + unfold Dec.div, Dec.is_zero. cbn [cents Dec.coef Dec.exp].
    rewrite (proj2 (Z.eqb_neq (Dec.coef D) 0)) by lia. cbn [Z.eqb].
    apply fix_exact. split; [reflexivity |].
    unfold Dec.Etiny, Dec.Etop, Dec.Emin, Dec.Emax, Dec.prec. lia.
  + apply quantize2_val. rewrite V0. reflexivity.
  + rewrite V0. change (inject_Z 0) with 0%Q.
    setoid_replace (0 * 100 - 0 / Dec.val D)%Q with 0%Q
      by (unfold Qdiv; ring).
    discriminate.
- destruct (div_approx (cents T) D) as (q & Eq & Vq).
  { cbn [cents Dec.coef]. change (10 ^ 19) with 10000000000000000000 in HT.
    change (10 ^ 28) with 10000000000000000000000000000. lia. }
  { exact HD. }
  { cbn [cents Dec.exp]. lia. }
  { lia. }
  assert (La : Dec.len_int (cents T) <= 19).
  { apply len_int_le; [lia |]. cbn [cents Dec.coef]. rewrite Z.abs_eq; lia. }
  assert (Vq' : (Qabs (Dec.val q - Dec.val (cents T) / Dec.val D)
                 <= 1 # 1000000000)%Q).
  { eapply Qle_trans; [exact Vq |].
    apply Qle_trans with (Dec.pow10 (-9)).
    - apply pow10_le_mono. cbn [cents Dec.exp]. lia.
    - vm_compute. discriminate. }
  clear Vq. rewrite val_cents in Vq'.
  set (X := (inject_Z T / 100 / Dec.val D)%Q) in *.
  assert (PD : (0 < Dec.val D)%Q) by lra.
  assert (X0 : (0 <= X)%Q).
  { subst X. apply Qle_shift_div_l; [exact PD |].
    apply Qle_shift_div_l; [reflexivity |]. lra. }
  assert (X1 : (X <= inject_Z T / 100)%Q).
  { subst X. apply Qle_shift_div_r; [exact PD |].
    assert (0 <= inject_Z T / 100)%Q
      by (apply Qle_shift_div_l; [reflexivity | lra]).
    set (w := (inject_Z T / 100)%Q) in *. clearbody w.
    setoid_replace w with (1 * w)%Q at 1 by ring.
    rewrite (Qmult_comm w). apply Qmult_le_compat_r; assumption. }
  apply Qabs_Qle_condition in Vq'. destruct Vq' as [Q1 Q2].
  exists q. split; [exact Eq |]. split.
  + apply quantize2_val. eapply Qle_lt_trans; [| exact Big].
    apply Qabs_Qle_condition. clearbody X. split; lra.
  + assert (EX : (inject_Z T / Dec.val D == X * 100)%Q).
    { subst X. field. intro Z0. rewrite Z0 in PD. exact (Qlt_irrefl _ PD). }
    rewrite EX. apply Qabs_Qle_condition. clearbody X. split; lra.
Qed.

(** ** The round trip through the reverse calculation *)

Lemma C9_counterexample :
  round_trip (cents (10 ^ 29)) (Dec.of_int 18) = inl InvalidOperation
  /\ Dec.exp (cents (10 ^ 29)) = -2
  /\ Dec.ltb (cents (10 ^ 29)) (Dec.of_int 0) = false.
Proof.
split; [| split]; vm_compute; reflexivity.
Qed.

(** C9 (amended): for every two-decimal taxable amount [t] of [n] hundredths
    with [0 <= n < 10^17] and every rate in [0, 100] with at most nine digits
    and six decimals, the intrastate breakdown succeeds, the reverse
    calculation applied to its total amount succeeds, and the taxable amount
    it recovers is a two-decimal amount within 0.01 of [t]; for t = 1000.00
    and rate 18 the total is 1180.00 and the recovered amount is exactly
    1000.00. *)
Theorem C9_round_trip (n : Z) (r : Decimal) :
  0 <= n < 10 ^ 17 -> rate_ok r -> (0 <= Dec.val r <= 100)%Q ->
  (exists fwd rev m,
     GSTCalculator.calculate_gst_breakdown (cents n) r false = inr fwd
     /\ GSTCalculator.calculate_reverse_gst (GSTCalculator.total_amount fwd) r
          false = inr rev
     /\ GSTCalculator.taxable_amount rev = cents m
     /\ round_trip (cents n) r = inr (cents m)
     /\ Z.abs (m - n) <= 1
     /\ (Qabs (Dec.val (cents m) - Dec.val (cents n)) <= 1 # 100)%Q)
  /\ breakdown_field GSTCalculator.total_amount
       (GSTCalculator.calculate_gst_breakdown (cents 100000) (Dec.of_int 18) false)
     = inr (cents 118000)
  /\ round_trip (cents 100000) (Dec.of_int 18) = inr (cents 100000).
Proof.
intros Hn Hr Hv. split; [| split; vm_compute; reflexivity].
change (10 ^ 17) with 100000000000000000 in Hn.
assert (Hrange : rate_in_range r = true) by (apply rate_in_range_val; exact Hv).
assert (Hok : amount_ok (cents n)).
{ unfold amount_ok. cbn [cents Dec.coef Dec.exp].
  change (10 ^ 18) with 1000000000000000000. lia. }
destruct (breakdown_intrastate (cents n) r Hok Hr Hrange)
  as (h & _ & _ & Ef & Hhalf).
cbv zeta in Ef, Hhalf.
set (half := half_up_cents (Dec.val (cents n) * (Dec.val r / 2) / 100)) in *.
set (rho := (Dec.val r / 100)%Q).
assert (Hrho : (0 <= rho <= 1)%Q).
{ subst rho. destruct Hv as [V1 V2]. split.
  - apply Qle_shift_div_l; [reflexivity | lra].
  - apply Qle_shift_div_r; [reflexivity | lra]. }
assert (Ex : (Dec.val (cents n) * (Dec.val r / 2) / 100 * 100
              == inject_Z n * rho / 2)%Q).
{ rewrite val_cents. subst rho. field. }
destruct (half_up_cents_near (Dec.val (cents n) * (Dec.val r / 2) / 100))
  as [N1 N2].
fold half in N1, N2. rewrite Ex in N1, N2.
assert (Nn : (0 <= inject_Z n)%Q).
{ change 0%Q with (inject_Z 0). rewrite <- Zle_Qle. lia. }
(* the total is exact, and at most twice the amount plus a hundredth *)
assert (Hh : 2 * half <= n + 1).
{ assert (A : (inject_Z (2 * half) < inject_Z (n + 2))%Q).
  { rewrite inject_Z_mult, inject_Z_plus.
    change (inject_Z 2) with 2%Q.
    assert (U : (inject_Z n * rho <= inject_Z n)%Q).
    { setoid_replace (inject_Z n) with (inject_Z n * 1)%Q at 2 by ring.
      rewrite !(Qmult_comm (inject_Z n)).
      apply Qmult_le_compat_r; [apply Hrho | exact Nn]. }
    set (u := (inject_Z n * rho)%Q) in *. clearbody u.
    unfold Qdiv in N1. change (/ 2)%Q with (1 # 2)%Q in N1. lra. }
  rewrite <- Zlt_Qlt in A. lia. }
set (T := n + 2 * half).
assert (ET : half_up_cents (Dec.val (cents n) + Dec.val (cents (half + half))) = T).
{ apply half_up_cents_exact. rewrite !val_cents. subst T.
  rewrite !inject_Z_plus, inject_Z_mult. change (inject_Z 2) with 2%Q. field. }
rewrite ET in Ef.
(* the reverse calculation *)
destruct (reverse_divisor r Hr Hv) as (q1 & D & E1 & E2 & VD & CD & XD & AD).
fold rho in VD.
destruct (reverse_quotient T D) as (q & Eq & Qq & Vq); try assumption.
{ change (10 ^ 19) with 10000000000000000000. subst T. lia. }
{ rewrite VD. lra. }
rewrite VD in Vq.
destruct (round_trip_bound n half rho (Dec.val q)) as [Hm Hm0].
{ lia. }
{ apply Hrho. }
{ exact N1. }
{ exact N2. }
{ exact Vq. }
set (m := half_up_cents (Dec.val q)) in *.
assert (Hokm : amount_ok (cents m)).
{ unfold amount_ok. cbn [cents Dec.coef Dec.exp].
  change (10 ^ 18) with 1000000000000000000. lia. }
destruct (breakdown_intrastate (cents m) r Hokm Hr Hrange)
  as (h' & _ & _ & Er & _).
cbv zeta in Er.
assert (Erev : GSTCalculator.calculate_reverse_gst (cents T) r false
               = GSTCalculator.calculate_gst_breakdown (cents m) r false).
{ unfold GSTCalculator.calculate_reverse_gst.
  assert (L : Dec.ltb (cents T) (Dec.of_int 0) = false).
  { apply ltb_val_false. rewrite val_of_int. apply val_nonneg. subst T. lia. }
  rewrite L, E1. cbn [bind]. rewrite E2. cbn [bind]. rewrite Eq. cbn [bind].
  rewrite Qq. reflexivity. }
eexists. eexists. exists m.
split; [exact Ef |]. cbn [GSTCalculator.total_amount].
split; [rewrite Erev; exact Er |]. cbn [GSTCalculator.taxable_amount].
split; [reflexivity |]. split; [| split].
- unfold round_trip. rewrite Ef. cbn [bind GSTCalculator.total_amount].
  rewrite Erev, Er. reflexivity.
- exact Hm.
- rewrite !val_cents.
  setoid_replace (inject_Z m / 100 - inject_Z n / 100)%Q
    with (inject_Z (m - n) * (1 # 100))%Q
    by (unfold Z.sub; rewrite inject_Z_plus, inject_Z_opp; field).
  rewrite Qabs_Qmult, Qabs_inject_Z.
  change (Qabs (1 # 100)) with (1 # 100)%Q.
  setoid_replace (1 # 100)%Q with (1 * (1 # 100))%Q at 2 by ring.
  apply Qmult_le_compat_r; [| discriminate].
  change 1%Q with (inject_Z 1). rewrite <- Zle_Qle. exact Hm.
Qed.

Lemma C9_witness :
  exists m, round_trip (cents 123457) (Dec.mk 125 (-1)) = inr (cents m)
            /\ Z.abs (m - 123457) <= 1.
Proof.
destruct (proj1 (C9_round_trip 123457 (Dec.mk 125 (-1))
                   ltac:(split; [lia | reflexivity])
                   ltac:(unfold rate_ok; cbn [Dec.coef Dec.exp];
                         split; [split; [lia | reflexivity] | lia])
                   ltac:(split; vm_compute; discriminate)))
  as (fwd & rev & m & _ & _ & _ & E & B & _).
exists m. split; [exact E | exact B].
Defined.

(* ===================================================================== *)
(** * Part III: further properties of the modelled code                  *)
(* ===================================================================== *)

(** ** Rates: [validate_gst_rate], [get_gst_slab_info],
       [suggest_nearest_gst_rate] *)

Lemma mem_standard (r : Z) :
  GSTCalculator.mem r GSTCalculator.STANDARD_GST_RATES = true
  <-> r = 0 \/ r = 3 \/ r = 5 \/ r = 12 \/ r = 18 \/ r = 28.
Proof.
unfold GSTCalculator.mem, GSTCalculator.STANDARD_GST_RATES. cbn [existsb].
rewrite !orb_true_iff, !Z.eqb_eq. intuition discriminate.
Qed.

Lemma in_standard (r : Z) :
  In r GSTCalculator.STANDARD_GST_RATES
  <-> r = 0 \/ r = 3 \/ r = 5 \/ r = 12 \/ r = 18 \/ r = 28.
Proof.
unfold GSTCalculator.STANDARD_GST_RATES. cbn [In]. intuition congruence.
Qed.

(** X1: for every integral rate [suggest_nearest_gst_rate] returns a standard
    rate; no standard rate is nearer to the argument, and of two standard
    rates at the same distance the lower one is returned; the argument itself
    is returned exactly when it is standard. *)
Theorem suggest_nearest_gst_rate_nearest (rate : Z) :
  exists s,
    GSTCalculator.suggest_nearest_gst_rate rate = inr s
    /\ In s GSTCalculator.STANDARD_GST_RATES
    /\ (forall x, In x GSTCalculator.STANDARD_GST_RATES ->
          Z.abs (s - rate) <= Z.abs (x - rate)
          /\ (Z.abs (x - rate) = Z.abs (s - rate) -> s <= x))
    /\ (s = rate <-> In rate GSTCalculator.STANDARD_GST_RATES).
Proof.
unfold GSTCalculator.suggest_nearest_gst_rate.
destruct (GSTCalculator.mem rate GSTCalculator.STANDARD_GST_RATES) eqn:M.
- apply mem_standard in M. exists rate. split; [reflexivity |].
  split; [apply in_standard; exact M |]. split.
  + intros x Hx. apply in_standard in Hx. lia.
  + split; [intros _; apply in_standard; exact M | reflexivity].
- assert (N : ~ (rate = 0 \/ rate = 3 \/ rate = 5 \/ rate = 12 \/ rate = 18
                 \/ rate = 28)).
  { intro H. apply mem_standard in H. congruence. }
  unfold GSTCalculator.min_by, GSTCalculator.STANDARD_GST_RATES, ret.
  cbn [fold_left].
  repeat match goal with
         | |- context [if ?a <? ?b then _ else _] =>
             lazymatch a with
             | context [if _ then _ else _] => fail
             | _ =>
                 lazymatch b with
                 | context [if _ then _ else _] => fail
                 | _ => destruct (Z.ltb_spec a b)
                 end
             end
         end;
    eexists; (split; [reflexivity |]);
    (split; [apply in_standard; lia |]);
    (split; [intros x Hx; apply in_standard in Hx; lia |]);
    (split; [intro E; exfalso; apply N; lia
            | intro E; exfalso; apply N; apply in_standard; exact E]).
Qed.

(** X2: [get_gst_slab_info] knows exactly the standard rates, so the rate
    that [suggest_nearest_gst_rate] proposes always has a slab description
    and always passes [validate_gst_rate]. *)
Theorem suggested_rate_has_slab (rate : Z) :
  ((exists d, GSTCalculator.get_gst_slab_info rate = Some d)
   <-> In rate GSTCalculator.STANDARD_GST_RATES)
  /\ exists s d,
       GSTCalculator.suggest_nearest_gst_rate rate = inr s
       /\ GSTCalculator.get_gst_slab_info s = Some d
       /\ GSTCalculator.validate_gst_rate s = true.
Proof.
split.
- rewrite in_standard. unfold GSTCalculator.get_gst_slab_info, GSTCalculator.GST_SLABS.
  cbn [GSTCalculator.slab_get]. split.
  + intros [d H].
    repeat match type of H with
           | (if ?a =? ?b then _ else _) = _ =>
               destruct (Z.eqb_spec a b); [lia |]
           end.
    discriminate H.
  + intros [-> | [-> | [-> | [-> | [-> | ->]]]]]; eexists; reflexivity.
- unfold GSTCalculator.suggest_nearest_gst_rate.
  destruct (GSTCalculator.mem rate GSTCalculator.STANDARD_GST_RATES) eqn:M.
  + apply mem_standard in M.
    destruct M as [-> | [-> | [-> | [-> | [-> | ->]]]]];
      eexists; eexists; (split; [reflexivity |]); split; reflexivity.
  + unfold GSTCalculator.min_by, GSTCalculator.STANDARD_GST_RATES, ret.
    cbn [fold_left].
    repeat match goal with
           | |- context [if ?a <? ?b then _ else _] => destruct (a <? b)
           end;
      eexists; eexists; (split; [reflexivity |]); split; reflexivity.
Qed.

(** X3: [validate_gst_rate] accepts exactly the integral rates from 0 to
    100: the list of standard rates adds nothing to the range test, and a
    rate need not be standard to be accepted. *)
Theorem validate_gst_rate_range (r : Z) :
  GSTCalculator.validate_gst_rate r = true <-> 0 <= r <= 100.
Proof.
unfold GSTCalculator.validate_gst_rate.
rewrite orb_true_iff, andb_true_iff, mem_standard, Z.leb_le, Z.leb_le. lia.
Qed.

(** ** [get_state_from_gstin] *)

(** Every character is one of the 256 code points. *)
Lemma ascii_all (P : ascii -> ascii -> bool) :
  forallb (fun n => forallb (fun m => P (ascii_of_nat n) (ascii_of_nat m))
                      (seq 0 256)) (seq 0 256) = true ->
  forall a b, P a b = true.
Proof.
intros H a b. rewrite forallb_forall in H.
specialize (H (nat_of_ascii a)). rewrite forallb_forall in H.
specialize (H ltac:(apply in_seq; pose proof (nat_ascii_bounded a); lia)
              (nat_of_ascii b)
              ltac:(apply in_seq; pose proof (nat_ascii_bounded b); lia)).
rewrite !ascii_nat_embedding in H. exact H.
Qed.

(** The table [state_codes] has an entry exactly for the two-digit codes
    01 to 37. *)
Lemma state_codes_keys (a b : ascii) :
  match GSTCalculator.dict_find GSTCalculator.state_codes (String a (String b ""))
  with Some _ => true | None => false end
  = PyStr.is_digit a && PyStr.is_digit b
    && (1 <=? 10 * (PyStr.code a - 48) + (PyStr.code b - 48))
    && (10 * (PyStr.code a - 48) + (PyStr.code b - 48) <=? 37).
Proof.
apply Bool.eqb_prop. revert a b.
apply (ascii_all (fun a b =>
  Bool.eqb
    match GSTCalculator.dict_find GSTCalculator.state_codes (String a (String b ""))
    with Some _ => true | None => false end
    (PyStr.is_digit a && PyStr.is_digit b
     && (1 <=? 10 * (PyStr.code a - 48) + (PyStr.code b - 48))
     && (10 * (PyStr.code a - 48) + (PyStr.code b - 48) <=? 37)))).
vm_compute. reflexivity.
Qed.

Lemma state_code_found (g : string) :
  (exists st, GSTCalculator.get_state_from_gstin g = Some st)
  <-> GstinSpec.state_code_ok g = true.
Proof.
unfold GSTCalculator.get_state_from_gstin, GstinSpec.state_code_ok,
  GstinSpec.char_ok, GstinSpec.digit_at.
destruct g as [| a [| b rest]].
- cbn. split; [intros [st H]; discriminate H | intro H; discriminate H].
- cbn. rewrite andb_false_r. cbn.
  split; [intros [st H]; discriminate H | intro H; discriminate H].
- assert (L : (PyStr.len (String a (String b rest)) <? 2) = false).
  { apply Z.ltb_ge. unfold PyStr.len. cbn [String.length]. lia. }
  rewrite L. cbn [PyStr.is_empty orb String.get].
  assert (S2 : PyStr.slice_to 2 (String a (String b rest)) = String a (String b "")).
  { unfold PyStr.slice_to. cbn [substring]. destruct rest; reflexivity. }
  rewrite S2. rewrite <- state_codes_keys.
  destruct (GSTCalculator.dict_find GSTCalculator.state_codes (String a (String b ""))).
  + split; [reflexivity | intros _; eexists; reflexivity].
  + split; [intros [st H]; discriminate H | intro H; discriminate H].
Qed.

(** X4: [get_state_from_gstin] returns a state exactly when the string starts
    with two digits that form a number from 01 to 37; on the empty string, on
    a single character and on every other prefix it returns [None]. *)
Theorem get_state_from_gstin_defined (g : string) :
  (exists st, GSTCalculator.get_state_from_gstin g = Some st)
  <-> exists a b rest,
        g = String a (String b rest)
        /\ PyStr.is_digit a = true /\ PyStr.is_digit b = true
        /\ 1 <= 10 * (PyStr.code a - 48) + (PyStr.code b - 48) <= 37.
Proof.
rewrite state_code_found.
unfold GstinSpec.state_code_ok, GstinSpec.char_ok, GstinSpec.digit_at.
destruct g as [| a [| b rest]].
- cbn. split; [intro H; discriminate H | intros (a & b & rest & E & _); discriminate E].
- cbn. rewrite andb_false_r. cbn.
  split; [intro H; discriminate H | intros (a' & b & rest & E & _); discriminate E].
- cbn [String.get]. rewrite !andb_true_iff, !Z.leb_le. split.
  + intros [[[Ha Hb] H1] H2]. exists a, b, rest. repeat split; assumption.
  + intros (a' & b' & rest' & E & Ha & Hb & H1 & H2).
    injection E as -> -> _. repeat split; assumption.
Qed.



(** ** Invoices: the totals and the list of items *)












Lemma sum_from_app (f : InvoiceItem -> result Decimal) (it : InvoiceItem) :
  forall l acc,
    Inv.sum_from acc f (l ++ [it])%list
    = (s <- Inv.sum_from acc f l ;; v <- f it ;; Inv.num_add s (NDec v)).
Proof.
induction l as [| x l IH]; intro acc; cbn [List.app Inv.sum_from].
- cbn [ret bind]. destruct (f it) as [e | v]; cbn [bind]; [reflexivity |].
  destruct (Inv.num_add acc (NDec v)); reflexivity.
- destruct (f x) as [e | v]; cbn [bind]; [reflexivity |].
  destruct (Inv.num_add acc (NDec v)) as [e | acc']; cbn [bind]; [reflexivity |].
  apply IH.
Qed.

(** X7: [add_item] appends: every sum over the items of the extended invoice
    is the sum over the old items plus the value of the new item, in this
    order, and the classification of the invoice does not change. *)
Theorem add_item_totals (inv : Invoice) (it : InvoiceItem) :
  items (Inv.add_item inv it) = (items inv ++ [it])%list
  /\ Inv.is_interstate (Inv.add_item inv it) = Inv.is_interstate inv
  /\ Inv.total_gross_amount (Inv.add_item inv it)
     = (s <- Inv.total_gross_amount inv ;;
        v <- Item.gross_amount it ;; Inv.num_add s (NDec v))
  /\ Inv.total_discount_amount (Inv.add_item inv it)
     = (s <- Inv.total_discount_amount inv ;;
        v <- Item.total_discount it ;; Inv.num_add s (NDec v))
  /\ Inv.total_taxable_amount (Inv.add_item inv it)
     = (s <- Inv.total_taxable_amount inv ;;
        v <- Item.taxable_amount it ;; Inv.num_add s (NDec v)).
Proof.
split; [reflexivity |]. split; [reflexivity |].
unfold Inv.total_gross_amount, Inv.total_discount_amount,
  Inv.total_taxable_amount, Inv.sum, Inv.add_item, Inv.set_items.
cbn [items]. rewrite !sum_from_app. repeat split; reflexivity.
Qed.

Lemma del_at_length (l : list InvoiceItem) :
  forall i, (i < List.length l)%nat ->
    S (List.length (Inv.del_at i l)) = List.length l
    /\ Inv.del_at i l = (firstn i l ++ skipn (S i) l)%list.
Proof.
induction l as [| x l IH]; intros i Hi; [cbn in Hi; lia |].
destruct i as [| i]; cbn [Inv.del_at List.length firstn skipn List.app].
- split; reflexivity.
- cbn [List.length] in Hi. destruct (IH i ltac:(lia)) as [A B].
  split; [lia | rewrite B; reflexivity].
Qed.

Lemma del_at_last (l : list InvoiceItem) (it : InvoiceItem) :
  Inv.del_at (List.length l) (l ++ [it])%list = l.
Proof.
induction l as [| x l IH]; [reflexivity |].
cbn [List.length List.app Inv.del_at]. rewrite IH. reflexivity.
Qed.

(** X8: [remove_item] ignores an index outside the list, a negative one
    included, and raises nothing; an index within the list removes that one
    item and keeps the order of the others; removing the item that
    [add_item] has just appended gives the invoice back. *)
Theorem remove_item_spec (inv : Invoice) (index : Z) :
  (index < 0 \/ Z.of_nat (List.length (items inv)) <= index ->
   Inv.remove_item inv index = inv)
  /\ (0 <= index < Z.of_nat (List.length (items inv)) ->
      items (Inv.remove_item inv index)
      = (firstn (Z.to_nat index) (items inv)
         ++ skipn (S (Z.to_nat index)) (items inv))%list
      /\ S (List.length (items (Inv.remove_item inv index)))
         = List.length (items inv))
  /\ (forall it,
        Inv.remove_item (Inv.add_item inv it) (Z.of_nat (List.length (items inv)))
        = inv).
Proof.
unfold Inv.remove_item. split; [| split].
- intro H.
  destruct ((0 <=? index) && (index <? Z.of_nat (List.length (items inv)))) eqn:E;
    [| reflexivity].
  apply andb_true_iff in E. destruct E as [E1 E2].
  apply Z.leb_le in E1. apply Z.ltb_lt in E2. lia.
- intro H.
  rewrite (proj2 (Z.leb_le 0 index)) by lia.
  rewrite (proj2 (Z.ltb_lt index _)) by lia.
  cbn [andb Inv.set_items items].
  destruct (del_at_length (items inv) (Z.to_nat index) ltac:(lia)) as [A B].
  split; [exact B | exact A].
- intro it. unfold Inv.add_item, Inv.set_items. cbn [items].
  rewrite length_app. cbn [List.length].
  rewrite (proj2 (Z.leb_le 0 _)) by lia.
  rewrite (proj2 (Z.ltb_lt _ _)) by lia.
  cbn [andb]. rewrite Nat2Z.id, del_at_last. destruct inv; reflexivity.
Qed.

(** ** Sums of two-decimal amounts *)

Lemma zsum_abs_nonneg (l : list Z) : 0 <= zsum_abs l.
Proof. induction l as [| n l IH]; cbn [zsum_abs fold_right]; [lia |]. fold (zsum_abs l). lia. Qed.

Lemma zsum_abs_bound (l : list Z) : Z.abs (zsum l) <= zsum_abs l.
Proof.
induction l as [| n l IH]; cbn [zsum zsum_abs fold_right]; [lia |].
fold (zsum l). fold (zsum_abs l). lia.
Qed.

Lemma in_context_cents (n : Z) : Z.abs n < 10 ^ 28 -> in_context n (-2).
Proof.
intro H. split; [exact H |].
unfold Dec.Etiny, Dec.Etop, Dec.Emin, Dec.Emax, Dec.prec. lia.
Qed.

(** Adding the [int] 0 that [sum] starts from leaves a two-decimal amount
    as it is. *)
Lemma add_cents_zero (n : Z) :
  Z.abs n < 10 ^ 28 -> Dec.add (cents n) (Dec.of_int 0) = inr (cents n).
Proof.
intro H. pose proof (add_aligned (cents n) (Dec.of_int 0)) as A.
cbn [cents Dec.of_int Dec.coef Dec.exp] in A.
change (Z.min (-2) 0) with (-2) in A. change (-2 - -2) with 0 in A.
change (0 - -2) with 2 in A. cbv zeta in A.
replace (n * 10 ^ 0 + 0 * 10 ^ 2) with n in A by (change (10 ^ 0) with 1; lia).
apply A.
- apply in_context_cents. exact H.
- unfold Dec.prec. lia.
- intros _ H0. congruence.
Qed.

Lemma sum_from_cents (f : InvoiceItem -> result Decimal) :
  forall l ns a,
    Forall2 (fun it n => f it = inr (cents n)) l ns ->
    Z.abs a + zsum_abs ns < 10 ^ 28 ->
    Inv.sum_from (NDec (cents a)) f l = inr (NDec (cents (a + zsum ns))).
Proof.
induction l as [| it l IH]; intros ns a HF Hb; inversion HF as [| ? n ? ns' Hn HF']; subst.
- cbn [Inv.sum_from zsum fold_right ret]. rewrite Z.add_0_r. reflexivity.
- cbn [Inv.sum_from zsum zsum_abs fold_right] in *.
  fold (zsum ns'). fold (zsum_abs ns') in Hb.
  pose proof (zsum_abs_nonneg ns') as P.
  rewrite Hn. cbn [bind Inv.num_add].
  unfold cents at 1 2. rewrite add_same_exp by (apply in_context_cents; lia).
  cbn [bind ret]. fold (cents (a + n)).
  rewrite (IH ns' (a + n) HF') by lia. rewrite Z.add_assoc. reflexivity.
Qed.

Lemma sum_cents (f : InvoiceItem -> result Decimal) (l : list InvoiceItem)
    (ns : list Z) :
  l <> [] ->
  Forall2 (fun it n => f it = inr (cents n)) l ns ->
  zsum_abs ns < 10 ^ 28 ->
  Inv.sum f l = inr (NDec (cents (zsum ns))).
Proof.
intros Hne HF Hb. destruct HF as [| it n l ns Hn HF]; [congruence |].
unfold Inv.sum. cbn [Inv.sum_from zsum zsum_abs fold_right] in *.
fold (zsum ns). fold (zsum_abs ns) in Hb.
pose proof (zsum_abs_nonneg ns) as P.
rewrite Hn. cbn [bind Inv.num_add].
rewrite add_cents_zero by lia. cbn [bind ret].
apply sum_from_cents; [exact HF | lia].
Qed.

Lemma Forall2_map_r {A B C : Type} (P : A -> C -> Prop) (g : B -> C)
    (l : list A) (m : list B) :
  Forall2 (fun a b => P a (g b)) l m -> Forall2 P l (map g m).
Proof. induction 1; cbn [map]; constructor; assumption. Qed.

(** X9: on an intrastate invoice with at least one item, if the taxable
    amount and the CGST of every line are defined (they are two-decimal
    amounts) and the sum of their absolute values, the CGST counted twice,
    stays below 10^28 hundredths, then the grand total is defined and is
    exactly the sum of the lines' taxable amounts plus twice their CGST; this
    is also the sum of the lines' own total amounts. *)
Theorem intrastate_total_is_sum_of_lines (inv : Invoice) (tcs : list (Z * Z)) :
  Inv.is_interstate inv = false ->
  items inv <> [] ->
  Forall2 (fun it tc => Item.taxable_amount it = inr (cents (fst tc))
                        /\ Item.cgst_amount it = inr (cents (snd tc)))
    (items inv) tcs ->
  zsum_abs (map fst tcs) + 2 * zsum_abs (map snd tcs) < 10 ^ 28 ->
  Inv.total_invoice_amount inv
  = inr (cents (zsum (map fst tcs) + 2 * zsum (map snd tcs)))
  /\ Inv.sum Item.total_amount (items inv)
     = inr (NDec (cents (zsum (map fst tcs) + 2 * zsum (map snd tcs)))).
Proof.
intros Hi Hne HF Hb.
pose proof (zsum_abs_nonneg (map fst tcs)) as P1.
pose proof (zsum_abs_nonneg (map snd tcs)) as P2.
pose proof (zsum_abs_bound (map fst tcs)) as B1.
pose proof (zsum_abs_bound (map snd tcs)) as B2.
assert (Ft : Forall2 (fun it n => Item.taxable_amount it = inr (cents n))
               (items inv) (map fst tcs)).
{ apply Forall2_map_r. eapply Forall2_impl; [| exact HF]. cbv beta. tauto. }
assert (Fc : Forall2 (fun it n => Item.cgst_amount it = inr (cents n))
               (items inv) (map snd tcs)).
{ apply Forall2_map_r. eapply Forall2_impl; [| exact HF]. cbv beta. tauto. }
split.
- unfold Inv.total_invoice_amount, Inv.total_taxable_amount, Inv.total_tax_amount,
    Inv.total_cgst_amount, Inv.total_sgst_amount.
  rewrite Hi.
  rewrite (sum_cents Item.taxable_amount _ _ Hne Ft) by lia. cbn [bind].
  rewrite (sum_cents Item.cgst_amount _ _ Hne Fc) by lia. cbn [bind].
  change Item.sgst_amount with Item.cgst_amount.
  rewrite (sum_cents Item.cgst_amount _ _ Hne Fc) by lia. cbn [bind Inv.num_add].
  unfold cents at 1 2. rewrite add_same_exp by (apply in_context_cents; lia).
  cbn [bind ret Inv.num_add].
  unfold cents at 1. rewrite add_same_exp by (apply in_context_cents; lia).
  cbn [bind ret].
  replace (zsum (map snd tcs) + zsum (map snd tcs)) with (2 * zsum (map snd tcs))
    by lia.
  apply quantize2_cents. lia.
- assert (Fs : Forall2 (fun it n => Item.total_amount it = inr (cents n))
                 (items inv) (map (fun tc => fst tc + 2 * snd tc) tcs)).
  { apply Forall2_map_r.
    assert (Hall : Forall (fun tc => Z.abs (fst tc) + 2 * Z.abs (snd tc) < 10 ^ 28) tcs).
    { clear - Hb. induction tcs as [| tc tcs IH]; constructor.
      - cbn [map zsum_abs fold_right] in Hb.
        fold (zsum_abs (map fst tcs)) in Hb. fold (zsum_abs (map snd tcs)) in Hb.
        pose proof (zsum_abs_nonneg (map fst tcs)).
        pose proof (zsum_abs_nonneg (map snd tcs)). lia.
      - apply IH. cbn [map zsum_abs fold_right] in Hb.
        fold (zsum_abs (map fst tcs)) in Hb. fold (zsum_abs (map snd tcs)) in Hb.
        lia. }
    clear - HF Hall. induction HF as [| it tc l tcs [Ht Hc] HF IH]; constructor.
    - inversion Hall as [| ? ? Hx _]; subst.
      rewrite total_amount_exact, Ht. cbn [bind]. rewrite Hc. cbn [bind].
      change (Item.sgst_amount it) with (Item.cgst_amount it). rewrite Hc.
      cbn [bind]. unfold exact_sum. cbn [cents Dec.coef].
      rewrite (proj2 (Z.ltb_lt _ _)) by lia. cbn [bind cents Dec.coef].
      rewrite (proj2 (Z.ltb_lt _ _)) by lia.
      f_equal. f_equal. lia.
    - apply IH. inversion Hall; assumption. }
  assert (Es : zsum (map (fun tc => fst tc + 2 * snd tc) tcs)
               = zsum (map fst tcs) + 2 * zsum (map snd tcs)).
  { clear. induction tcs as [| tc tcs IH]; cbn [map zsum fold_right]; [lia |].
    fold (zsum (map (fun tc => fst tc + 2 * snd tc) tcs)).
    fold (zsum (map fst tcs)). fold (zsum (map snd tcs)). lia. }
  rewrite <- Es.
  apply (sum_cents Item.total_amount _ _ Hne Fs).
  assert (Z.abs (zsum (map (fun tc => fst tc + 2 * snd tc) tcs))
          <= zsum_abs (map (fun tc => fst tc + 2 * snd tc) tcs))
    by apply zsum_abs_bound.
  assert (zsum_abs (map (fun tc => fst tc + 2 * snd tc) tcs)
          <= zsum_abs (map fst tcs) + 2 * zsum_abs (map snd tcs)).
  { clear. induction tcs as [| tc tcs IH]; cbn [map zsum_abs fold_right]; [lia |].
    fold (zsum_abs (map (fun tc => fst tc + 2 * snd tc) tcs)).
    fold (zsum_abs (map fst tcs)). fold (zsum_abs (map snd tcs)). lia. }
  lia.
Qed.

Lemma intrastate_total_is_sum_of_lines_witness :
  Inv.total_invoice_amount two_line_invoice = inr (cents 7286602)
  /\ Inv.sum Item.total_amount (items two_line_invoice)
     = inr (NDec (cents 7286602)).
Proof.
apply (intrastate_total_is_sum_of_lines two_line_invoice
         [(6175000, 555750); (100, 1)]).
- reflexivity.
- discriminate.
- repeat constructor; vm_compute; reflexivity.
- vm_compute. reflexivity.
Defined.

(** ** The amount in words beyond the crore group *)

Lemma cents_fraction_wide (n : Z) :
  0 <= n < 10 ^ 28 ->
  Dec.sub (cents n) (Dec.of_int (n / 100)) = inr (cents (n mod 100)).
Proof.
intro Hn.
assert (P28 : 10 ^ 28 = 10000000000000000000000000000) by reflexivity.
assert (Hq : 0 <= n / 100 < 10 ^ 28).
{ split; [apply Z.div_pos; lia |]. apply Z.div_lt_upper_bound; lia. }
assert (Hm : 0 <= n mod 100 < 100) by (apply Z.mod_pos_bound; lia).
assert (Hd : n = 100 * (n / 100) + n mod 100) by (apply Z.div_mod; lia).
unfold Dec.sub.
pose proof (add_aligned (cents n) (Dec.neg (Dec.of_int (n / 100)))) as A.
cbn [Dec.coef Dec.exp cents Dec.neg Dec.of_int] in A.
change (Z.min (-2) 0) with (-2) in A. change (-2 - -2) with 0 in A.
change (0 - -2) with 2 in A. change (10 ^ 0) with 1 in A.
change (10 ^ 2) with 100 in A. cbv zeta in A.
replace (n * 1 + - (n / 100) * 100) with (n mod 100) in A by lia.
apply A; clear A.
- apply in_context_cents. lia.
- unfold Dec.prec. lia.
- intros Ha Hb.
  pose proof (normalize_exact (Dec.mk n (-2)) (Dec.mk (- (n / 100)) 0)) as N.
  cbn [Dec.coef Dec.exp] in N. change (-2 <? 0) with true in N. cbv iota in N.
  change (Z.min (-2) 0) with (-2) in N. change (-2 - -2) with 0 in N.
  change (0 - -2) with 2 in N. change (10 ^ 0) with 1 in N.
  change (10 ^ 2) with 100 in N. cbv zeta in N.
  apply N; clear N.
  assert (L1 : Dec.len_int (Dec.mk (- (n / 100)) 0) <= 28).
  { apply len_int_le; [lia |]. cbn [Dec.coef]. rewrite Z.abs_opp. lia. }
  assert (L2 : 1 <= Dec.len_int (Dec.mk n (-2))).
  { unfold Dec.len_int. cbn [Dec.coef]. apply ndigits_pos. }
  unfold Dec.prec. lia.
Qed.

Lemma convert_hundreds_index_error (c : Z) :
  1000 <= c -> Inv.convert_hundreds c = inl IndexError.
Proof.
intro Hc. unfold Inv.convert_hundreds.
rewrite (proj2 (Z.leb_le 100 c)) by lia.
assert (H10 : 10 <= c / 100) by (apply Z.div_le_lower_bound; lia).
unfold list_index.
change (Z.of_nat (List.length Inv.ones)) with 10.
rewrite (proj2 (Z.ltb_ge (c / 100) 0)) by lia.
cbv zeta.
rewrite (proj2 (Z.leb_le 10 (c / 100))) by lia.
rewrite orb_true_r. reflexivity.
Qed.

(** X10: a two-decimal total of 1000 crore rupees or more (and of at most 28
    digits) is not put in words: [_amount_to_words] raises IndexError, because
    the hundreds of the crore group are looked up beyond the ten words of
    [ones]. *)
Theorem amount_to_words_index_error (n : Z) :
  10 ^ 12 <= n < 10 ^ 28 ->
  Inv._amount_to_words (cents n) = inl IndexError.
Proof.
intro Hn. change (10 ^ 12) with 1000000000000 in Hn.
unfold Inv._amount_to_words. rewrite cents_eqb_zero.
rewrite (proj2 (Z.eqb_neq n 0)) by lia.
cbv zeta. rewrite cents_to_int by lia.
rewrite cents_fraction_wide by lia. cbn [bind].
assert (Hp : 0 <= n mod 100 < 100) by (apply Z.mod_pos_bound; lia).
destruct (cents_paise (n mod 100) Hp) as [M _]. rewrite M. cbn [bind].
assert (HR : 10000000000 <= n / 100) by (apply Z.div_le_lower_bound; lia).
unfold Inv.group at 1.
rewrite (proj2 (Z.leb_le 10000000 (n / 100))) by lia.
rewrite convert_hundreds_index_error
  by (apply Z.div_le_lower_bound; lia).
reflexivity.
Qed.

Lemma amount_to_words_index_error_witness :
  Inv._amount_to_words (cents 1234567890123456) = inl IndexError.
Proof.
apply amount_to_words_index_error. split; vm_compute; [discriminate | reflexivity].
Defined.

(** ** HSN codes: format and lookup *)

Lemma digits_only_digits (s : string) :
  PyStr.forallb PyStr.is_digit (HSNValidator.digits_only s) = true.
Proof.
induction s as [| c s IH]; [reflexivity |]. cbn [HSNValidator.digits_only].
destruct (PyStr.is_digit c) eqn:E; [| exact IH].
cbn [PyStr.forallb]. rewrite E, IH. reflexivity.
Qed.

Lemma digits_only_fixed (s : string) :
  PyStr.forallb PyStr.is_digit s = true -> HSNValidator.digits_only s = s.
Proof.
induction s as [| c s IH]; [reflexivity |]. cbn [PyStr.forallb HSNValidator.digits_only].
intro H. apply andb_true_iff in H. destruct H as [H1 H2].
rewrite H1, (IH H2). reflexivity.
Qed.

Lemma digits_only_idem (s : string) :
  HSNValidator.digits_only (HSNValidator.digits_only s) = HSNValidator.digits_only s.
Proof. apply digits_only_fixed, digits_only_digits. Qed.

Lemma len_append (a b : string) : PyStr.len (a ++ b) = PyStr.len a + PyStr.len b.
Proof.
unfold PyStr.len. induction a as [| c a IH]; cbn [append String.length]; lia.
Qed.

Lemma len_nonneg (s : string) : 0 <= PyStr.len s.
Proof. unfold PyStr.len. lia. Qed.

Lemma len_zero (s : string) : PyStr.len s = 0 <-> s = "".
Proof.
unfold PyStr.len. destruct s; cbn [String.length]; split; intro H;
  try reflexivity; try discriminate H; lia.
Qed.

Lemma validate_hsn_format_len (s : string) :
  HSNValidator.validate_hsn_format s
  = existsb (Z.eqb (PyStr.len (HSNValidator.digits_only s))) [4; 6; 8].
Proof.
unfold HSNValidator.validate_hsn_format. destruct s as [| c s]; [reflexivity |].
cbn [PyStr.is_empty]. set (d := HSNValidator.digits_only (String c s)).
unfold PyStr.isdigit. subst d. rewrite digits_only_digits, andb_true_r.
destruct (HSNValidator.digits_only (String c s)) as [| a r] eqn:E.
- reflexivity.
- cbn [PyStr.is_empty negb]. apply andb_true_r.
Qed.

(** X11: [validate_hsn_format] looks at the digits only: it accepts exactly
    the strings that hold 4, 6 or 8 digit characters, whatever other
    characters stand between them (the empty string is rejected); and every
    code that [is_service_code] accepts has a valid format. *)
Theorem validate_hsn_format_digits (s : string) :
  (HSNValidator.validate_hsn_format s = true
   <-> PyStr.len (HSNValidator.digits_only s) = 4
       \/ PyStr.len (HSNValidator.digits_only s) = 6
       \/ PyStr.len (HSNValidator.digits_only s) = 8)
  /\ HSNValidator.validate_hsn_format (HSNValidator.digits_only s)
     = HSNValidator.validate_hsn_format s
  /\ (HSNValidator.is_service_code s = true ->
      HSNValidator.validate_hsn_format s = true).
Proof.
rewrite !validate_hsn_format_len, digits_only_idem. cbn [existsb].
rewrite !orb_true_iff, !Z.eqb_eq. split; [| split].
- intuition discriminate.
- reflexivity.
- unfold HSNValidator.is_service_code. intro H.
  apply andb_true_iff in H. destruct H as [H _]. apply Z.eqb_eq in H. tauto.
Qed.

Lemma get_hsn_info_digits (db : list HSNValidator.entry) (s : string) :
  HSNValidator.get_hsn_info_in db (HSNValidator.digits_only s)
  = HSNValidator.get_hsn_info_in db s.
Proof.
unfold HSNValidator.get_hsn_info_in. rewrite digits_only_idem. reflexivity.
Qed.

(** The lookup of a code that extends a four-digit key of the database. *)
Lemma get_hsn_info_parent (db : list HSNValidator.entry) (k x : string)
    (e : HSNValidator.entry) :
  PyStr.forallb PyStr.is_digit k = true -> PyStr.len k = 4 ->
  PyStr.forallb PyStr.is_digit x = true -> PyStr.len x = 2 \/ PyStr.len x = 4 ->
  HSNValidator.lookup db (k ++ x) = None ->
  HSNValidator.lookup db k = Some e ->
  HSNValidator.get_hsn_info_in db (k ++ x)
  = Some (HSNValidator.mkInfo
            (HSNValidator.info_description e ++ " (sub-category)")
            (HSNValidator.typical_gst e) (HSNValidator.keywords e)).
Proof.
intros Dk Lk Dx Lx Hn Hp.
assert (Dkx : PyStr.forallb PyStr.is_digit (k ++ x) = true).
{ clear - Dk Dx. induction k as [| c k IH]; [exact Dx |].
  cbn [PyStr.forallb append] in *. apply andb_true_iff in Dk.
  destruct Dk as [D1 D2]. rewrite D1, (IH D2). reflexivity. }
pose proof (len_append k x) as Lkx.
assert (S4 : PyStr.slice_to 4 (k ++ x) = k).
{ unfold PyStr.len in Lk.
  do 4 (destruct k as [| ? k]; [cbn in Lk; lia |]).
  destruct k; [| cbn in Lk; lia].
  unfold PyStr.slice_to. cbn [append substring]. destruct x; reflexivity. }
unfold HSNValidator.get_hsn_info_in.
rewrite (digits_only_fixed _ Dkx), validate_hsn_format_len,
  (digits_only_fixed _ Dkx), Lkx, Lk.
assert (V : existsb (Z.eqb (4 + PyStr.len x)) [4; 6; 8] = true).
{ destruct Lx as [-> | ->]; reflexivity. }
rewrite V. cbn [negb]. rewrite Hn.
rewrite (proj2 (Z.ltb_lt 4 (4 + PyStr.len x))) by lia.
rewrite S4, Hp. reflexivity.
Qed.

Lemma forallb_digit_app (a b : string) :
  PyStr.forallb PyStr.is_digit a = true -> PyStr.forallb PyStr.is_digit b = true ->
  PyStr.forallb PyStr.is_digit (a ++ b) = true.
Proof.
intros Da Db. induction a as [| c a IH]; [exact Db |].
cbn [PyStr.forallb append] in *. apply andb_true_iff in Da.
destruct Da as [D1 D2]. rewrite D1, (IH D2). reflexivity.
Qed.

(** [get_hsn_info] on a string of digits. *)
Lemma get_hsn_info_clean (db : list HSNValidator.entry) (c : string) :
  PyStr.forallb PyStr.is_digit c = true ->
  HSNValidator.get_hsn_info_in db c
  = if existsb (Z.eqb (PyStr.len c)) [4; 6; 8] then
      match HSNValidator.lookup db c with
      | Some e => Some (HSNValidator.info_of e)
      | None =>
          if 4 <? PyStr.len c then
            match HSNValidator.lookup db (PyStr.slice_to 4 c) with
            | Some e =>
                Some (HSNValidator.mkInfo
                        (HSNValidator.info_description e ++ " (sub-category)")
                        (HSNValidator.typical_gst e) (HSNValidator.keywords e))
            | None => None
            end
          else None
      end
    else None.
Proof.
intro D. unfold HSNValidator.get_hsn_info_in.
rewrite (digits_only_fixed _ D), validate_hsn_format_len, (digits_only_fixed _ D).
destruct (existsb (Z.eqb (PyStr.len c)) [4; 6; 8]); reflexivity.
Qed.

Lemma two_chars (x : string) :
  PyStr.len x = 2 -> exists a b, x = String a (String b "").
Proof.
unfold PyStr.len. intro H.
destruct x as [| a [| b [| c x]]]; cbn [String.length] in H; try lia.
exists a, b. reflexivity.
Qed.

Lemma four_chars (x : string) :
  PyStr.len x = 4 ->
  exists a b c d, x = String a (String b (String c (String d ""))).
Proof.
unfold PyStr.len. intro H.
destruct x as [| a [| b [| c [| d [| e x]]]]]; cbn [String.length] in H; try lia.
exists a, b, c, d. reflexivity.
Qed.

(** X12: [get_hsn_info] reads the digits of its argument only; a code of the
    database is found with its own entry; and a string without 4, 6 or 8
    digits is never found. *)
Theorem get_hsn_info_exact (s : string) :
  HSNValidator.get_hsn_info (HSNValidator.digits_only s)
  = HSNValidator.get_hsn_info s
  /\ (forall e, In e HSNValidator.HSN_DATABASE ->
        HSNValidator.get_hsn_info (HSNValidator.code e)
        = Some (HSNValidator.info_of e))
  /\ (forall i, HSNValidator.get_hsn_info s = Some i ->
        HSNValidator.validate_hsn_format s = true).
Proof.
split; [apply get_hsn_info_digits |]. split.
- intros e H. unfold HSNValidator.HSN_DATABASE in H. cbn [In] in H.
  repeat (destruct H as [<- | H]; [vm_compute; reflexivity |]).
  contradiction.
- intros i H. unfold HSNValidator.get_hsn_info in H.
  rewrite <- get_hsn_info_digits in H.
  rewrite get_hsn_info_clean in H by apply digits_only_digits.
  rewrite validate_hsn_format_len.
  destruct (existsb (Z.eqb (PyStr.len (HSNValidator.digits_only s))) [4; 6; 8]);
    [reflexivity | discriminate H].
Qed.

(** X13: a code made of a four-digit code of the database and two or four
    more digits is found as a sub-category of that code: the description is
    extended by " (sub-category)" and [suggest_gst_rate] gives the rate of
    the four-digit code.  A six-digit service code of the database followed
    by two more digits is not found at all: only the first four digits are
    tried as the parent. *)
Theorem get_hsn_info_sub_category (e : HSNValidator.entry) (x : string) :
  In e HSNValidator.HSN_DATABASE ->
  PyStr.forallb PyStr.is_digit x = true ->
  (PyStr.len (HSNValidator.code e) = 4 -> PyStr.len x = 2 \/ PyStr.len x = 4 ->
   HSNValidator.get_hsn_info (HSNValidator.code e ++ x)
   = Some (HSNValidator.mkInfo
             (HSNValidator.info_description e ++ " (sub-category)")
             (HSNValidator.typical_gst e) (HSNValidator.keywords e))
   /\ HSNValidator.suggest_gst_rate (HSNValidator.code e ++ x)
      = Some (HSNValidator.typical_gst e))
  /\ (PyStr.len (HSNValidator.code e) = 6 -> PyStr.len x = 2 ->
      HSNValidator.get_hsn_info (HSNValidator.code e ++ x) = None
      /\ HSNValidator.suggest_gst_rate (HSNValidator.code e ++ x) = None).
Proof.
intros He Dx. split.
- intros L4 Lx.
  assert (G : HSNValidator.get_hsn_info (HSNValidator.code e ++ x)
              = Some (HSNValidator.mkInfo
                        (HSNValidator.info_description e ++ " (sub-category)")
                        (HSNValidator.typical_gst e) (HSNValidator.keywords e))).
  { unfold HSNValidator.get_hsn_info.
    unfold HSNValidator.HSN_DATABASE in He. cbn [In] in He.
    repeat (destruct He as [<- | He];
            [ first
                [ discriminate L4
                | apply get_hsn_info_parent;
                  [ reflexivity | reflexivity | exact Dx | exact Lx
                  | destruct Lx as [Lx | Lx];
                    [ destruct (two_chars x Lx) as (a & b & ->)
                    | destruct (four_chars x Lx) as (a & b & c & d & ->) ];
                    vm_compute; reflexivity
                  | vm_compute; reflexivity ] ] |]).
    contradiction. }
  split; [exact G |]. unfold HSNValidator.suggest_gst_rate. rewrite G. reflexivity.
- intros L6 Lx. destruct (two_chars x Lx) as (a & b & ->).
  assert (G : HSNValidator.get_hsn_info
                (HSNValidator.code e ++ String a (String b "")) = None).
  { unfold HSNValidator.get_hsn_info.
    unfold HSNValidator.HSN_DATABASE in He. cbn [In] in He.
    repeat (destruct He as [<- | He];
            [ first
                [ discriminate L6
                | rewrite get_hsn_info_clean
                    by (apply forallb_digit_app; [reflexivity | exact Dx]);
                  vm_compute; reflexivity ] |]).
    contradiction. }
  split; [exact G |]. unfold HSNValidator.suggest_gst_rate. rewrite G. reflexivity.
Qed.

Lemma get_hsn_info_sub_category_witness :
  HSNValidator.get_hsn_info "84713010"
  = Some (HSNValidator.mkInfo
            "Automatic data processing machines (sub-category)" 18
            ["computer"; "laptop"; "desktop"; "pc"; "processor"; "cpu"])
  /\ HSNValidator.suggest_gst_rate "84713010" = Some 18.
Proof.
apply (proj1 (get_hsn_info_sub_category
                (HSNValidator.mkEntry "8471" "Automatic data processing machines"
                   18 ["computer"; "laptop"; "desktop"; "pc"; "processor"; "cpu"])
                "3010"
                ltac:(unfold HSNValidator.HSN_DATABASE; cbn [In]; tauto)
                ltac:(reflexivity))).
- reflexivity.
- right. reflexivity.
Defined.

(** ** HSN codes: search and suggestions *)









(** ** Several suggestions at once *)

Lemma multi_insert_in (x y : HSNValidator.multi) (l : list HSNValidator.multi) :
  In y (HSNValidator.multi_insert x l) <-> y = x \/ In y l.
Proof.
induction l as [| z l IH]; cbn [HSNValidator.multi_insert In].
- split; [intros [H | []]; left; symmetry; exact H | intros [H | []]; left; symmetry; exact H].
- destruct (HSNValidator.m_confidence z <=? HSNValidator.m_confidence x);
    cbn [In]; [| rewrite IH]; split; intro H; intuition congruence.
Qed.

Lemma multi_sort_in (y : HSNValidator.multi) (l : list HSNValidator.multi) :
  In y (HSNValidator.multi_sort l) <-> In y l.
Proof.
unfold HSNValidator.multi_sort.
induction l as [| x l IH]; cbn [fold_right In]; [reflexivity |].
rewrite multi_insert_in, IH. split; intro H; intuition congruence.
Qed.

Lemma multi_insert_length (x : HSNValidator.multi) (l : list HSNValidator.multi) :
  List.length (HSNValidator.multi_insert x l) = S (List.length l).
Proof.
induction l as [| z l IH]; cbn [HSNValidator.multi_insert List.length];
  [reflexivity |].
destruct (HSNValidator.m_confidence z <=? HSNValidator.m_confidence x);
  cbn [List.length]; [reflexivity | rewrite IH; reflexivity].
Qed.

Lemma multi_sort_length (l : list HSNValidator.multi) :
  List.length (HSNValidator.multi_sort l) = List.length l.
Proof.
unfold HSNValidator.multi_sort.
induction l as [| x l IH]; cbn [fold_right List.length]; [reflexivity |].
rewrite multi_insert_length, IH. reflexivity.
Qed.

Lemma multi_insert_sorted (x : HSNValidator.multi) (l : list HSNValidator.multi) :
  StronglySorted
    (fun a b => HSNValidator.m_confidence b <= HSNValidator.m_confidence a) l ->
  StronglySorted
    (fun a b => HSNValidator.m_confidence b <= HSNValidator.m_confidence a)
    (HSNValidator.multi_insert x l).
Proof.
induction 1 as [| z l Hs IH Hz]; cbn [HSNValidator.multi_insert].
- constructor; constructor.
- destruct (Z.leb_spec (HSNValidator.m_confidence z) (HSNValidator.m_confidence x))
    as [Hle | Hgt].
  + constructor; [constructor; assumption |].
    constructor; [exact Hle |].
    rewrite Forall_forall in Hz |- *. intros y Hy. specialize (Hz y Hy). lia.
  + constructor; [exact IH |].
    rewrite Forall_forall in Hz |- *. intros y Hy.
    apply multi_insert_in in Hy. destruct Hy as [-> | Hy]; [lia | exact (Hz y Hy)].
Qed.

Lemma multi_sort_sorted (l : list HSNValidator.multi) :
  StronglySorted
    (fun a b => HSNValidator.m_confidence b <= HSNValidator.m_confidence a)
    (HSNValidator.multi_sort l).
Proof.
unfold HSNValidator.multi_sort.
induction l as [| x l IH]; cbn [fold_right]; [constructor |].
apply multi_insert_sorted. exact IH.
Qed.

Lemma in_firstn {A : Type} (y : A) (l : list A) :
  forall n, In y (firstn n l) -> In y l.
Proof.
induction l as [| x l IH]; intros [| n] H; cbn [firstn In] in *;
  try contradiction.
destruct H as [H | H]; [left; exact H | right; exact (IH n H)].
Qed.

Lemma firstn_len {A : Type} (l : list A) :
  forall n, List.length (firstn n l) = Nat.min n (List.length l).
Proof.
induction l as [| x l IH]; intros [| n]; cbn [firstn List.length Nat.min];
  try reflexivity.
rewrite IH. reflexivity.
Qed.

Lemma firstn_sorted {A : Type} (R : A -> A -> Prop) (l : list A) :
  StronglySorted R l -> forall n, StronglySorted R (firstn n l).
Proof.
induction 1 as [| x l Hs IH Hx]; intro n; destruct n as [| n]; cbn [firstn];
  try constructor.
- apply IH.
- rewrite Forall_forall in Hx |- *. intros y Hy. apply Hx.
  exact (in_firstn y l n Hy).
Qed.

Lemma fold_sum_ge (f : string -> Z) (ks : list string) :
  (forall k, 0 <= f k) ->
  forall acc, acc <= fold_left (fun a k => a + f k) ks acc.
Proof.
intro Hf. induction ks as [| k ks IH]; intro acc; cbn [fold_left]; [lia |].
specialize (IH (acc + f k)). specialize (Hf k). lia.
Qed.

Lemma fold_sum_pos (f : string -> Z) (ks : list string) :
  (forall k, 0 <= f k) ->
  forall acc,
    acc < fold_left (fun a k => a + f k) ks acc <-> exists k, In k ks /\ 0 < f k.
Proof.
intro Hf. induction ks as [| k ks IH]; intro acc; cbn [fold_left In].
- split; [lia | intros (k & [] & _)].
- destruct (Z_lt_le_dec 0 (f k)) as [Hp | Hz].
  + split; [intros _; exists k; split; [left; reflexivity | exact Hp] |].
    intros _. pose proof (fold_sum_ge f ks Hf (acc + f k)). lia.
  + assert (E : f k = 0) by (specialize (Hf k); lia). rewrite E, Z.add_0_r.
    rewrite IH. split.
    * intros (k' & H1 & H2). exists k'. split; [right; exact H1 | exact H2].
    * intros (k' & [<- | H1] & H2); [lia |]. exists k'. split; assumption.
Qed.

Lemma keyword_score_pos (d k : string) :
  0 <= HSNValidator.keyword_score d k
  /\ (0 < HSNValidator.keyword_score d k <-> PyStr.contains k d = true).
Proof.
unfold HSNValidator.keyword_score.
destruct (PyStr.contains k d); [| split; [lia | split; [lia | discriminate]]].
destruct (String.eqb k d),
  (PyStr.contains (" " ++ k ++ " ") (" " ++ d ++ " ")),
  (PyStr.startswith d k); cbn; split; try lia; split; reflexivity || lia.
Qed.

Lemma multi_keyword_score_pos (d k : string) :
  0 <= HSNValidator.multi_keyword_score d k
  /\ (0 < HSNValidator.multi_keyword_score d k <-> PyStr.contains k d = true).
Proof.
unfold HSNValidator.multi_keyword_score.
destruct (PyStr.contains k d); [| split; [lia | split; [lia | discriminate]]].
destruct (String.eqb k d),
  (PyStr.contains (" " ++ k ++ " ") (" " ++ d ++ " ")),
  (PyStr.startswith d k); cbn; split; try lia; split; reflexivity || lia.
Qed.

Lemma score_pos (d : string) (e : HSNValidator.entry) :
  0 < HSNValidator.score d e
  <-> exists k, In k (HSNValidator.keywords e) /\ PyStr.contains k d = true.
Proof.
unfold HSNValidator.score.
rewrite (fold_sum_pos (HSNValidator.keyword_score d))
  by (intro k; apply keyword_score_pos).
split; intros (k & H1 & H2); exists k; (split; [exact H1 |]);
  apply keyword_score_pos; exact H2.
Qed.

Lemma multi_score_pos (d : string) (e : HSNValidator.entry) :
  0 < HSNValidator.multi_score d e
  <-> exists k, In k (HSNValidator.keywords e) /\ PyStr.contains k d = true.
Proof.
unfold HSNValidator.multi_score.
rewrite (fold_sum_pos (HSNValidator.multi_keyword_score d))
  by (intro k; apply multi_keyword_score_pos).
split; intros (k & H1 & H2); exists k; (split; [exact H1 |]);
  apply multi_keyword_score_pos; exact H2.
Qed.

Lemma multi_collect_in (d : string) (db : list HSNValidator.entry)
    (m : HSNValidator.multi) :
  In m (HSNValidator.multi_collect d db)
  <-> exists e, In e db /\ 0 < HSNValidator.multi_score d e
        /\ m = HSNValidator.mkMulti (HSNValidator.code e)
                 (HSNValidator.info_description e) (HSNValidator.typical_gst e)
                 (Z.min (HSNValidator.multi_score d e * 8) 100)
                 (filter (fun kw => PyStr.contains kw d) (HSNValidator.keywords e)).
Proof.
induction db as [| e db IH]; cbn [HSNValidator.multi_collect].
- split; [intros [] | intros (e & [] & _)].
- destruct (Z.ltb_spec 0 (HSNValidator.multi_score d e)) as [Hp | Hz].
  + cbn [In]. rewrite IH. split.
    * intros [<- | (e' & H1 & H2 & H3)].
      -- exists e. split; [left; reflexivity |]. split; [exact Hp | reflexivity].
      -- exists e'. split; [right; exact H1 |]. split; assumption.
    * intros (e' & [<- | H1] & H2 & H3).
      -- left. symmetry. exact H3.
      -- right. exists e'. split; [exact H1 |]. split; assumption.
  + rewrite IH. split.
    * intros (e' & H1 & H2 & H3). exists e'. split; [right; exact H1 |].
      split; assumption.
    * intros (e' & [<- | H1] & H2 & H3); [lia |].
      exists e'. split; [exact H1 |]. split; assumption.
Qed.

Lemma multi_collect_length (d : string) (db : list HSNValidator.entry) :
  (List.length (HSNValidator.multi_collect d db) <= List.length db)%nat.
Proof.
induction db as [| e db IH]; cbn [HSNValidator.multi_collect List.length]; [lia |].
destruct (0 <? HSNValidator.multi_score d e); cbn [List.length]; lia.
Qed.

(** X15: the suggestions that [get_multiple_suggestions] returns are in
    descending order of confidence; with a limit of 0 or more there are at
    most [limit] of them, while a negative limit [-k] returns all of them but
    the last [k]; every suggestion belongs to a code of the database at least
    one of whose keywords occurs in the description, lists the keywords that
    occur, and has a confidence of 8 times its score, capped at 100, hence
    from 8 to 100. *)
Theorem get_multiple_suggestions_spec (db : list HSNValidator.entry)
    (item_description : string) (limit : Z) :
  let d := PyStr.strip (PyStr.lower item_description) in
  let r := HSNValidator.get_multiple_suggestions_in db item_description limit in
  let all := HSNValidator.get_multiple_suggestions_in db item_description
               (Z.of_nat (List.length db)) in
  StronglySorted
    (fun a b => HSNValidator.m_confidence b <= HSNValidator.m_confidence a) r
  /\ (0 <= limit -> r = firstn (Z.to_nat limit) all
                    /\ Z.of_nat (List.length r) <= limit)
  /\ (limit < 0 ->
      r = firstn (Z.to_nat (Z.of_nat (List.length all) + limit)) all)
  /\ (forall m, In m r ->
        8 <= HSNValidator.m_confidence m <= 100
        /\ HSNValidator.m_match_keywords m <> []
        /\ exists e, In e db
             /\ HSNValidator.m_hsn_code m = HSNValidator.code e
             /\ HSNValidator.m_description m = HSNValidator.info_description e
             /\ HSNValidator.m_typical_gst m = HSNValidator.typical_gst e
             /\ 0 < HSNValidator.multi_score d e
             /\ HSNValidator.m_confidence m
                = Z.min (HSNValidator.multi_score d e * 8) 100
             /\ HSNValidator.m_match_keywords m
                = filter (fun kw => PyStr.contains kw d) (HSNValidator.keywords e)).
Proof.
intros d r all. subst r all. unfold HSNValidator.get_multiple_suggestions_in.
destruct (PyStr.is_empty item_description).
{ split; [constructor |]. split; [| split].
  - intros H. split; [destruct (Z.to_nat limit); reflexivity | cbn; lia].
  - intros _. cbn [List.length Z.of_nat firstn].
    destruct (Z.to_nat (0 + limit)); reflexivity.
  - intros m []. }
fold d. set (full := HSNValidator.multi_sort (HSNValidator.multi_collect d db)).
assert (Lfull : (List.length full <= List.length db)%nat).
{ subst full. rewrite multi_sort_length. apply multi_collect_length. }
assert (Eall : HSNValidator.slice_limit (Z.of_nat (List.length db)) full = full).
{ unfold HSNValidator.slice_limit.
  rewrite (proj2 (Z.leb_le 0 _)) by lia. rewrite Nat2Z.id.
  apply firstn_all2. exact Lfull. }
rewrite Eall.
assert (Sfull : StronglySorted
                  (fun a b => HSNValidator.m_confidence b <= HSNValidator.m_confidence a)
                  full) by apply multi_sort_sorted.
split; [| split; [| split]].
- unfold HSNValidator.slice_limit. destruct (0 <=? limit); apply firstn_sorted; exact Sfull.
- intro H. unfold HSNValidator.slice_limit. rewrite (proj2 (Z.leb_le 0 limit) H).
  split; [reflexivity |]. pose proof (firstn_le_length (Z.to_nat limit) full). lia.
- intro H. unfold HSNValidator.slice_limit. rewrite (proj2 (Z.leb_gt 0 limit)) by lia.
  reflexivity.
- intros m Hm.
  assert (Hin : In m (HSNValidator.multi_collect d db)).
  { apply multi_sort_in. fold full. unfold HSNValidator.slice_limit in Hm.
    destruct (0 <=? limit); exact (in_firstn m full _ Hm). }
  apply multi_collect_in in Hin. destruct Hin as (e & He & Hp & ->).
  cbn [HSNValidator.m_confidence HSNValidator.m_match_keywords
       HSNValidator.m_hsn_code HSNValidator.m_description
       HSNValidator.m_typical_gst].
  split; [lia |]. split.
  + apply multi_score_pos in Hp. destruct Hp as (k & Hk & Hc).
    intro E.
    assert (Hf : In k (filter (fun kw => PyStr.contains kw d) (HSNValidator.keywords e)))
      by (apply filter_In; split; assumption).
    rewrite E in Hf. exact Hf.
  + exists e. repeat split; try reflexivity; assumption.
Qed.

Lemma sort_desc_nil (l : list HSNValidator.suggestion) :
  HSNValidator.sort_desc l = [] <-> l = [].
Proof.
split; [| intros ->; reflexivity].
intro H. destruct l as [| x l]; [reflexivity |]. exfalso.
assert (Hx : In x (HSNValidator.sort_desc (x :: l)))
  by (apply sort_desc_in; left; reflexivity).
rewrite H in Hx. exact Hx.
Qed.

Lemma multi_sort_nil (l : list HSNValidator.multi) :
  HSNValidator.multi_sort l = [] <-> l = [].
Proof.
split; [| intros ->; reflexivity].
intro H. apply (f_equal (@List.length _)) in H. rewrite multi_sort_length in H.
destruct l; [reflexivity | discriminate H].
Qed.

Lemma collect_nil (d : string) (db : list HSNValidator.entry) :
  HSNValidator.collect d db = []
  <-> forall e, In e db -> ~ 0 < HSNValidator.score d e.
Proof.
induction db as [| e db IH]; cbn [HSNValidator.collect].
- split; [intros _ e [] | reflexivity].
- destruct (Z.ltb_spec 0 (HSNValidator.score d e)) as [Hp | Hz].
  + split; [intro H; discriminate H |].
    intro H. exfalso. exact (H e (or_introl eq_refl) Hp).
  + rewrite IH. split.
    * intros H e' [<- | He']; [lia | exact (H e' He')].
    * intros H e' He'. exact (H e' (or_intror He')).
Qed.

Lemma multi_collect_nil (d : string) (db : list HSNValidator.entry) :
  HSNValidator.multi_collect d db = []
  <-> forall e, In e db -> ~ 0 < HSNValidator.multi_score d e.
Proof.
induction db as [| e db IH]; cbn [HSNValidator.multi_collect].
- split; [intros _ e [] | reflexivity].
- destruct (Z.ltb_spec 0 (HSNValidator.multi_score d e)) as [Hp | Hz].
  + split; [intro H; discriminate H |].
    intro H. exfalso. exact (H e (or_introl eq_refl) Hp).
  + rewrite IH. split.
    * intros H e' [<- | He']; [lia | exact (H e' He')].
    * intros H e' He'. exact (H e' (or_intror He')).
Qed.

(** X16: although they score differently, [auto_suggest_hsn] and
    [get_multiple_suggestions] agree on whether there is anything to
    suggest: for a limit of at least 1 the first returns [None] exactly when
    the second returns the empty list, namely when the description is empty
    or no keyword of any code occurs in it. *)
Theorem suggestions_agree_on_none (db : list HSNValidator.entry)
    (item_description : string) (limit : Z) :
  1 <= limit ->
  (HSNValidator.auto_suggest_hsn_in db item_description = None
   <-> HSNValidator.get_multiple_suggestions_in db item_description limit = [])
  /\ (HSNValidator.auto_suggest_hsn_in db item_description = None
      <-> item_description = ""
          \/ forall e k, In e db -> In k (HSNValidator.keywords e) ->
               PyStr.contains k (PyStr.strip (PyStr.lower item_description))
               = false).
Proof.
intro Hl.
unfold HSNValidator.auto_suggest_hsn_in, HSNValidator.get_multiple_suggestions_in.
destruct item_description as [| c s] eqn:Ed.
{ cbn [PyStr.is_empty]. split; [tauto |]. split; [intros _; left; reflexivity | reflexivity]. }
cbn [PyStr.is_empty]. rewrite <- Ed. set (d := PyStr.strip (PyStr.lower item_description)).
assert (A : match HSNValidator.sort_desc (HSNValidator.collect d db) with
            | [] => None
            | best_match :: _ =>
                Some (HSNValidator.mkBest (HSNValidator.s_hsn_code best_match)
                        (HSNValidator.s_description best_match)
                        (HSNValidator.s_typical_gst best_match)
                        (Z.min (HSNValidator.s_score best_match * 10) 100))
            end = None
            <-> forall e, In e db -> ~ 0 < HSNValidator.score d e).
{ assert (A1 : match HSNValidator.sort_desc (HSNValidator.collect d db) with
               | [] => None
               | best_match :: _ =>
                   Some (HSNValidator.mkBest (HSNValidator.s_hsn_code best_match)
                           (HSNValidator.s_description best_match)
                           (HSNValidator.s_typical_gst best_match)
                           (Z.min (HSNValidator.s_score best_match * 10) 100))
               end = None
               <-> HSNValidator.sort_desc (HSNValidator.collect d db) = []).
  { destruct (HSNValidator.sort_desc (HSNValidator.collect d db));
      split; intro H; reflexivity || discriminate H. }
  rewrite A1, sort_desc_nil. apply collect_nil. }
assert (B : HSNValidator.slice_limit limit
              (HSNValidator.multi_sort (HSNValidator.multi_collect d db)) = []
            <-> forall e, In e db -> ~ 0 < HSNValidator.multi_score d e).
{ assert (B1 : HSNValidator.slice_limit limit
                 (HSNValidator.multi_sort (HSNValidator.multi_collect d db)) = []
               <-> HSNValidator.multi_sort (HSNValidator.multi_collect d db) = []).
  { unfold HSNValidator.slice_limit. rewrite (proj2 (Z.leb_le 0 limit)) by lia.
    destruct (HSNValidator.multi_sort (HSNValidator.multi_collect d db)) as [| x l].
    - destruct (Z.to_nat limit); split; reflexivity.
    - destruct (Z.to_nat limit) as [| n] eqn:En; [lia |].
      cbn [firstn]. split; intro H; discriminate H. }
  rewrite B1, multi_sort_nil. apply multi_collect_nil. }
assert (C : (forall e, In e db -> ~ 0 < HSNValidator.score d e)
            <-> forall e k, In e db -> In k (HSNValidator.keywords e) ->
                  PyStr.contains k d = false).
{ split.
  - intros H e k He Hk. destruct (PyStr.contains k d) eqn:Hc; [| reflexivity].
    exfalso. apply (H e He). apply score_pos. exists k. split; assumption.
  - intros H e He Hp. apply score_pos in Hp. destruct Hp as (k & Hk & Hc).
    rewrite (H e k He Hk) in Hc. discriminate Hc. }
assert (D : (forall e, In e db -> ~ 0 < HSNValidator.multi_score d e)
            <-> forall e k, In e db -> In k (HSNValidator.keywords e) ->
                  PyStr.contains k d = false).
{ split.
  - intros H e k He Hk. destruct (PyStr.contains k d) eqn:Hc; [| reflexivity].
    exfalso. apply (H e He). apply multi_score_pos. exists k. split; assumption.
  - intros H e He Hp. apply multi_score_pos in Hp. destruct Hp as (k & Hk & Hc).
    rewrite (H e k He Hk) in Hc. discriminate Hc. }
split.
- rewrite A, B, C, D. reflexivity.
- rewrite A, C. split; [intro H; right; exact H |].
  intros [H | H]; [rewrite Ed in H; discriminate H | exact H].
Qed.

Lemma suggestions_agree_on_none_witness :
  HSNValidator.auto_suggest_hsn_in HSNValidator.HSN_DATABASE "zzz" = None
  <-> HSNValidator.get_multiple_suggestions_in HSNValidator.HSN_DATABASE "zzz" 3
      = [].
Proof.
exact (proj1 (suggestions_agree_on_none HSNValidator.HSN_DATABASE "zzz" 3
                ltac:(lia))).
Defined.

(** ** [calculate_discount_with_gst] *)

Section DiscountWithGst.

Local Open Scope Q_scope.

(** The discount on a two-decimal base amount at any percentage of at most
    nine digits. *)
Lemma discount_steps (n : Z) (pct : Decimal) :
  (0 <= n < 10 ^ 17)%Z -> rate_ok pct ->
  let d := half_up_cents (Dec.val (cents n) * Dec.val pct / 100) in
  (0 <= d <= 10 ^ 26)%Z
  /\ (Dec.val pct <= 100 -> (d <= n)%Z)
  /\ exists q,
       Dec.mul (cents n) pct
       = inr (Dec.mk (n * Dec.coef pct) (-2 + Dec.exp pct))
       /\ Dec.div (Dec.mk (n * Dec.coef pct) (-2 + Dec.exp pct)) (Dec.of_int 100)
          = inr q
       /\ quantize2 q = inr (cents d)
       /\ Dec.sub (cents n) (cents d) = inr (cents (n - d)).
Proof.
intros Hn [[Hc1 Hc2] He] d.
change (10 ^ 17)%Z with 100000000000000000%Z in Hn.
change (10 ^ 9)%Z with 1000000000%Z in Hc2.
assert (Vn : 0 <= Dec.val (cents n)) by (apply val_nonneg; lia).
assert (Vp : 0 <= Dec.val pct).
{ destruct pct as [c e]. apply val_nonneg. exact Hc1. }
assert (Vprod : Qabs (Dec.val (cents n) * Dec.val pct) < Dec.pow10 26).
{ rewrite <- val_mul. cbn [cents Dec.coef Dec.exp].
  apply (val_abs_lt (n * Dec.coef pct) (-2 + Dec.exp pct) 26 0); [| lia | lia].
  rewrite Z.abs_mul, !Z.abs_eq by lia.
  change (10 ^ 26)%Z with 100000000000000000000000000%Z. nia. }
assert (X0 : 0 <= Dec.val (cents n) * Dec.val pct)
  by (apply Qmult_le_0_compat; assumption).
assert (Ex : Dec.val (cents n) * Dec.val pct / 100 * 100
             == Dec.val (cents n) * Dec.val pct) by field.
assert (Hd : (0 <= d <= 10 ^ 26)%Z).
{ subst d. apply half_up_cents_bound.
  - apply Qle_shift_div_l; [reflexivity | lra].
  - rewrite Ex. apply Qabs_Qlt_condition in Vprod.
    change (Dec.pow10 26) with (inject_Z (10 ^ 26)) in Vprod. lra. }
split; [exact Hd |]. split.
- intro H100. subst d. apply half_up_cents_bound.
  + apply Qle_shift_div_l; [reflexivity | lra].
  + rewrite Ex, val_cents.
    assert (Nn : 0 <= inject_Z n).
    { change 0 with (inject_Z 0). rewrite <- Zle_Qle. lia. }
    set (p := Dec.val pct) in *. clearbody p.
    assert (E : inject_Z n / 100 * p == inject_Z n * (p / 100)) by field.
    rewrite E.
    assert (P1 : p / 100 <= 1) by (apply Qle_shift_div_r; [reflexivity | lra]).
    setoid_replace (inject_Z n) with (inject_Z n * 1) at 2 by ring.
    rewrite !(Qmult_comm (inject_Z n)).
    apply Qmult_le_compat_r; assumption.
- destruct (percent_steps (cents n) pct) as (q & E1 & E2 & E3).
  + cbn [cents Dec.coef Dec.exp]. split.
    * rewrite Z.abs_mul, !Z.abs_eq by lia.
      change (10 ^ 28)%Z with 10000000000000000000000000000%Z. nia.
    * unfold Dec.Etiny, Dec.Etop, Dec.Emin, Dec.Emax, Dec.prec. lia.
  + cbn [cents Dec.exp]. unfold Dec.Etiny, Dec.Emin, Dec.prec. lia.
  + eapply Qlt_le_trans; [exact Vprod |]. apply pow10_le_mono. lia.
  + exists q. cbn [cents Dec.coef Dec.exp] in E1, E2.
    split; [exact E1 |]. split; [exact E2 |]. split; [exact E3 |].
    fold d. unfold cents. apply sub_same_exp. apply in_context_cents.
    change (10 ^ 26)%Z with 100000000000000000000000000%Z in Hd.
    change (10 ^ 28)%Z with 10000000000000000000000000000%Z. lia.
Qed.

End DiscountWithGst.

Lemma negative_cents (m : Z) : m < 0 -> Dec.ltb (cents m) (Dec.of_int 0) = true.
Proof.
intro H. apply ltb_val. rewrite val_of_int, val_cents.
change (inject_Z 0) with 0%Q.
apply Qlt_shift_div_r; [reflexivity |].
setoid_replace (0 * 100)%Q with (inject_Z 0) by reflexivity.
rewrite <- Zlt_Qlt. exact H.
Qed.

(** X17: [calculate_discount_with_gst] on a two-decimal base amount below
    10^15 and a percentage of at most nine digits and six decimals: the
    discount is the base times the percentage, rounded half up to two
    decimals; the amount after discount is the base minus the discount,
    exactly, and it is the amount that is split.  The percentage is not
    checked: up to 100 it leaves a discount of at most the base, and whenever
    the rounded discount exceeds the base the call fails with the ValueError
    of the negative taxable amount; otherwise, for a rate in [0, 100] of at
    most nine digits, it returns. *)
Theorem calculate_discount_with_gst_spec (n : Z) (pct r : Decimal)
    (inter : bool) :
  0 <= n < 10 ^ 17 -> rate_ok pct ->
  let d := half_up_cents (Dec.val (cents n) * Dec.val pct / 100) in
  0 <= d
  /\ ((Dec.val pct <= 100)%Q -> d <= n)
  /\ GSTCalculator.calculate_discount_with_gst (cents n) pct r inter
     = (b <- GSTCalculator.calculate_gst_breakdown (cents (n - d)) r inter ;;
        ret (GSTCalculator.mkDiscounted b (cents n) pct (cents d) (cents (n - d))))
  /\ (n < d ->
      GSTCalculator.calculate_discount_with_gst (cents n) pct r inter
      = inl (ValueError "Taxable amount cannot be negative"))
  /\ (d <= n -> rate_ok r -> (0 <= Dec.val r <= 100)%Q ->
      exists b,
        GSTCalculator.calculate_discount_with_gst (cents n) pct r inter
        = inr (GSTCalculator.mkDiscounted b (cents n) pct (cents d)
                 (cents (n - d)))
        /\ GSTCalculator.taxable_amount b = cents (n - d)).
Proof.
intros Hn Hp d.
destruct (discount_steps n pct Hn Hp) as (Hd & H100 & q & E1 & E2 & E3 & E4).
fold d in Hd, H100, E3, E4.
assert (E : GSTCalculator.calculate_discount_with_gst (cents n) pct r inter
            = (b <- GSTCalculator.calculate_gst_breakdown (cents (n - d)) r inter ;;
               ret (GSTCalculator.mkDiscounted b (cents n) pct (cents d)
                      (cents (n - d))))).
{ unfold GSTCalculator.calculate_discount_with_gst.
  rewrite E1. cbn [bind]. rewrite E2. cbn [bind]. rewrite E3. cbn [bind].
  rewrite E4. reflexivity. }
split; [lia |]. split; [exact H100 |]. split; [exact E |]. split.
- intro Hlt. rewrite E. unfold GSTCalculator.calculate_gst_breakdown.
  rewrite negative_cents by lia. reflexivity.
- intros Hle Hr Hv. rewrite E.
  assert (Hok : amount_ok (cents (n - d))).
  { unfold amount_ok. cbn [cents Dec.coef Dec.exp].
    change (10 ^ 17) with 100000000000000000 in Hn.
    change (10 ^ 18) with 1000000000000000000. lia. }
  assert (Hrange : rate_in_range r = true) by (apply rate_in_range_val; exact Hv).
  destruct inter.
  + destruct (breakdown_interstate (cents (n - d)) r Hok Hr Hrange) as [B _].
    cbv zeta in B. rewrite B. cbn [bind ret]. eexists. split; reflexivity.
  + destruct (breakdown_intrastate (cents (n - d)) r Hok Hr Hrange)
      as (h & _ & _ & B & _).
    cbv zeta in B. rewrite B. cbn [bind ret]. eexists. split; reflexivity.
Qed.

Lemma calculate_discount_with_gst_spec_witness :
  GSTCalculator.calculate_discount_with_gst (cents 100000) (Dec.of_int 10)
    (Dec.of_int 18) false
  = (b <- GSTCalculator.calculate_gst_breakdown (cents 90000) (Dec.of_int 18) false ;;
     ret (GSTCalculator.mkDiscounted b (cents 100000) (Dec.of_int 10)
            (cents 10000) (cents 90000))).
Proof.
pose proof (calculate_discount_with_gst_spec 100000 (Dec.of_int 10)
              (Dec.of_int 18) false
              ltac:(split; [lia | reflexivity])
              ltac:(unfold rate_ok; cbn [Dec.of_int Dec.coef Dec.exp];
                    split; [split; [lia | reflexivity] | lia])) as H.
cbv zeta in H. destruct H as (_ & _ & H & _).
assert (Ed : half_up_cents (Dec.val (cents 100000) * Dec.val (Dec.of_int 10) / 100)
             = 10000) by (vm_compute; reflexivity).
rewrite Ed in H. exact H.
Defined.

(** ** [calculate_reverse_gst] and rates outside [0, 100] *)

Lemma val_zero_coef (c e : Z) : (Dec.val (Dec.mk c e) == 0)%Q -> c = 0.
Proof.
unfold Dec.val. cbn [Dec.coef Dec.exp]. intro H.
pose proof (pow10_pos e) as P.
destruct (Z.eq_dec c 0) as [E | E]; [exact E |]. exfalso.
apply Qmult_integral in H. destruct H as [H | H].
- apply E. unfold Qeq in H. cbn [inject_Z Qnum Qden] in H. lia.
- rewrite H in P. exact (Qlt_irrefl _ P).
Qed.

(** At a rate of -100 the divisor [1 + gst_rate / 100] is zero. *)
Lemma reverse_divisor_zero (r : Decimal) :
  Z.abs (Dec.coef r) < 10 ^ 9 -> -6 <= Dec.exp r <= 2 ->
  (Dec.val r == -100)%Q ->
  exists q1 e,
    Dec.div r (Dec.of_int 100) = inr q1
    /\ Dec.add q1 (Dec.of_int 1) = inr (Dec.mk 0 e).
Proof.
intros Hc He Hv. change (10 ^ 9) with 1000000000 in Hc.
destruct (div_hundred r) as (q1 & E1 & V1 & C1 & X1).
{ change (10 ^ 28) with 10000000000000000000000000000. lia. }
{ unfold Dec.Etiny, Dec.Etop, Dec.Emin, Dec.Emax, Dec.prec. lia. }
assert (Vq : (Dec.val q1 == -1)%Q) by lra.
assert (Q0 : Dec.coef q1 <> 0).
{ intro E. destruct q1 as [c e]. cbn [Dec.coef] in E. subst c.
  unfold Dec.val in Vq. cbn [Dec.coef] in Vq.
  change (inject_Z 0) with 0%Q in Vq. lra. }
set (e := Z.min (Dec.exp q1) 0).
set (s := Dec.coef q1 * 10 ^ (Dec.exp q1 - e) + 1 * 10 ^ (0 - e)).
assert (P1 : 0 < 10 ^ (Dec.exp q1 - e) <= 10 ^ 2).
{ split; [apply Z.pow_pos_nonneg; subst e; lia |].
  apply Z.pow_le_mono_r; subst e; lia. }
assert (P2 : 0 < 10 ^ (0 - e) <= 10 ^ 8).
{ split; [apply Z.pow_pos_nonneg; subst e; lia |].
  apply Z.pow_le_mono_r; subst e; lia. }
change (10 ^ 2) with 100 in P1. change (10 ^ 8) with 100000000 in P2.
pose proof (val_add_aligned q1 (Dec.of_int 1)) as VA.
cbn [Dec.of_int Dec.coef Dec.exp] in VA. fold e in VA. fold s in VA.
cbv zeta in VA. rewrite val_of_int in VA. change (inject_Z 1) with 1%Q in VA.
assert (S0 : s = 0).
{ apply (val_zero_coef s e). rewrite VA, Vq. reflexivity. }
pose proof (add_aligned q1 (Dec.of_int 1)) as A.
cbn [Dec.of_int Dec.coef Dec.exp] in A. fold e in A. fold s in A. cbv zeta in A.
exists q1, e. split; [exact E1 |]. rewrite <- S0. apply A.
- rewrite S0. split; [reflexivity |].
  unfold Dec.Etiny, Dec.Etop, Dec.Emin, Dec.Emax, Dec.prec. subst e. lia.
- unfold Dec.prec. lia.
- intros _ _.
  pose proof (normalize_exact q1 (Dec.of_int 1)) as N.
  cbn [Dec.of_int Dec.coef Dec.exp] in N. fold e in N. cbv zeta in N.
  apply N; clear N.
  assert (L1 : Dec.len_int q1 <= 9).
  { apply len_int_le; [lia |]. change (10 ^ 9) with 1000000000. lia. }
  assert (L2 : 1 <= Dec.len_int q1) by (unfold Dec.len_int; apply ndigits_pos).
  assert (L3 : Dec.len_int (Dec.of_int 1) = 1) by reflexivity.
  rewrite ?L3. change (Dec.len_int (Dec.mk 1 0)) with 1. unfold Dec.prec.
  destruct (Dec.exp q1 <? 0) eqn:Ee; [apply Z.ltb_lt in Ee | apply Z.ltb_ge in Ee];
    lia.
Qed.

(** X18: [calculate_reverse_gst] does not check the rate before it divides:
    at a rate of -100 the divisor [1 + gst_rate / 100] is zero, and a total
    that is not negative makes the call fail with the decimal module's
    DivisionByZero (InvalidOperation for a total of zero), not with a
    ValueError. *)
Theorem calculate_reverse_gst_zero_divisor (t r : Decimal) (inter : bool) :
  Dec.ltb t (Dec.of_int 0) = false ->
  Z.abs (Dec.coef r) < 10 ^ 9 -> -6 <= Dec.exp r <= 2 ->
  (Dec.val r == -100)%Q ->
  GSTCalculator.calculate_reverse_gst t r inter
  = inl (if Dec.is_zero t then InvalidOperation else DivisionByZero).
Proof.
intros Ht Hc He Hv.
destruct (reverse_divisor_zero r Hc He Hv) as (q1 & e & E1 & E2).
unfold GSTCalculator.calculate_reverse_gst. rewrite Ht, E1. cbn [bind].
rewrite E2. cbn [bind]. unfold Dec.div, Dec.is_zero. cbn [Dec.coef Z.eqb].
destruct (Dec.coef t =? 0); reflexivity.
Qed.

Lemma calculate_reverse_gst_zero_divisor_witness :
  GSTCalculator.calculate_reverse_gst (cents 118000) (Dec.mk (-1000) (-1)) false
  = inl DivisionByZero.
Proof.
apply (calculate_reverse_gst_zero_divisor (cents 118000) (Dec.mk (-1000) (-1)) false).
- reflexivity.
- cbn [Dec.coef]. reflexivity.
- cbn [Dec.exp]. lia.
- vm_compute. reflexivity.
Defined.

(** The divisor [1 + gst_rate / 100] for any rate that is not negative. *)
Lemma reverse_divisor_wide (r : Decimal) :
  rate_ok r ->
  exists q1 D,
    Dec.div r (Dec.of_int 100) = inr q1
    /\ Dec.add q1 (Dec.of_int 1) = inr D
    /\ (Dec.val D == 1 + Dec.val r / 100)%Q
    /\ 0 < Dec.coef D < 10 ^ 28
    /\ -8 <= Dec.exp D <= 0
    /\ 1 <= Dec.len_int D + Dec.exp D.
Proof.
intros [[Rc1 Rc2] Re].
assert (Rv1 : (0 <= Dec.val r)%Q).
{ destruct r as [c e]. apply val_nonneg. exact Rc1. }
change (10 ^ 9) with 1000000000 in Rc2.
destruct (div_hundred r) as (q1 & E1 & V1 & C1 & X1).
{ rewrite Z.abs_eq by lia. change (10 ^ 28) with 10000000000000000000000000000. lia. }
{ unfold Dec.Etiny, Dec.Etop, Dec.Emin, Dec.Emax, Dec.prec. lia. }
rewrite (Z.abs_eq (Dec.coef r)) in C1 by lia.
assert (Q0 : 0 <= Dec.coef q1).
{ assert (V : (0 <= Dec.val q1)%Q) by lra.
  destruct q1 as [c e]. cbn [Dec.coef].
  apply Qle_bool_iff in V. rewrite val_sign in V. apply Z.leb_le. exact V. }
rewrite (Z.abs_eq (Dec.coef q1)) in C1 by lia.
set (e := Z.min (Dec.exp q1) 0).
set (s := Dec.coef q1 * 10 ^ (Dec.exp q1 - e) + 1 * 10 ^ (0 - e)).
assert (P1 : 0 < 10 ^ (Dec.exp q1 - e) <= 10 ^ 2).
{ split; [apply Z.pow_pos_nonneg; subst e; lia |].
  apply Z.pow_le_mono_r; subst e; lia. }
assert (P2 : 0 < 10 ^ (0 - e) <= 10 ^ 8).
{ split; [apply Z.pow_pos_nonneg; subst e; lia |].
  apply Z.pow_le_mono_r; subst e; lia. }
change (10 ^ 2) with 100 in P1. change (10 ^ 8) with 100000000 in P2.
assert (Hs : 10 ^ (0 - e) <= s < 10 ^ 28).
{ change (10 ^ 28) with 10000000000000000000000000000. subst s. nia. }
pose proof (add_nonneg q1 (Dec.of_int 1)) as A.
cbn [Dec.of_int Dec.coef Dec.exp] in A. fold e in A. fold s in A. cbv zeta in A.
pose proof (val_add_aligned q1 (Dec.of_int 1)) as VA.
cbn [Dec.of_int Dec.coef Dec.exp] in VA. fold e in VA. fold s in VA.
cbv zeta in VA.
assert (He : -8 <= e <= 0 /\ Z.abs (Dec.exp q1 - 0) <= 29) by (subst e; lia).
clearbody s. clearbody e.
exists q1, (Dec.mk s e). split; [exact E1 |]. split.
{ apply A; [exact Q0 | lia | |].
  - split; [rewrite Z.abs_eq by lia; lia |].
    unfold Dec.Etiny, Dec.Etop, Dec.Emin, Dec.Emax, Dec.prec. lia.
  - unfold Dec.prec. lia. }
split; [| split; [| split]].
- rewrite VA. rewrite val_of_int.
  change (inject_Z 1) with 1%Q. rewrite <- V1. field.
- cbn [Dec.coef]. lia.
- cbn [Dec.exp]. lia.
- unfold Dec.len_int. cbn [Dec.coef Dec.exp]. rewrite Z.abs_eq by lia.
  pose proof (ndigits_ge s (0 - e) ltac:(lia) ltac:(lia) (proj1 Hs)).
  lia.
Qed.

(** X19: a rate above 100 is rejected by [calculate_reverse_gst] only after
    the division: for a two-decimal total from 0 to below 10^17 and a rate
    above 100 of at most nine digits and six decimals the divisor, the
    quotient and its rounding are computed, and the call then fails with the
    ValueError of [calculate_gst_breakdown] for the rate. *)
Theorem calculate_reverse_gst_rate_above_100 (T : Z) (r : Decimal) (inter : bool) :
  0 <= T < 10 ^ 19 -> rate_ok r -> (100 < Dec.val r)%Q ->
  GSTCalculator.calculate_reverse_gst (cents T) r inter
  = inl (ValueError "GST rate must be between 0 and 100").
Proof.
intros HT Hr Hv.
destruct (reverse_divisor_wide r Hr) as (q1 & D & E1 & E2 & VD & CD & XD & AD).
assert (V1 : (1 <= Dec.val D)%Q).
{ rewrite VD.
  assert (0 <= Dec.val r / 100)%Q by (apply Qle_shift_div_l; [reflexivity | lra]).
  lra. }
destruct (reverse_quotient T D HT CD XD AD V1) as (q & Eq & Qq & Vq).
assert (T0 : (0 <= inject_Z T)%Q).
{ change 0%Q with (inject_Z 0). rewrite <- Zle_Qle. lia. }
assert (X0 : (0 <= inject_Z T / Dec.val D)%Q).
{ apply Qle_shift_div_l; lra. }
destruct (half_up_cents_near (Dec.val q)) as [N1 N2].
set (m := half_up_cents (Dec.val q)) in *.
apply Qabs_Qle_condition in Vq. destruct Vq as [Y1 Y2].
assert (M0 : 0 <= m).
{ assert (A : (inject_Z (-1) < inject_Z m)%Q).
  { change (inject_Z (-1)) with (-1)%Q. lra. }
  rewrite <- Zlt_Qlt in A. lia. }
unfold GSTCalculator.calculate_reverse_gst.
assert (L : Dec.ltb (cents T) (Dec.of_int 0) = false).
{ apply ltb_val_false. rewrite val_of_int. apply val_nonneg. lia. }
rewrite L, E1. cbn [bind]. rewrite E2. cbn [bind]. rewrite Eq. cbn [bind].
rewrite Qq. cbn [bind].
unfold GSTCalculator.calculate_gst_breakdown.
assert (L2 : Dec.ltb (cents m) (Dec.of_int 0) = false).
{ apply ltb_val_false. rewrite val_of_int. apply val_nonneg. exact M0. }
assert (L3 : Dec.ltb (Dec.of_int 100) r = true).
{ apply ltb_val. rewrite val_of_int. exact Hv. }
rewrite L2, L3, orb_true_r. reflexivity.
Qed.

Lemma calculate_reverse_gst_rate_above_100_witness :
  GSTCalculator.calculate_reverse_gst (cents 118000) (Dec.of_int 150) false
  = inl (ValueError "GST rate must be between 0 and 100").
Proof.
apply (calculate_reverse_gst_rate_above_100 118000 (Dec.of_int 150) false).
- split; [lia | reflexivity].
- unfold rate_ok. cbn [Dec.of_int Dec.coef Dec.exp].
  split; [split; [lia | reflexivity] | lia].
- vm_compute. reflexivity.
Defined.

(** ** The breakdown as a function of the amount and of the rate *)

Section BreakdownOrder.

Local Open Scope Q_scope.

Lemma half_up_cents_mono (x y : Q) :
  0 <= x -> x <= y -> (half_up_cents x <= half_up_cents y)%Z.
Proof.
intros Hx Hxy.
destruct (half_up_cents_nonneg x Hx) as (_ & L1 & _).
destruct (half_up_cents_nonneg y ltac:(lra)) as (_ & _ & U2).
assert (A : inject_Z (half_up_cents x) < inject_Z (half_up_cents y + 1)).
{ rewrite inject_Z_plus. change (inject_Z 1) with 1. lra. }
rewrite <- Zlt_Qlt in A. lia.
Qed.

Lemma percent_mono (t1 t2 r1 r2 : Q) :
  0 <= t1 -> t1 <= t2 -> 0 <= r1 -> r1 <= r2 ->
  0 <= t1 * r1 / 100 /\ t1 * r1 / 100 <= t2 * r2 / 100.
Proof.
intros Ht1 Ht Hr1 Hr.
assert (P : 0 <= t1 * r1) by (apply Qmult_le_0_compat; assumption).
assert (M : t1 * r1 <= t2 * r2) by nra.
split.
- apply Qle_shift_div_l; [reflexivity | lra].
- apply Qle_shift_div_l; [reflexivity |].
  setoid_replace (t1 * r1 / 100 * 100) with (t1 * r1) by field. exact M.
Qed.

Lemma val_cents_le (a b : Z) :
  (a <= b)%Z -> Dec.val (cents a) <= Dec.val (cents b).
Proof.
intro H. rewrite !val_cents. apply Qle_shift_div_l; [reflexivity |].
setoid_replace (inject_Z a / 100 * 100) with (inject_Z a) by field.
rewrite <- Zle_Qle. exact H.
Qed.

End BreakdownOrder.

(** X20: the tax never decreases when the amount or the rate grows.  For
    amounts [t1 <= t2] (not negative, below 10^20, at most six decimals) and
    rates [r1 <= r2] in [0, 100] (at most nine digits and six decimals) both
    breakdowns return, and the total tax and the total amount of the first
    are at most those of the second; the tax is never negative. *)
Theorem breakdown_monotone (t1 t2 r1 r2 : Decimal) (inter : bool) :
  amount_ok t1 -> amount_ok t2 -> rate_ok r1 -> rate_ok r2 ->
  (Dec.val t1 <= Dec.val t2)%Q ->
  (Dec.val r1 <= Dec.val r2)%Q -> (Dec.val r2 <= 100)%Q ->
  exists b1 b2,
    GSTCalculator.calculate_gst_breakdown t1 r1 inter = inr b1
    /\ GSTCalculator.calculate_gst_breakdown t2 r2 inter = inr b2
    /\ (0 <= Dec.val (GSTCalculator.total_tax b1))%Q
    /\ (Dec.val (GSTCalculator.total_tax b1)
        <= Dec.val (GSTCalculator.total_tax b2))%Q
    /\ (Dec.val (GSTCalculator.total_amount b1)
        <= Dec.val (GSTCalculator.total_amount b2))%Q.
Proof.
intros Ht1 Ht2 Hr1 Hr2 Ht Hr H100.
pose proof (amount_ok_val t1 Ht1) as [T1 _].
pose proof (amount_ok_val t2 Ht2) as [T2 _].
assert (R1 : (0 <= Dec.val r1)%Q).
{ destruct r1 as [c e]. apply val_nonneg. apply Hr1. }
assert (Hv1 : (0 <= Dec.val r1 <= 100)%Q) by (split; lra).
assert (Hv2 : (0 <= Dec.val r2 <= 100)%Q) by (split; lra).
assert (G1 : rate_in_range r1 = true) by (apply rate_in_range_val; exact Hv1).
assert (G2 : rate_in_range r2 = true) by (apply rate_in_range_val; exact Hv2).
destruct inter.
- destruct (breakdown_interstate t1 r1 Ht1 Hr1 G1) as [B1 K1].
  destruct (breakdown_interstate t2 r2 Ht2 Hr2 G2) as [B2 K2].
  cbv zeta in B1, B2, K1, K2.
  destruct (percent_mono _ _ _ _ T1 Ht R1 Hr) as [P0 PM].
  pose proof (half_up_cents_mono _ _ P0 PM) as M.
  set (i1 := half_up_cents (Dec.val t1 * Dec.val r1 / 100)) in *.
  set (i2 := half_up_cents (Dec.val t2 * Dec.val r2 / 100)) in *.
  eexists. eexists. split; [exact B1 |]. split; [exact B2 |].
  cbn [GSTCalculator.total_tax GSTCalculator.total_amount].
  split; [apply val_nonneg; lia |]. split; [apply val_cents_le; exact M |].
  apply val_cents_le. apply half_up_cents_mono.
  + assert (0 <= Dec.val (cents i1))%Q by (apply val_nonneg; lia). lra.
  + pose proof (val_cents_le i1 i2 M). lra.
- destruct (breakdown_intrastate t1 r1 Ht1 Hr1 G1) as (h1 & _ & _ & B1 & K1).
  destruct (breakdown_intrastate t2 r2 Ht2 Hr2 G2) as (h2 & _ & _ & B2 & K2).
  cbv zeta in B1, B2, K1, K2.
  assert (H1 : (0 <= Dec.val r1 / 2)%Q) by (apply Qle_shift_div_l; [reflexivity | lra]).
  assert (H2 : (Dec.val r1 / 2 <= Dec.val r2 / 2)%Q).
  { apply Qle_shift_div_l; [reflexivity |].
    setoid_replace (Dec.val r1 / 2 * 2)%Q with (Dec.val r1) by field.
    exact Hr. }
  destruct (percent_mono _ _ _ _ T1 Ht H1 H2) as [P0 PM].
  pose proof (half_up_cents_mono _ _ P0 PM) as M.
  set (c1 := half_up_cents (Dec.val t1 * (Dec.val r1 / 2) / 100)) in *.
  set (c2 := half_up_cents (Dec.val t2 * (Dec.val r2 / 2) / 100)) in *.
  eexists. eexists. split; [exact B1 |]. split; [exact B2 |].
  cbn [GSTCalculator.total_tax GSTCalculator.total_amount].
  split; [apply val_nonneg; lia |]. split; [apply val_cents_le; lia |].
  apply val_cents_le. apply half_up_cents_mono.
  + assert (0 <= Dec.val (cents (c1 + c1)))%Q by (apply val_nonneg; lia). lra.
  + pose proof (val_cents_le (c1 + c1) (c2 + c2) ltac:(lia)). lra.
Qed.

Lemma breakdown_monotone_witness :
  exists b1 b2,
    GSTCalculator.calculate_gst_breakdown (cents 100000) (Dec.of_int 12) false
    = inr b1
    /\ GSTCalculator.calculate_gst_breakdown (cents 100001) (Dec.of_int 18) false
       = inr b2
    /\ (Dec.val (GSTCalculator.total_amount b1)
        <= Dec.val (GSTCalculator.total_amount b2))%Q.
Proof.
destruct (breakdown_monotone (cents 100000) (cents 100001) (Dec.of_int 12)
            (Dec.of_int 18) false) as (b1 & b2 & E1 & E2 & _ & _ & M).
- unfold amount_ok. cbn [cents Dec.coef Dec.exp].
  split; [split; [lia | reflexivity] | lia].
- unfold amount_ok. cbn [cents Dec.coef Dec.exp].
  split; [split; [lia | reflexivity] | lia].
- unfold rate_ok. cbn [Dec.of_int Dec.coef Dec.exp].
  split; [split; [lia | reflexivity] | lia].
- unfold rate_ok. cbn [Dec.of_int Dec.coef Dec.exp].
  split; [split; [lia | reflexivity] | lia].
- vm_compute. discriminate.
- vm_compute. discriminate.
- vm_compute. discriminate.
- exists b1, b2. split; [exact E1 |]. split; [exact E2 | exact M].
Defined.

(** X21: at a rate of zero nothing is added: for an amount that is not
    negative (below 10^20, at most six decimals) every tax amount of the
    breakdown is zero and the total amount is the taxable amount rounded to
    two decimals, hence the taxable amount itself when that has two
    decimals. *)
Theorem breakdown_zero_rate (t r : Decimal) (inter : bool) :
  amount_ok t -> rate_ok r -> (Dec.val r == 0)%Q ->
  exists b,
    GSTCalculator.calculate_gst_breakdown t r inter = inr b
    /\ (Dec.val (GSTCalculator.cgst_amount b) == 0)%Q
    /\ (Dec.val (GSTCalculator.sgst_amount b) == 0)%Q
    /\ (Dec.val (GSTCalculator.igst_amount b) == 0)%Q
    /\ GSTCalculator.total_tax b = cents 0
    /\ GSTCalculator.total_amount b = rounded2 (Dec.val t)
    /\ (forall n, t = cents n -> GSTCalculator.total_amount b = t).
Proof.
intros Ht Hr Hv.
assert (Hv' : (0 <= Dec.val r <= 100)%Q) by (rewrite Hv; split; discriminate).
assert (G : rate_in_range r = true) by (apply rate_in_range_val; exact Hv').
assert (Z1 : half_up_cents (Dec.val t * Dec.val r / 100) = 0).
{ apply half_up_cents_exact. rewrite Hv. change (inject_Z 0) with 0%Q. field. }
assert (Z2 : half_up_cents (Dec.val t * (Dec.val r / 2) / 100) = 0).
{ apply half_up_cents_exact. rewrite Hv. change (inject_Z 0) with 0%Q. field. }
assert (Et : forall m, m = 0 ->
               half_up_cents (Dec.val t + Dec.val (cents m))
               = half_up_cents (Dec.val t)).
{ intros m ->. apply half_up_cents_comp. rewrite val_cents.
  change (inject_Z 0) with 0%Q. field. }
assert (En : forall n, t = cents n -> rounded2 (Dec.val t) = t).
{ intros n ->. unfold rounded2. f_equal. apply half_up_cents_exact.
  rewrite val_cents. field. }
destruct inter.
- destruct (breakdown_interstate t r Ht Hr G) as [B _]. cbv zeta in B.
  rewrite Z1 in B. rewrite (Et 0 eq_refl) in B.
  eexists. split; [exact B |].
  cbn [GSTCalculator.cgst_amount GSTCalculator.sgst_amount
       GSTCalculator.igst_amount GSTCalculator.total_tax
       GSTCalculator.total_amount].
  repeat split; try reflexivity. exact En.
- destruct (breakdown_intrastate t r Ht Hr G) as (h & _ & _ & B & _).
  cbv zeta in B. rewrite Z2 in B. rewrite (Et (0 + 0) eq_refl) in B.
  eexists. split; [exact B |].
  cbn [GSTCalculator.cgst_amount GSTCalculator.sgst_amount
       GSTCalculator.igst_amount GSTCalculator.total_tax
       GSTCalculator.total_amount].
  repeat split; try reflexivity. exact En.
Qed.

Lemma breakdown_zero_rate_witness :
  exists b,
    GSTCalculator.calculate_gst_breakdown (cents 123456) (Dec.of_int 0) true
    = inr b
    /\ GSTCalculator.total_amount b = cents 123456.
Proof.
destruct (breakdown_zero_rate (cents 123456) (Dec.of_int 0) true)
  as (b & E & _ & _ & _ & _ & _ & T).
- unfold amount_ok. cbn [cents Dec.coef Dec.exp].
  split; [split; [lia | reflexivity] | lia].
- unfold rate_ok. cbn [Dec.of_int Dec.coef Dec.exp].
  split; [split; [lia | reflexivity] | lia].
- vm_compute. reflexivity.
- exists b. split; [exact E | exact (T 123456 eq_refl)].
Defined.

(** ** Line items within everyday bounds *)

Section ItemAmounts.

Local Open Scope Q_scope.

Lemma val_le_coef (c e : Z) :
  (0 <= c)%Z -> (e <= 0)%Z -> Dec.val (Dec.mk c e) <= inject_Z c.
Proof.
intros Hc He. unfold Dec.val. cbn [Dec.coef Dec.exp].
pose proof (pow10_le_mono e 0 He) as M. change (Dec.pow10 0) with 1 in M.
assert (0 <= inject_Z c).
{ change 0 with (inject_Z 0). rewrite <- Zle_Qle. exact Hc. }
setoid_replace (inject_Z c) with (inject_Z c * 1) at 2 by ring.
rewrite !(Qmult_comm (inject_Z c)). apply Qmult_le_compat_r; assumption.
Qed.

(** The gross amount of a line: quantity below 10^6, unit price below 10^9,
    each with at most four decimals. *)
Lemma gross_amount_steps (it : InvoiceItem) :
  (0 <= Dec.coef (quantity it) < 10 ^ 6)%Z -> (-4 <= Dec.exp (quantity it) <= 0)%Z ->
  (0 <= Dec.coef (unit_price it) < 10 ^ 9)%Z ->
  (-4 <= Dec.exp (unit_price it) <= 0)%Z ->
  let g := half_up_cents (Dec.val (quantity it) * Dec.val (unit_price it)) in
  Item.gross_amount it = inr (cents g) /\ (0 <= g < 10 ^ 17)%Z.
Proof.
intros Hq Heq Hp Hep g.
change (10 ^ 6)%Z with 1000000%Z in Hq. change (10 ^ 9)%Z with 1000000000%Z in Hp.
set (c := (Dec.coef (quantity it) * Dec.coef (unit_price it))%Z).
set (e := (Dec.exp (quantity it) + Dec.exp (unit_price it))%Z).
assert (Hc : (0 <= c <= 10 ^ 15 - 10 ^ 9)%Z).
{ subst c. change (10 ^ 15)%Z with 1000000000000000%Z.
  change (10 ^ 9)%Z with 1000000000%Z. nia. }
change (10 ^ 15)%Z with 1000000000000000%Z in Hc.
change (10 ^ 9)%Z with 1000000000%Z in Hc.
assert (V : Dec.val (Dec.mk c e) == Dec.val (quantity it) * Dec.val (unit_price it))
  by apply val_mul.
assert (V0 : 0 <= Dec.val (Dec.mk c e)) by (apply val_nonneg; lia).
assert (V1 : Dec.val (Dec.mk c e) <= inject_Z c)
  by (apply val_le_coef; subst e; lia).
assert (C15 : inject_Z c <= inject_Z (10 ^ 15 - 10 ^ 9)).
{ rewrite <- Zle_Qle. change (10 ^ 15 - 10 ^ 9)%Z with 999999000000000%Z. lia. }
assert (Eg : g = half_up_cents (Dec.val (Dec.mk c e))).
{ subst g. apply half_up_cents_comp. symmetry. exact V. }
split.
- unfold Item.gross_amount. rewrite mul_exact.
  2:{ fold c. fold e. split.
      - rewrite Z.abs_eq by lia.
        change (10 ^ 28)%Z with 10000000000000000000000000000%Z. lia.
      - unfold Dec.Etiny, Dec.Etop, Dec.Emin, Dec.Emax, Dec.prec. subst e. lia. }
  cbn [bind]. fold c. fold e. rewrite quantize2_val.
  + rewrite Eg. reflexivity.
  + apply Qabs_Qlt_condition.
    assert (B : inject_Z (10 ^ 15 - 10 ^ 9) < Dec.pow10 25)
      by (vm_compute; reflexivity).
    split; lra.
- rewrite Eg.
  assert (B : (0 <= half_up_cents (Dec.val (Dec.mk c e)) <= 10 ^ 17 - 1)%Z).
  { apply half_up_cents_bound; [exact V0 |].
    assert (B : inject_Z (10 ^ 15 - 10 ^ 9) * 100 <= inject_Z (10 ^ 17 - 1))
      by (vm_compute; discriminate).
    lra. }
  lia.
Qed.

End ItemAmounts.

(** X22: a line item within everyday bounds (quantity below 10^6 and unit
    price below 10^9 with at most four decimals, discount percentage at most
    100, fixed discount below 10^13 with at most two decimals, rate at most
    100) has all its amounts defined, each the exact result of the source's
    formula on two-decimal numbers: the percentage discount is from 0 to the
    gross amount, the total discount adds the fixed discount, the taxable
    amount is the gross amount minus the total discount; when that is not
    negative, CGST equals SGST, the total tax is their sum, the total amount
    adds it to the taxable amount, and CGST + SGST is within 0.01 of IGST. *)
Theorem item_amounts_defined (it : InvoiceItem) :
  0 <= Dec.coef (quantity it) < 10 ^ 6 -> -4 <= Dec.exp (quantity it) <= 0 ->
  0 <= Dec.coef (unit_price it) < 10 ^ 9 -> -4 <= Dec.exp (unit_price it) <= 0 ->
  rate_ok (discount_percentage it) -> (Dec.val (discount_percentage it) <= 100)%Q ->
  0 <= Dec.coef (discount_amount it) < 10 ^ 13 ->
  -2 <= Dec.exp (discount_amount it) <= 2 ->
  rate_ok (gst_rate it) -> (Dec.val (gst_rate it) <= 100)%Q ->
  let g := half_up_cents (Dec.val (quantity it) * Dec.val (unit_price it)) in
  let pd := half_up_cents (Dec.val (cents g) * Dec.val (discount_percentage it) / 100) in
  let a := Dec.coef (discount_amount it) * 10 ^ (Dec.exp (discount_amount it) + 2) in
  let t := g - pd - a in
  let c := half_up_cents (Dec.val (cents t) * (Dec.val (gst_rate it) / 2) / 100) in
  let i := half_up_cents (Dec.val (cents t) * Dec.val (gst_rate it) / 100) in
  0 <= pd <= g
  /\ Item.gross_amount it = inr (cents g)
  /\ Item.total_discount it = inr (cents (pd + a))
  /\ Item.taxable_amount it = inr (cents t)
  /\ (0 <= t ->
      Item.cgst_amount it = inr (cents c)
      /\ Item.sgst_amount it = inr (cents c)
      /\ Item.igst_amount it = inr (cents i)
      /\ Item.total_tax_amount it = inr (cents (c + c))
      /\ Item.total_amount it = inr (cents (t + c + c))
      /\ 0 <= c /\ -1 <= c + c - i <= 1).
Proof.
intros Hq Heq Hp Hep Hpct Hpct100 Hda Heda Hr Hr100 g pd a t c i.
destruct (gross_amount_steps it Hq Heq Hp Hep) as [Eg Hg]. fold g in Eg, Hg.
destruct (discount_steps g (discount_percentage it) Hg Hpct)
  as (Hpd & Hle & q & E1 & E2 & E3 & _).
fold pd in Hpd, Hle, E3. specialize (Hle Hpct100).
assert (P28 : 10 ^ 28 = 10000000000000000000000000000) by reflexivity.
assert (P17 : 10 ^ 17 = 100000000000000000) by reflexivity.
assert (P13 : 10 ^ 13 = 10000000000000) by reflexivity.
assert (Ha : 0 <= a < 10 ^ 17).
{ subst a.
  assert (Pw : 0 < 10 ^ (Dec.exp (discount_amount it) + 2) <= 10 ^ 4).
  { split; [apply Z.pow_pos_nonneg; lia | apply Z.pow_le_mono_r; lia]. }
  change (10 ^ 4) with 10000 in Pw. rewrite P17. rewrite P13 in Hda. nia. }
rewrite P17 in Hg, Ha.
(* the total discount *)
assert (Ed : Item.total_discount it = inr (cents (pd + a))).
{ unfold Item.total_discount. rewrite Eg. cbn [bind].
  rewrite E1. cbn [bind]. rewrite E2. cbn [bind]. rewrite E3. cbn [bind].
  pose proof (add_nonneg (cents pd) (discount_amount it)) as A.
  cbn [cents Dec.coef Dec.exp] in A.
  replace (Z.min (-2) (Dec.exp (discount_amount it))) with (-2) in A by lia.
  change (-2 - -2) with 0 in A. change (10 ^ 0) with 1 in A. cbv zeta in A.
  replace (Dec.exp (discount_amount it) - -2)
    with (Dec.exp (discount_amount it) + 2) in A by lia.
  fold a in A. rewrite Z.mul_1_r in A.
  rewrite A.
  - cbn [bind]. apply quantize2_cents. rewrite P28. lia.
  - lia.
  - lia.
  - apply in_context_cents. rewrite P28. lia.
  - unfold Dec.prec. lia. }
(* the taxable amount *)
assert (Et : Item.taxable_amount it = inr (cents t)).
{ unfold Item.taxable_amount. rewrite Eg. cbn [bind]. rewrite Ed. cbn [bind].
  unfold cents at 1 2. rewrite sub_same_exp
    by (apply in_context_cents; rewrite P28; lia).
  cbn [bind]. replace (g - (pd + a)) with t by (subst t; lia).
  apply quantize2_cents. rewrite P28. subst t. lia. }
split; [lia |]. split; [exact Eg |]. split; [exact Ed |]. split; [exact Et |].
intro Ht0.
assert (Hok : amount_ok (cents t)).
{ unfold amount_ok. cbn [cents Dec.coef Dec.exp].
  change (10 ^ 18) with 1000000000000000000. subst t. lia. }
assert (R0 : (0 <= Dec.val (gst_rate it))%Q).
{ destruct (gst_rate it) as [cr er]. apply val_nonneg. apply Hr. }
assert (Hv : (0 <= Dec.val (gst_rate it) <= 100)%Q) by (split; assumption).
destruct (half_rate_steps (gst_rate it) Hr Hv) as (h & Eh & Vh & Ch & Xh & Rh).
destruct (tax_steps (cents t) h Hok Ch Xh Rh) as (qc & C1 & C2 & C3 & C4).
assert (Ec : half_up_cents (Dec.val (cents t) * Dec.val h / 100) = c).
{ subst c. apply half_up_cents_comp. rewrite Vh. reflexivity. }
rewrite Ec in C3, C4.
destruct (rate_ok_tax (gst_rate it) Hr) as [Cr Xr].
destruct (tax_steps (cents t) (gst_rate it) Hok Cr Xr Hv) as (qi & I1 & I2 & I3 & I4).
fold i in I3, I4.
assert (P22 : 10 ^ 22 = 10000000000000000000000) by reflexivity.
rewrite P22 in C4, I4.
assert (Ecg : Item.cgst_amount it = inr (cents c)).
{ unfold Item.cgst_amount. rewrite Eh. cbn [bind]. rewrite Et. cbn [bind].
  rewrite C1. cbn [bind]. rewrite C2. cbn [bind]. exact C3. }
assert (Eig : Item.igst_amount it = inr (cents i)).
{ unfold Item.igst_amount. rewrite Et. cbn [bind].
  rewrite I1. cbn [bind]. rewrite I2. cbn [bind]. exact I3. }
assert (Etx : Item.total_tax_amount it = inr (cents (c + c))).
{ unfold Item.total_tax_amount.
  change (Item.sgst_amount it) with (Item.cgst_amount it).
  rewrite Ecg. cbn [bind]. unfold cents at 1 2.
  rewrite add_same_exp by (apply in_context_cents; rewrite P28; lia).
  cbn [bind]. apply quantize2_cents. rewrite P28. lia. }
split; [exact Ecg |]. split; [exact Ecg |]. split; [exact Eig |].
split; [exact Etx |]. split.
- unfold Item.total_amount. rewrite Et. cbn [bind]. rewrite Etx. cbn [bind].
  unfold cents at 1 2. rewrite add_same_exp
    by (apply in_context_cents; rewrite P28; subst t; lia).
  cbn [bind]. replace (t + (c + c)) with (t + c + c) by lia.
  apply quantize2_cents. rewrite P28. subst t. lia.
- split; [lia |].
  assert (X0 : (0 <= Dec.val (cents t) * Dec.val (gst_rate it) / 100)%Q).
  { apply Qle_shift_div_l; [reflexivity |].
    assert (0 <= Dec.val (cents t))%Q by (apply val_nonneg; lia).
    assert (0 <= Dec.val (cents t) * Dec.val (gst_rate it))%Q
      by (apply Qmult_le_0_compat; assumption).
    lra. }
  pose proof (half_up_cents_double _ X0) as Dbl.
  assert (Ec2 : half_up_cents (Dec.val (cents t) * Dec.val (gst_rate it) / 100 / 2)
                = c).
  { subst c. apply half_up_cents_comp. field. }
  rewrite Ec2 in Dbl. fold i in Dbl. exact Dbl.
Qed.

Lemma item_amounts_defined_witness :
  Item.taxable_amount (laptop_item "Laptop" "8471" "Nos") = inr (cents 6175000).
Proof.
pose proof (item_amounts_defined (laptop_item "Laptop" "8471" "Nos")) as H.
cbn [laptop_item quantity unit_price discount_percentage discount_amount gst_rate]
  in H.
specialize (H ltac:(cbn; split; [lia | reflexivity]) ltac:(cbn; lia)
              ltac:(cbn; split; [lia | reflexivity]) ltac:(cbn; lia)
              ltac:(unfold rate_ok; cbn; split; [split; [lia | reflexivity] | lia])
              ltac:(vm_compute; discriminate)
              ltac:(cbn; split; [lia | reflexivity]) ltac:(cbn; lia)
              ltac:(unfold rate_ok; cbn; split; [split; [lia | reflexivity] | lia])
              ltac:(vm_compute; discriminate)).
cbv zeta in H. destruct H as (_ & _ & _ & H & _).
rewrite H. vm_compute. reflexivity.
Defined.

(** ** State names *)








